(** * Calamares package modules (pacman, paru, pacstrap): a shallow embedding

    The development follows the Python sources of the three job modules

      - [usr/lib/calamares/modules/pacman/main.py]
      - [usr/lib/calamares/modules/paru/main.py]
      - [usr/lib/calamares/modules/pacstrap/main.py] and [pkgcheck.py]

    Python strings are modelled by [string], a sequence of code points below
    256.  Python dictionaries that are mutated in place (structured package
    entries) live in a heap and are referred to by address, so that aliasing
    between lists is visible.  Insertion-ordered dictionaries with few keys
    (operations) are association lists with [dict_set] as assignment.  The
    target system, the host system and the clock are oracles. *)

From Stdlib Require Import ZArith QArith Ascii String.
From stdpp Require Import gmap strings list fin_maps.

Open Scope string_scope.

(** ** Python string primitives *)

Module Py.

(** [needle in hay] *)
Fixpoint contains (needle hay : string) : bool :=
  String.prefix needle hay ||
  match hay with
  | EmptyString => false
  | String _ t => contains needle t
  end.

Definition in_range (lo hi : N) (c : ascii) : bool :=
  ((lo <=? N_of_ascii c) && (N_of_ascii c <=? hi))%N.

(** [str.lower] on code points below 256: A-Z, and the accented capitals
    of Latin-1 except the multiplication sign. *)
Definition lower_char (c : ascii) : ascii :=
  if in_range 65 90 c || (in_range 192 222 c && negb (Ascii.eqb c (ascii_of_N 215)))
  then ascii_of_N (N_of_ascii c + 32) else c.

Fixpoint lower (s : string) : string :=
  match s with
  | EmptyString => EmptyString
  | String c t => String (lower_char c) (lower t)
  end.

(** Iterating over a [str] yields its one-character strings. *)
Fixpoint chars (s : string) : list string :=
  match s with
  | EmptyString => []
  | String c t => String c EmptyString :: chars t
  end.

(** [s.startswith(p)] and [s.endswith(p)] *)
Definition startswith (s p : string) : bool := String.prefix p s.

Fixpoint endswith (s p : string) : bool :=
  String.eqb s p ||
  match s with
  | EmptyString => false
  | String _ t => endswith t p
  end.

(** Truth value of a string: empty is false. *)
Definition truthy (s : string) : bool :=
  match s with EmptyString => false | _ => true end.

(** Code points that [str.strip] removes (restricted to those below 256). *)
Definition is_space (c : ascii) : bool :=
  in_range 9 13 c || in_range 28 32 c
  || Ascii.eqb c (ascii_of_N 133) || Ascii.eqb c (ascii_of_N 160).

Fixpoint lstrip (s : string) : string :=
  match s with
  | EmptyString => EmptyString
  | String c t => if is_space c then lstrip t else s
  end.

(** Strip on the right: a character is kept when something that is not
    white space follows it or it is not white space itself. *)
Fixpoint rstrip (s : string) : string :=
  match s with
  | EmptyString => EmptyString
  | String c t =>
      match rstrip t with
      | EmptyString => if is_space c then EmptyString else String c EmptyString
      | r => String c r
      end
  end.

Definition strip (s : string) : string := rstrip (lstrip s).

(** [s.rstrip("\n")] *)
Fixpoint rstrip_nl (s : string) : string :=
  match s with
  | EmptyString => EmptyString
  | String c t =>
      match rstrip_nl t with
      | EmptyString =>
          if Ascii.eqb c (ascii_of_N 10) then EmptyString else String c EmptyString
      | r => String c r
      end
  end.

(** [s.split(" ")]: split at every single space, keeping empty fields. *)
Fixpoint split_space (s : string) : list string :=
  match s with
  | EmptyString => [EmptyString]
  | String c t =>
      if Ascii.eqb c " " then EmptyString :: split_space t
      else match split_space t with
           | [] => [String c EmptyString]
           | f :: fs => String c f :: fs
           end
  end.

(** [repr(s)] for a string without quote, backslash or non-printable
    characters: the string in single quotes. *)
Definition repr_plain (s : string) : string := "'" ++ s ++ "'".

(** *** [string.Template.safe_substitute]

    The pattern of [string.Template] is, with [re.IGNORECASE], a delimiter
    [$] followed by one of four alternatives, tried in this order: a second
    [$] (escaped), an identifier (named), an identifier in braces (braced),
    or nothing (invalid).  An identifier is an ASCII letter or underscore
    followed by ASCII letters, digits and underscores. *)

Definition id_start (c : ascii) : bool :=
  in_range 65 90 c || in_range 97 122 c || Ascii.eqb c "_".

Definition id_char (c : ascii) : bool :=
  id_start c || in_range 48 57 c.

(** Longest prefix of identifier characters, and what follows it. *)
Fixpoint take_id (s : string) : string * string :=
  match s with
  | EmptyString => (EmptyString, EmptyString)
  | String c t =>
      if id_char c then let '(i, r) := take_id t in (String c i, r)
      else (EmptyString, s)
  end.

Inductive tmatch :=
| Escaped
| Named (id : string)
| Braced (id : string)
| Invalid.

(** The text a match covers ([mo.group()]) and its length. *)
Definition match_text (m : tmatch) : string :=
  match m with
  | Escaped => "$$"
  | Named id => "$" ++ id
  | Braced id => "${" ++ id ++ "}"
  | Invalid => "$"
  end.

Definition match_len (m : tmatch) : nat := String.length (match_text m).

(** The pattern matched at the head of [s]; alternatives in their order. *)
Definition pattern_match (s : string) : option tmatch :=
  match s with
  | EmptyString => None
  | String d r =>
      if negb (Ascii.eqb d "$") then None
      else Some
        match r with
        | EmptyString => Invalid
        | String c r' =>
            if Ascii.eqb c "$" then Escaped
            else if id_start c then Named (fst (take_id r))
            else if Ascii.eqb c "{" then
              match take_id r' with
              | (String i id, String e _) =>
                  if id_start i && Ascii.eqb e "}" then Braced (String i id)
                  else Invalid
              | _ => Invalid
              end
            else Invalid
        end
  end.

(** [convert] of [safe_substitute] for the mapping [{"LOCALE": locale}]. *)
Definition convert (locale : string) (m : tmatch) : string :=
  match m with
  | Named id | Braced id =>
      if String.eqb id "LOCALE" then locale else match_text m
  | Escaped => "$"
  | Invalid => match_text m
  end.

(** [pattern.sub(convert, template)]: scan from the left; at a match emit the
    replacement and skip the matched text, otherwise copy the character.
    [skip] counts the characters of the current match still to be passed. *)
Fixpoint sub (locale : string) (s : string) (skip : nat) : string :=
  match s with
  | EmptyString => EmptyString
  | String c t =>
      match skip with
      | S k => sub locale t k
      | O =>
          match pattern_match s with
          | Some m => convert locale m ++ sub locale t (match_len m - 1)
          | None => String c (sub locale t 0)
          end
      end
  end.

Definition safe_substitute (locale template : string) : string :=
  sub locale template 0.

End Py.

(** ** The Calamares job environment: data, effects and the effect monad *)

Module Calamares.

(** *** Package entries and operations *)

(** A structured package entry is a Python [dict]; only these keys are read
    or written by the modules. *)
Record pkgdict := PkgDict {
  package : option string;
  pre_script : option string;
  post_script : option string
}.

Definition set_package (name : string) (d : pkgdict) : pkgdict :=
  {| package := Some name; pre_script := pre_script d; post_script := post_script d |}.

(** A package entry is a [str] or a reference to a [dict] object. *)
Inductive entry :=
| EStr (s : string)
| EDict (a : nat).

(** The value stored under a key of an operation: a list of entries, or a
    string (the [source] tag). *)
Inductive pyval :=
| PList (l : list entry)
| PStr (s : string).

(** [for x in v] *)
Definition py_iter (v : pyval) : list entry :=
  match v with
  | PList l => l
  | PStr s => EStr <$> Py.chars s
  end.

(** Insertion-ordered dictionary with [str] keys. *)
Definition dict (V : Type) : Type := list (string * V).

Fixpoint dict_get {V} (d : dict V) (k : string) : option V :=
  match d with
  | [] => None
  | (k', v) :: d' => if String.eqb k' k then Some v else dict_get d' k
  end.

(** [d[k] = v]: overwrite in place, or append a new key. *)
Fixpoint dict_set {V} (d : dict V) (k : string) (v : V) : dict V :=
  match d with
  | [] => [(k, v)]
  | (k', v') :: d' =>
      if String.eqb k' k then (k, v) :: d' else (k', v') :: dict_set d' k v
  end.

(** A Python dictionary has no key twice. *)
Definition dict_wf {V} (d : dict V) : Prop := NoDup d.*1.

Definition operation : Type := dict pyval.

(** *** The outside world *)

(** What one run of an external command does: the lines it prints, its exit
    code, and whether it is still running when a configured timeout
    expires ([out_lines] are then the lines printed so far). *)
Record outcome := Outcome {
  out_lines : list string;
  out_rc : Z;
  out_slow : bool
}.

Inductive exn :=
| CalledProcessError (cmd : list string) (returncode : Z)
| PacmanError (cmd : list string) (returncode : Z)
| KeyError (key : string)
| ZeroDivisionError.

(** A computation returns, raises, or (for a loop of the model only) runs
    out of the fuel it was given; the last is never caught. *)
Inductive res (A : Type) :=
| Ok (a : A)
| Raise (e : exn)
| OutOfFuel.
Arguments Ok {A} a.
Arguments Raise {A} e.
Arguments OutOfFuel {A}.

Inductive mode := INSTALL | REMOVE.

(** Log records of [libcalamares.utils.warning] and [debug].  Messages that
    format an object with [repr] or [str] carry the object. *)
Inductive event :=
| Warning (text : string)
| Debug (text : string)
| WarningEntry (text : string) (item : entry)
| DebugEntry (text : string) (item : entry)
| WarningExn (text : string) (e : exn)
| DebugExn (text : string) (e : exn)
| DebugValue (text : string) (v : pyval)
| WarningCommand (text : string) (cmd : list string)
| DebugCount (text : string) (n m : nat).

Record globalstorage := GlobalStorage {
  gs_locale : option string;
  gs_hasInternet : bool;
  gs_packageOperations : option (list operation);
  gs_rootMountPoint : option string;
  gs_bootloader : option string
}.

(** The state a job runs in.  [sys] answers the n-th external command,
    [clock] the n-th reading of the time, [str_of_list] is Python's [str]
    of a list of entries; [invoked], [progress], [log] and
    [environ] record effects, newest first; [divisions] records every
    evaluation of a quotient [completed / total].  The remaining fields are
    the module-level variables of the job module and the mutable fields of
    its package manager object. *)
Record world := World {
  sys : nat → list string → outcome;
  clock : nat → Q;
  str_of_list : gmap nat pkgdict → list entry → string;
  gs : globalstorage;
  gs_online : bool;
  heap : gmap nat pkgdict;
  invoked : list (list string);
  progress : list Q;
  divisions : list (Z * Z);
  log : list event;
  environ : list (string * string);
  time_calls : nat;
  total_packages : Z;
  completed_packages : Z;
  group_packages : Z;
  mode_packages : option mode;
  custom_status_message : option string;
  in_package_changes : bool;
  progress_fraction : Q;
  status_update_time : Q
}.

Definition set_gs_online (v : bool) (w : world) : world :=
  {| sys := sys w; clock := clock w; str_of_list := str_of_list w; gs := gs w;
  gs_online := v; heap := heap w; invoked := invoked w; progress := progress
  w; divisions := divisions w; log := log w; environ := environ w; time_calls
  := time_calls w; total_packages := total_packages w; completed_packages :=
  completed_packages w; group_packages := group_packages w; mode_packages :=
  mode_packages w; custom_status_message := custom_status_message w;
  in_package_changes := in_package_changes w; progress_fraction :=
  progress_fraction w; status_update_time := status_update_time w |}.

Definition set_heap (v : gmap nat pkgdict) (w : world) : world :=
  {| sys := sys w; clock := clock w; str_of_list := str_of_list w; gs := gs w;
  gs_online := gs_online w; heap := v; invoked := invoked w; progress :=
  progress w; divisions := divisions w; log := log w; environ := environ w;
  time_calls := time_calls w; total_packages := total_packages w;
  completed_packages := completed_packages w; group_packages := group_packages
  w; mode_packages := mode_packages w; custom_status_message :=
  custom_status_message w; in_package_changes := in_package_changes w;
  progress_fraction := progress_fraction w; status_update_time :=
  status_update_time w |}.

Definition set_invoked (v : list (list string)) (w : world) : world :=
  {| sys := sys w; clock := clock w; str_of_list := str_of_list w; gs := gs w;
  gs_online := gs_online w; heap := heap w; invoked := v; progress := progress
  w; divisions := divisions w; log := log w; environ := environ w; time_calls
  := time_calls w; total_packages := total_packages w; completed_packages :=
  completed_packages w; group_packages := group_packages w; mode_packages :=
  mode_packages w; custom_status_message := custom_status_message w;
  in_package_changes := in_package_changes w; progress_fraction :=
  progress_fraction w; status_update_time := status_update_time w |}.

Definition set_progress (v : list Q) (w : world) : world :=
  {| sys := sys w; clock := clock w; str_of_list := str_of_list w; gs := gs w;
  gs_online := gs_online w; heap := heap w; invoked := invoked w; progress :=
  v; divisions := divisions w; log := log w; environ := environ w; time_calls
  := time_calls w; total_packages := total_packages w; completed_packages :=
  completed_packages w; group_packages := group_packages w; mode_packages :=
  mode_packages w; custom_status_message := custom_status_message w;
  in_package_changes := in_package_changes w; progress_fraction :=
  progress_fraction w; status_update_time := status_update_time w |}.

Definition set_divisions (v : list (Z * Z)) (w : world) : world :=
  {| sys := sys w; clock := clock w; str_of_list := str_of_list w; gs := gs w;
  gs_online := gs_online w; heap := heap w; invoked := invoked w; progress :=
  progress w; divisions := v; log := log w; environ := environ w; time_calls
  := time_calls w; total_packages := total_packages w; completed_packages :=
  completed_packages w; group_packages := group_packages w; mode_packages :=
  mode_packages w; custom_status_message := custom_status_message w;
  in_package_changes := in_package_changes w; progress_fraction :=
  progress_fraction w; status_update_time := status_update_time w |}.

Definition set_log (v : list event) (w : world) : world :=
  {| sys := sys w; clock := clock w; str_of_list := str_of_list w; gs := gs w;
  gs_online := gs_online w; heap := heap w; invoked := invoked w; progress :=
  progress w; divisions := divisions w; log := v; environ := environ w;
  time_calls := time_calls w; total_packages := total_packages w;
  completed_packages := completed_packages w; group_packages := group_packages
  w; mode_packages := mode_packages w; custom_status_message :=
  custom_status_message w; in_package_changes := in_package_changes w;
  progress_fraction := progress_fraction w; status_update_time :=
  status_update_time w |}.

Definition set_environ (v : list (string * string)) (w : world) : world :=
  {| sys := sys w; clock := clock w; str_of_list := str_of_list w; gs := gs w;
  gs_online := gs_online w; heap := heap w; invoked := invoked w; progress :=
  progress w; divisions := divisions w; log := log w; environ := v; time_calls
  := time_calls w; total_packages := total_packages w; completed_packages :=
  completed_packages w; group_packages := group_packages w; mode_packages :=
  mode_packages w; custom_status_message := custom_status_message w;
  in_package_changes := in_package_changes w; progress_fraction :=
  progress_fraction w; status_update_time := status_update_time w |}.

Definition set_time_calls (v : nat) (w : world) : world :=
  {| sys := sys w; clock := clock w; str_of_list := str_of_list w; gs := gs w;
  gs_online := gs_online w; heap := heap w; invoked := invoked w; progress :=
  progress w; divisions := divisions w; log := log w; environ := environ w;
  time_calls := v; total_packages := total_packages w; completed_packages :=
  completed_packages w; group_packages := group_packages w; mode_packages :=
  mode_packages w; custom_status_message := custom_status_message w;
  in_package_changes := in_package_changes w; progress_fraction :=
  progress_fraction w; status_update_time := status_update_time w |}.

Definition set_total_packages (v : Z) (w : world) : world :=
  {| sys := sys w; clock := clock w; str_of_list := str_of_list w; gs := gs w;
  gs_online := gs_online w; heap := heap w; invoked := invoked w; progress :=
  progress w; divisions := divisions w; log := log w; environ := environ w;
  time_calls := time_calls w; total_packages := v; completed_packages :=
  completed_packages w; group_packages := group_packages w; mode_packages :=
  mode_packages w; custom_status_message := custom_status_message w;
  in_package_changes := in_package_changes w; progress_fraction :=
  progress_fraction w; status_update_time := status_update_time w |}.

Definition set_completed_packages (v : Z) (w : world) : world :=
  {| sys := sys w; clock := clock w; str_of_list := str_of_list w; gs := gs w;
  gs_online := gs_online w; heap := heap w; invoked := invoked w; progress :=
  progress w; divisions := divisions w; log := log w; environ := environ w;
  time_calls := time_calls w; total_packages := total_packages w;
  completed_packages := v; group_packages := group_packages w; mode_packages
  := mode_packages w; custom_status_message := custom_status_message w;
  in_package_changes := in_package_changes w; progress_fraction :=
  progress_fraction w; status_update_time := status_update_time w |}.

Definition set_group_packages (v : Z) (w : world) : world :=
  {| sys := sys w; clock := clock w; str_of_list := str_of_list w; gs := gs w;
  gs_online := gs_online w; heap := heap w; invoked := invoked w; progress :=
  progress w; divisions := divisions w; log := log w; environ := environ w;
  time_calls := time_calls w; total_packages := total_packages w;
  completed_packages := completed_packages w; group_packages := v;
  mode_packages := mode_packages w; custom_status_message :=
  custom_status_message w; in_package_changes := in_package_changes w;
  progress_fraction := progress_fraction w; status_update_time :=
  status_update_time w |}.

Definition set_mode_packages (v : option mode) (w : world) : world :=
  {| sys := sys w; clock := clock w; str_of_list := str_of_list w; gs := gs w;
  gs_online := gs_online w; heap := heap w; invoked := invoked w; progress :=
  progress w; divisions := divisions w; log := log w; environ := environ w;
  time_calls := time_calls w; total_packages := total_packages w;
  completed_packages := completed_packages w; group_packages := group_packages
  w; mode_packages := v; custom_status_message := custom_status_message w;
  in_package_changes := in_package_changes w; progress_fraction :=
  progress_fraction w; status_update_time := status_update_time w |}.

Definition set_custom_status_message (v : option string) (w : world) : world :=
  {| sys := sys w; clock := clock w; str_of_list := str_of_list w; gs := gs w;
  gs_online := gs_online w; heap := heap w; invoked := invoked w; progress :=
  progress w; divisions := divisions w; log := log w; environ := environ w;
  time_calls := time_calls w; total_packages := total_packages w;
  completed_packages := completed_packages w; group_packages := group_packages
  w; mode_packages := mode_packages w; custom_status_message := v;
  in_package_changes := in_package_changes w; progress_fraction :=
  progress_fraction w; status_update_time := status_update_time w |}.

Definition set_in_package_changes (v : bool) (w : world) : world :=
  {| sys := sys w; clock := clock w; str_of_list := str_of_list w; gs := gs w;
  gs_online := gs_online w; heap := heap w; invoked := invoked w; progress :=
  progress w; divisions := divisions w; log := log w; environ := environ w;
  time_calls := time_calls w; total_packages := total_packages w;
  completed_packages := completed_packages w; group_packages := group_packages
  w; mode_packages := mode_packages w; custom_status_message :=
  custom_status_message w; in_package_changes := v; progress_fraction :=
  progress_fraction w; status_update_time := status_update_time w |}.

Definition set_progress_fraction (v : Q) (w : world) : world :=
  {| sys := sys w; clock := clock w; str_of_list := str_of_list w; gs := gs w;
  gs_online := gs_online w; heap := heap w; invoked := invoked w; progress :=
  progress w; divisions := divisions w; log := log w; environ := environ w;
  time_calls := time_calls w; total_packages := total_packages w;
  completed_packages := completed_packages w; group_packages := group_packages
  w; mode_packages := mode_packages w; custom_status_message :=
  custom_status_message w; in_package_changes := in_package_changes w;
  progress_fraction := v; status_update_time := status_update_time w |}.

Definition set_status_update_time (v : Q) (w : world) : world :=
  {| sys := sys w; clock := clock w; str_of_list := str_of_list w; gs := gs w;
  gs_online := gs_online w; heap := heap w; invoked := invoked w; progress :=
  progress w; divisions := divisions w; log := log w; environ := environ w;
  time_calls := time_calls w; total_packages := total_packages w;
  completed_packages := completed_packages w; group_packages := group_packages
  w; mode_packages := mode_packages w; custom_status_message :=
  custom_status_message w; in_package_changes := in_package_changes w;
  progress_fraction := progress_fraction w; status_update_time := v |}.

(** The state in which a job module is loaded: its module-level variables
    have their initial values and nothing has happened yet. *)
Definition initial_world (target : nat → list string → outcome) (time : nat → Q)
    (render : gmap nat pkgdict → list entry → string)
    (g : globalstorage) (h : gmap nat pkgdict) : world :=
  {| sys := target; clock := time; str_of_list := render; gs := g;
     gs_online := false; heap := h; invoked := []; progress := [];
     divisions := []; log := []; environ := []; time_calls := 0;
     total_packages := 0; completed_packages := 0; group_packages := 0;
     mode_packages := None; custom_status_message := None;
     in_package_changes := false; progress_fraction := 0;
     status_update_time := 0 |}.

(** *** The effect monad: state and exceptions *)

Definition M (A : Type) : Type := world → res A * world.

#[global] Instance M_ret : MRet M := λ A a w, (Ok a, w).

#[global] Instance M_bind : MBind M := λ A B f m w,
  match m w with
  | (Ok a, w') => f a w'
  | (Raise e, w') => (Raise e, w')
  | (OutOfFuel, w') => (OutOfFuel, w')
  end.

Definition raise {A} (e : exn) : M A := λ w, (Raise e, w).

Definition out_of_fuel {A} : M A := λ w, (OutOfFuel, w).

Definition get : M world := λ w, (Ok w, w).

Definition modify (f : world → world) : M unit := λ w, (Ok tt, f w).

(** [try: m  except ...: h e]; the handler says which exceptions it takes. *)
Definition try_except {A} (m : M A) (h : exn → option (M A)) : M A := λ w,
  match m w with
  | (Ok a, w') => (Ok a, w')
  | (Raise e, w') =>
      match h e with
      | Some k => k w'
      | None => (Raise e, w')
      end
  | (OutOfFuel, w') => (OutOfFuel, w')
  end.

Fixpoint for_each {A} (l : list A) (body : A → M unit) : M unit :=
  match l with
  | [] => mret tt
  | x :: l' => body x ;; for_each l' body
  end.

Definition warning (text : string) : M unit :=
  modify (λ w, set_log (Warning text :: log w) w).

Definition debug (text : string) : M unit :=
  modify (λ w, set_log (Debug text :: log w) w).

Definition log_event (ev : event) : M unit :=
  modify (λ w, set_log (ev :: log w) w).

(** [libcalamares.job.setprogress] *)
Definition setprogress (q : Q) : M unit :=
  modify (λ w, set_progress (q :: progress w) w).

(** [completed * 1.0 / total] *)
Definition truediv (completed total : Z) : M Q := λ w,
  let w' := set_divisions ((completed, total) :: divisions w) w in
  if (total =? 0)%Z then (Raise ZeroDivisionError, w')
  else (Ok (inject_Z completed / inject_Z total)%Q, w').

(** Run an external command: the oracle is asked with the number of
    commands run so far. *)
Definition spawn (cmd : list string) : M outcome := λ w,
  (Ok (sys w (length (invoked w)) cmd), set_invoked (cmd :: invoked w) w).

(** [libcalamares.utils.target_env_process_output(command, callback)]:
    every output line goes to the callback; a non-zero exit code raises
    [subprocess.CalledProcessError]. *)
Definition target_env_process_output
    (cmd : list string) (callback : option (string → M unit)) : M unit :=
  o ← spawn cmd;
  match callback with
  | Some cb => for_each (out_lines o) cb
  | None => mret tt
  end;;
  if (out_rc o =? 0)%Z then mret tt
  else raise (CalledProcessError cmd (out_rc o)).

(** What [run] returns: [None], or a pair of a title and a message; the
    exception whose command and exit code the message quotes is kept. *)
Inductive job_result :=
| JobNone
| JobError (title message : string) (about : option exn).

(** The three lines every handler of a failed command logs. *)
Definition log_failure (e : exn) : M unit :=
  log_event (WarningExn "" e);;
  log_event (DebugExn "stdout:" e);;
  log_event (DebugExn "stderr:" e).

Definition dq : string := String (ascii_of_N 34) EmptyString.
Definition nl : string := String (ascii_of_N 10) EmptyString.

(** A dictionary object that is read; an address without an object reads
    as the empty dictionary. *)
Definition empty_pkgdict : pkgdict :=
  {| package := None; pre_script := None; post_script := None |}.

Definition deref (h : gmap nat pkgdict) (a : nat) : pkgdict :=
  default empty_pkgdict (h !! a).

(** [[x for x in l]] when every element is a [str]. *)
Fixpoint all_str (l : list entry) : option (list string) :=
  match l with
  | [] => Some []
  | EStr s :: l' => cons s <$> all_str l'
  | EDict _ :: _ => None
  end.

(** [libcalamares.utils.check_target_env_call] *)
Definition check_target_env_call (cmd : list string) : M unit :=
  target_env_process_output cmd None.

End Calamares.

(** ** Code shared by [pacman/main.py] and [paru/main.py]

    Both files define [subst_locale], [_run_script], [_change_mode] and
    [run_operations] with the same text. *)

Module Common.
Import Calamares.

(** [libcalamares.globalstorage.value("locale") or "en"] *)
Definition ambient_locale (g : globalstorage) : string :=
  match gs_locale g with
  | Some l => if Py.truthy l then l else "en"
  | None => "en"
  end.

(** [packagedata if isinstance(packagedata, str) else packagedata.get("package")] *)
Definition packagename_of (h : gmap nat pkgdict) (packagedata : entry) : option string :=
  match packagedata with
  | EStr s => Some s
  | EDict a => h !! a ≫= package
  end.

(** The two branches on the locale; [None] is Python's [None]. *)
Definition resolve_name (locale packagename : string) : option string :=
  if negb (String.eqb locale "en") then Some (Py.safe_substitute locale packagename)
  else if Py.contains "LOCALE" packagename then None
  else Some packagename.

(** The loop of [subst_locale]: a string entry is replaced by its resolved
    name in the result, a dictionary entry is updated in place and the same
    object is put in the result. *)
Fixpoint subst_locale_loop (locale : string) (h : gmap nat pkgdict) (plist : list entry)
    : gmap nat pkgdict * list entry :=
  match plist with
  | [] => (h, [])
  | packagedata :: rest =>
      match packagename_of h packagedata ≫= resolve_name locale with
      | None => subst_locale_loop locale h rest
      | Some packagename =>
          match packagedata with
          | EStr _ =>
              let '(h', ret) := subst_locale_loop locale h rest in
              (h', EStr packagename :: ret)
          | EDict a =>
              let '(h', ret) :=
                subst_locale_loop locale (alter (set_package packagename) a h) rest in
              (h', EDict a :: ret)
          end
      end
  end.

Definition subst_locale (plist : pyval) : M (list entry) := λ w,
  let '(h, ret) := subst_locale_loop (ambient_locale (gs w)) (heap w) (py_iter plist) in
  (Ok ret, set_heap h w).

Definition _run_script (script : string) : M unit :=
  if Py.truthy script then check_target_env_call (Py.split_space script)
  else mret tt.

(** [if total_packages > 0: setprogress(completed_packages * 1.0 / total_packages)] *)
Definition push_fraction : M unit :=
  w ← get;
  if (0 <? total_packages w)%Z then
    q ← truediv (completed_packages w) (total_packages w);
    setprogress q
  else mret tt.

Definition _change_mode (m : option mode) : M unit :=
  modify (set_mode_packages m);;
  push_fraction.

(** The methods of a package manager object that [run_operations] calls. *)
Class PackageManager := {
  operation_install : list entry → bool → M unit;
  operation_try_install : list entry → M unit;
  operation_remove : list entry → M unit;
  operation_try_remove : list entry → M unit
}.

(** The body of the loop over the keys of one operation. *)
Definition run_operation_key (pkgman : PackageManager) (key : string) (value : pyval) : M unit :=
  package_list ← subst_locale value;
  modify (set_group_packages (Z.of_nat (length package_list)));;
  (if String.eqb key "install" then
     _change_mode (Some INSTALL);; operation_install package_list false
   else if String.eqb key "try_install" then
     _change_mode (Some INSTALL);; operation_try_install package_list
   else if String.eqb key "remove" then
     _change_mode (Some REMOVE);; operation_remove package_list
   else if String.eqb key "try_remove" then
     _change_mode (Some REMOVE);; operation_try_remove package_list
   else if String.eqb key "localInstall" then
     _change_mode (Some INSTALL);; operation_install package_list true
   else if String.eqb key "source" then
     log_event (DebugValue "Package-list from " value)
   else
     warning ("Unknown package-operation key " ++ key));;
  modify (λ w, set_completed_packages
                 (completed_packages w + Z.of_nat (length package_list)) w);;
  push_fraction.

Definition run_operations (pkgman : PackageManager) (entry : operation) : M unit :=
  for_each entry (λ kv, run_operation_key pkgman kv.1 kv.2);;
  modify (set_group_packages 0);;
  _change_mode None.

(** [str(entry.get("source", "")).lower()] *)
Definition py_str (w : world) (v : pyval) : string :=
  match v with
  | PStr s => s
  | PList l => str_of_list w (heap w) l
  end.

Definition source_tag (w : world) (entry : operation) : string :=
  Py.lower (py_str w (default (PStr "") (dict_get entry "source"))).

(** [operations = config.get("operations", [])], extended by the list in
    global storage when there is one. *)
Definition configured_operations (w : world) (ops : option (list operation))
    : list operation :=
  default [] ops ++ default [] (gs_packageOperations (gs w)).

(** [run] in two parts: everything up to the point where the operations and
    the total are known either decides what [run] returns (an early
    [return]) or hands over what the second part needs. *)
Definition unless_returned {X} (step : M (option job_result)) (k : M (job_result + X))
    : M (job_result + X) :=
  r ← step;
  match r with
  | Some result => mret (inl result)
  | None => k
  end.

End Common.

(** ** [pkgcheck.py] *)

Module Pkgcheck.
Import Calamares.

(** [_target_env_capture_lines]: the callback collects the lines; the
    result keeps the non-empty ones without their trailing newlines. *)
Definition _target_env_capture_lines (command : list string) : M (list string) :=
  o ← spawn command;
  if (out_rc o =? 0)%Z then
    mret (Py.rstrip_nl <$> filter (λ l, Py.truthy l = true) (out_lines o))
  else raise (CalledProcessError command (out_rc o)).

Definition build_repo_index : M (gset string * gset string) :=
  pkgs ← _target_env_capture_lines ["pacman"; "-Slq"];
  groups ← _target_env_capture_lines ["pacman"; "-Sgq"];
  log_event (DebugCount "pacman repo index"
               (size (list_to_set pkgs : gset string))
               (size (list_to_set groups : gset string)));;
  mret (list_to_set pkgs, list_to_set groups).

Definition _pkg_name_of := Common.packagename_of.

(** [not name]: [None] or the empty string. *)
Definition name_missing (name : option string) : bool :=
  match name with
  | Some n => negb (Py.truthy n)
  | None => true
  end.

Fixpoint filter_operation_list (action_key : string) (items : list entry)
    (repo_pkgs repo_groups : gset string) : M (list entry) :=
  match items with
  | [] => mret []
  | item :: rest =>
      w ← get;
      let name := _pkg_name_of (heap w) item in
      if name_missing name then
        log_event (WarningEntry (action_key ++ ": empty package entry ignored: ") item);;
        filter_operation_list action_key rest repo_pkgs repo_groups
      else if bool_decide (default "" name ∈ repo_pkgs ∨ default "" name ∈ repo_groups) then
        kept ← filter_operation_list action_key rest repo_pkgs repo_groups;
        mret (item :: kept)
      else
        warning (action_key ++ ": dropping missing package/group: " ++ default "" name);;
        log_event (DebugEntry (action_key ++ ": dropped entry: ") item);;
        filter_operation_list action_key rest repo_pkgs repo_groups
  end.

Definition filter_keys : list string := ["install"; "try_install"; "remove"; "try_remove"].

Definition is_filter_key (key : string) : bool :=
  existsb (String.eqb key) filter_keys.

(** The loop over [op.items()], building [new_op] and adding to [total]. *)
Fixpoint preprocess_items (subst_locale_fn : pyval → M (list entry))
    (repo_pkgs repo_groups : gset string)
    (items : list (string * pyval)) (new_op : operation) (total : Z)
    : M (operation * Z) :=
  match items with
  | [] => mret (new_op, total)
  | (key, raw_list) :: rest =>
      localized ← subst_locale_fn raw_list;
      if is_filter_key key then
        filtered ← filter_operation_list key localized repo_pkgs repo_groups;
        preprocess_items subst_locale_fn repo_pkgs repo_groups rest
          (dict_set new_op key (PList filtered))
          (total + Z.of_nat (length filtered))
      else if String.eqb key "localInstall" then
        preprocess_items subst_locale_fn repo_pkgs repo_groups rest
          (dict_set new_op key (PList localized))
          (total + Z.of_nat (length localized))
      else
        preprocess_items subst_locale_fn repo_pkgs repo_groups rest
          (dict_set new_op key (PList localized)) total
  end.

(** [any(isinstance(v, list) and len(v) for v in new_op.values())] *)
Definition any_nonempty_list (new_op : operation) : bool :=
  existsb (λ kv, match kv.2 with
                 | PList (_ :: _) => true
                 | _ => false
                 end) new_op.

Fixpoint preprocess_loop (subst_locale_fn : pyval → M (list entry))
    (repo_pkgs repo_groups : gset string)
    (operations : list operation) (new_ops : list operation) (total : Z)
    : M (list operation * Z) :=
  match operations with
  | [] => mret (new_ops, total)
  | op :: rest =>
      '(new_op, total') ← preprocess_items subst_locale_fn repo_pkgs repo_groups op [] total;
      preprocess_loop subst_locale_fn repo_pkgs repo_groups rest
        (if any_nonempty_list new_op then new_ops ++ [new_op] else new_ops) total'
  end.

Definition preprocess_operations (operations : list operation)
    (subst_locale_fn : pyval → M (list entry))
    (repo_pkgs repo_groups : gset string) : M (list operation * Z) :=
  preprocess_loop subst_locale_fn repo_pkgs repo_groups operations [] 0.

End Pkgcheck.

(** ** [pacman/main.py] *)

Module Pacman.
Import Calamares Common.

Record pacman_section := PacmanSection {
  num_retries : option Z;
  disable_download_timeout : option bool;
  needed_only : option bool
}.

(** [libcalamares.job.configuration]; an absent key is [None]. *)
Record configuration := Configuration {
  cfg_backend : option string;
  cfg_skip_if_no_internet : option bool;
  cfg_update_db : option bool;
  cfg_update_system : option bool;
  cfg_operations : option (list operation);
  cfg_pacman : option pacman_section
}.

(** The fields of a [PacmanManager] that stay fixed after [__init__]. *)
Record PacmanManager := {
  pacman_num_retries : Z;
  pacman_disable_timeout : bool;
  pacman_needed_only : bool
}.

Definition init (cfg : configuration) : M PacmanManager :=
  let pacman_cfg := default (PacmanSection None None None) (cfg_pacman cfg) in
  modify (set_in_package_changes false);;
  modify (set_progress_fraction 0%Q);;
  mret {| pacman_num_retries := default 0%Z (num_retries pacman_cfg);
          pacman_disable_timeout := default false (disable_download_timeout pacman_cfg);
          pacman_needed_only := default false (needed_only pacman_cfg) |}.

Definition line_cb (line : string) : M unit :=
  (if Py.startswith line ":: " then
     modify (set_in_package_changes
               (Py.contains "package" line || Py.contains "hooks" line))
   else
     w ← get;
     if in_package_changes w && Py.endswith line ("..." ++ nl) then
       modify (set_custom_status_message (Some ("pacman: " ++ Py.strip line)));;
       setprogress (progress_fraction w)
     else mret tt);;
  debug (Py.strip line).

Definition reset_progress : M unit :=
  modify (set_in_package_changes false);;
  w ← get;
  if (0 <? total_packages w)%Z then
    q ← truediv (completed_packages w) (total_packages w);
    modify (set_progress_fraction q)
  else modify (set_progress_fraction 0%Q).

(** The [while] loop of [run_pacman]. *)
Fixpoint run_pacman_loop (fuel : nat) (self : PacmanManager)
    (command : list string) (callback : bool) (pacman_count : Z) : M unit :=
  match fuel with
  | O => out_of_fuel
  | S fuel' =>
      if (pacman_count <=? pacman_num_retries self)%Z then
        let pacman_count := (pacman_count + 1)%Z in
        try_except
          (target_env_process_output command (if callback then Some line_cb else None))
          (λ e, match e with
                | CalledProcessError _ _ =>
                    Some (if (pacman_count <=? pacman_num_retries self)%Z
                          then run_pacman_loop fuel' self command callback pacman_count
                          else raise e)
                | _ => None
                end)
      else mret tt
  end.

(** The loop runs its body at most [pacman_num_retries + 1] times. *)
Definition run_pacman (self : PacmanManager) (command : list string) (callback : bool)
    : M unit :=
  run_pacman_loop (S (Z.to_nat (pacman_num_retries self + 1))) self command callback 0.

Definition update_db (self : PacmanManager) : M unit :=
  run_pacman self ["pacman"; "-Sy"] false.

Definition update_system_cmd (self : PacmanManager) : list string :=
  ["pacman"; "-Su"; "--noconfirm"]
    ++ (if pacman_disable_timeout self then ["--disable-download-timeout"] else []).

Definition update_system (self : PacmanManager) : M unit :=
  run_pacman self (update_system_cmd self) false.

Definition install_cmd (self : PacmanManager) (pkgs : list string) (from_local : bool)
    : list string :=
  ["pacman"; if from_local then "-U" else "-S"; "--noconfirm"; "--noprogressbar"]
    ++ (if pacman_needed_only self then ["--needed"] else [])
    ++ (if pacman_disable_timeout self then ["--disable-download-timeout"] else [])
    ++ pkgs.

Definition install (self : PacmanManager) (pkgs : list string) (from_local : bool) : M unit :=
  reset_progress;;
  run_pacman self (install_cmd self pkgs from_local) true.

Definition remove (self : PacmanManager) (pkgs : list string) : M unit :=
  reset_progress;;
  run_pacman self (["pacman"; "-Rs"; "--noconfirm"] ++ pkgs) true.

(** [packagedata["package"]] *)
Definition package_item (d : pkgdict) : M string :=
  match package d with
  | Some n => mret n
  | None => raise (KeyError "package")
  end.

Definition install_package (self : PacmanManager) (packagedata : entry) (from_local : bool)
    : M unit :=
  match packagedata with
  | EStr s => install self [s] from_local
  | EDict a =>
      w ← get;
      _run_script (default "" (pre_script (deref (heap w) a)));;
      w ← get;
      n ← package_item (deref (heap w) a);
      install self [n] from_local;;
      w ← get;
      _run_script (default "" (post_script (deref (heap w) a)))
  end.

Definition remove_package (self : PacmanManager) (packagedata : entry) : M unit :=
  match packagedata with
  | EStr s => remove self [s]
  | EDict a =>
      w ← get;
      _run_script (default "" (pre_script (deref (heap w) a)));;
      w ← get;
      n ← package_item (deref (heap w) a);
      remove self [n];;
      w ← get;
      _run_script (default "" (post_script (deref (heap w) a)))
  end.

Definition only_called_process_error {A} (k : exn → M A) (e : exn) : option (M A) :=
  match e with
  | CalledProcessError _ _ => Some (k e)
  | _ => None
  end.

Definition pacman_operation_install (self : PacmanManager) (package_list : list entry)
    (from_local : bool) : M unit :=
  match all_str package_list with
  | Some names => install self names from_local
  | None => for_each package_list (λ p, install_package self p from_local)
  end.

Definition pacman_operation_try_install (self : PacmanManager) (package_list : list entry)
    : M unit :=
  for_each package_list (λ p,
    try_except (install_package self p false)
      (only_called_process_error
         (λ _, log_event (WarningEntry "Could not install package " p)))).

Definition pacman_operation_remove (self : PacmanManager) (package_list : list entry)
    : M unit :=
  match all_str package_list with
  | Some names => remove self names
  | None => for_each package_list (remove_package self)
  end.

Definition pacman_operation_try_remove (self : PacmanManager) (package_list : list entry)
    : M unit :=
  for_each package_list (λ p,
    try_except (remove_package self p)
      (only_called_process_error
         (λ _, log_event (WarningEntry "Could not remove package " p)))).

#[global] Instance manager (self : PacmanManager) : PackageManager := {|
  operation_install := pacman_operation_install self;
  operation_try_install := pacman_operation_try_install self;
  operation_remove := pacman_operation_remove self;
  operation_try_remove := pacman_operation_try_remove self
|}.

(** The loop that filters out the operations of other sources. *)
Fixpoint filter_sources (w : world) (operations : list operation) : list operation :=
  match operations with
  | [] => []
  | entry :: rest =>
      let src := source_tag w entry in
      if Py.contains "paru" src || Py.contains "flatpak" src
      then filter_sources w rest
      else entry :: filter_sources w rest
  end.

Definition command_failed (message : string) (e : exn) : M (option job_result) :=
  log_failure e;;
  mret (Some (JobError "Package Manager error" message (Some e))).

(** The loop over the filtered operations; [Some] is an early [return]. *)
Fixpoint run_entries (pkgman : PacmanManager) (operations : list operation)
    : M (option job_result) :=
  match operations with
  | [] => mret None
  | entry :: rest =>
      modify (set_group_packages 0);;
      debug "Install packages.";;
      r ← try_except (run_operations (manager pkgman) entry;; mret None)
            (only_called_process_error
               (command_failed "The package manager could not make changes to the installed system. The command <pre>{!s}</pre> returned error code {!s}."));
      match r with
      | Some result => mret (Some result)
      | None => run_entries pkgman rest
      end
  end.

(** [run] up to and including preprocessing. *)
Definition prepare (cfg : configuration)
    : M (job_result + PacmanManager * list operation * Z) :=
  let backend := default "pacman" (cfg_backend cfg) in
  if negb (String.eqb backend "pacman") then
    mret (inl (JobError "Bad backend"
                 ("backend=" ++ dq ++ backend ++ dq ++ " (pacman-only module)") None))
  else
  w ← get;
  if default false (cfg_skip_if_no_internet cfg) && negb (gs_hasInternet (gs w)) then
    warning "Package installation has been skipped: no internet";;
    mret (inl JobNone)
  else
  pkgman ← init cfg;
  unless_returned
    (if default false (cfg_update_db cfg) && gs_hasInternet (gs w) then
       try_except (update_db pkgman;; mret None)
         (only_called_process_error
            (command_failed ("The package manager could not make changes to the installed system." ++ nl ++ "Command: <pre>{!s}</pre>" ++ nl ++ "Exit code: {!s}" ++ nl)))
     else mret None)
  (unless_returned
    (if default false (cfg_update_system cfg) && gs_hasInternet (gs w) then
       try_except (update_system pkgman;; mret None)
         (only_called_process_error
            (command_failed "The package manager could not update the system. The command <pre>{!s}</pre> returned error code {!s}."))
     else mret None)
  (w ← get;
   let operations := filter_sources w (configured_operations w (cfg_operations cfg)) in
   try_except
     ('(repo_pkgs, repo_groups) ← Pkgcheck.build_repo_index;
      '(operations, filtered_total) ←
        Pkgcheck.preprocess_operations operations subst_locale repo_pkgs repo_groups;
      mret (inr (pkgman, operations, filtered_total)))
     (only_called_process_error (λ e,
        log_failure e;;
        mret (inl (JobError "Repository metadata query failed"
                     "The package manager could not query repository metadata. The command <pre>{!s}</pre> returned error code {!s}."
                     (Some e))))))).

(** [run] from the assignment of the module variables on. *)
Definition dispatch (pkgman : PacmanManager) (operations : list operation)
    (filtered_total : Z) : M job_result :=
  modify (set_mode_packages None);;
  modify (set_total_packages filtered_total);;
  modify (set_completed_packages 0);;
  modify (set_group_packages 0);;
  modify (set_custom_status_message None);;
  if (filtered_total =? 0)%Z then mret JobNone
  else
    r ← run_entries pkgman operations;
    match r with
    | Some result => mret result
    | None =>
        modify (set_mode_packages None);;
        setprogress 1%Q;;
        mret JobNone
    end.

Definition run (cfg : configuration) : M job_result :=
  r ← prepare cfg;
  match r with
  | inl result => mret result
  | inr (pkgman, operations, filtered_total) => dispatch pkgman operations filtered_total
  end.

End Pacman.


(** ** [paru/main.py] *)

Module Paru.
Import Calamares Common.

Record paru_section := ParuSection {
  num_retries : option Z;
  disable_download_timeout : option bool;
  needed_only : option bool;
  timeout : option Z
}.

(** [libcalamares.job.configuration], and what [shutil.which("pacman")]
    finds on the host. *)
Record configuration := Configuration {
  cfg_backend : option string;
  cfg_skip_if_no_internet : option bool;
  cfg_update_db : option bool;
  cfg_update_system : option bool;
  cfg_operations : option (list operation);
  cfg_paru : option paru_section;
  which_pacman : option string
}.

Record ParuManager := {
  paru_num_retries : Z;
  paru_disable_timeout : bool;
  paru_needed_only : bool;
  paru_timeout : Z
}.

Definition ignore_called_process_error (message : string) (m : M unit) : M unit :=
  try_except m
    (λ e, match e with
          | CalledProcessError _ _ => Some (warning message)
          | _ => None
          end).

Definition init (cfg : configuration) : M ParuManager :=
  let paru_cfg := default (ParuSection None None None None) (cfg_paru cfg) in
  modify (set_in_package_changes false);;
  modify (set_progress_fraction 0%Q);;
  let pacman_path :=
    match which_pacman cfg with
    | Some path => if Py.truthy path then path else "/usr/bin/pacman"
    | None => "/usr/bin/pacman"
    end in
  let sudoers_line := "nobody ALL=(ALL) NOPASSWD: " ++ pacman_path in
  ignore_called_process_error "Failed to create sudoers entry for paru (ignored)."
    (target_env_process_output
       ["sh"; "-c";
        "printf %s " ++ Py.repr_plain sudoers_line
          ++ " > /etc/sudoers.d/calamares-paru && chmod 440 /etc/sudoers.d/calamares-paru"]
       None);;
  ignore_called_process_error "Failed to prepare /var/cache/paru_cache (ignored)."
    (target_env_process_output
       ["sh"; "-c";
        "mkdir -p /var/cache/paru_cache && chown nobody:nobody /var/cache/paru_cache"]
       None);;
  ignore_called_process_error "Failed to set account expiry for nobody (ignored)."
    (target_env_process_output ["sh"; "-c"; "chage -E -1 nobody"] None);;
  mret {| paru_num_retries := default 0%Z (num_retries paru_cfg);
          paru_disable_timeout := default false (disable_download_timeout paru_cfg);
          paru_needed_only := default false (needed_only paru_cfg);
          paru_timeout := default 0%Z (timeout paru_cfg) |}.

Definition line_cb (line : string) : M unit :=
  (if Py.startswith line ":: " then
     modify (set_in_package_changes
               (Py.contains "package" line || Py.contains "hooks" line))
   else
     w ← get;
     if in_package_changes w && Py.endswith line ("..." ++ nl) then
       modify (set_custom_status_message (Some ("paru: " ++ Py.strip line)));;
       setprogress (progress_fraction w)
     else mret tt);;
  debug (Py.strip line).

Definition reset_progress : M unit :=
  modify (set_in_package_changes false);;
  w ← get;
  if (0 <? total_packages w)%Z then
    q ← truediv (completed_packages w) (total_packages w);
    modify (set_progress_fraction q)
  else modify (set_progress_fraction 0%Q).

Definition _set_build_env : M unit :=
  modify (λ w, set_environ (("XDG_DATA_HOME", "/var/cache/paru_cache")
                            :: ("XDG_CACHE_HOME", "/var/cache/paru_cache")
                            :: ("PWD", "/var/cache/paru_cache") :: environ w) w).

Definition sudo_paru : list string := ["sudo"; "-E"; "-u"; "nobody"; "paru"].

(** How one pass through the body of the [while] loop ends: with
    [return True], or at a [continue] or [break] with [last_exc] set. *)
Inductive attempt :=
| Returned
| Failed (last_exc : exn).

(** The call that runs on the worker thread, as the waiting caller sees it
    when [join] comes back: the thread is still alive, or it has finished
    and left its exception, if any, in [result_container]. *)
Definition threaded_call (command : list string) (callback : bool)
    : M (bool * option exn) :=
  o ← spawn command;
  exc ← try_except
          ((if callback then for_each (out_lines o) line_cb else mret tt);;
           if (out_rc o =? 0)%Z then mret None
           else raise (CalledProcessError command (out_rc o)))
          (λ e, Some (mret (Some e)));
  mret (out_slow o, exc).

Definition one_attempt (self : ParuManager) (command : list string) (callback : bool)
    : M attempt :=
  try_except
    (if (paru_timeout self =? 0)%Z then
       target_env_process_output command (if callback then Some line_cb else None);;
       mret Returned
     else
       th ← threaded_call command callback;
       if (th.1 : bool) then
         warning "paru command timed out after {!s}s (attempting to terminate, ignored).";;
         try_except
           (target_env_process_output
              ["sudo"; "-E"; "-u"; "nobody"; "pkill"; "-f"; "paru"] None)
           (λ _, Some (mret tt));;
         mret (Failed (CalledProcessError command 124))
       else
         match th.2 with
         | None => mret Returned
         | Some e => mret (Failed e)
         end)
    (λ e, match e with
          | CalledProcessError _ _ => Some (mret (Failed e))
          | _ => None
          end).

(** After the loop: log, and [return False]. *)
Definition exhausted (command : list string) (last_exc : option exn) : M bool :=
  match last_exc with
  | Some e =>
      log_event (WarningExn "paru command failed (ignored): " e);;
      log_event (DebugExn "stdout:" e);;
      log_event (DebugExn "stderr:" e)
  | None =>
      log_event (WarningCommand "paru command failed (ignored): " command)
  end;;
  mret false.

Fixpoint run_paru_loop (fuel : nat) (self : ParuManager)
    (command : list string) (callback : bool) (attempts : Z) (last_exc : option exn)
    : M bool :=
  match fuel with
  | O => out_of_fuel
  | S fuel' =>
      if (attempts <=? paru_num_retries self)%Z then
        let attempts := (attempts + 1)%Z in
        a ← one_attempt self command callback;
        match a with
        | Returned => mret true
        | Failed e =>
            if (attempts <=? paru_num_retries self)%Z
            then run_paru_loop fuel' self command callback attempts (Some e)
            else exhausted command (Some e)
        end
      else exhausted command last_exc
  end.

Definition run_paru (self : ParuManager) (command : list string) (callback : bool)
    : M bool :=
  _set_build_env;;
  run_paru_loop (S (Z.to_nat (paru_num_retries self + 1))) self command callback 0 None.

Definition install_cmd (self : ParuManager) (pkgs : list string) (from_local : bool)
    : list string :=
  sudo_paru ++ [if from_local then "-U" else "-S"; "--noconfirm"; "--noprogressbar"]
    ++ (if paru_needed_only self then ["--needed"] else [])
    ++ (if paru_disable_timeout self then ["--disable-download-timeout"] else [])
    ++ pkgs.

Definition install (self : ParuManager) (pkgs : list string) (from_local : bool) : M unit :=
  reset_progress;;
  run_paru self (install_cmd self pkgs from_local) true;;
  mret tt.

Definition remove (self : ParuManager) (pkgs : list string) : M unit :=
  reset_progress;;
  run_paru self (sudo_paru ++ ["-Rs"; "--noconfirm"] ++ pkgs) true;;
  mret tt.

Definition update_db (self : ParuManager) : M unit :=
  run_paru self (sudo_paru ++ ["-Sy"]) false;;
  mret tt.

Definition update_system (self : ParuManager) : M unit :=
  run_paru self
    (sudo_paru ++ ["-Su"; "--noconfirm"]
       ++ (if paru_disable_timeout self then ["--disable-download-timeout"] else []))
    false;;
  mret tt.

Definition package_item (d : pkgdict) : M string :=
  match package d with
  | Some n => mret n
  | None => raise (KeyError "package")
  end.

(** [except Exception as e: warning(...)] *)
Definition ignore_exception (message : string) (m : M unit) : M unit :=
  try_except m (λ e, Some (log_event (WarningExn message e))).

Definition install_package (self : ParuManager) (packagedata : entry) (from_local : bool)
    : M unit :=
  ignore_exception "paru: install_package failed (ignored): "
    match packagedata with
    | EStr s => install self [s] from_local
    | EDict a =>
        w ← get;
        _run_script (default "" (pre_script (deref (heap w) a)));;
        w ← get;
        n ← package_item (deref (heap w) a);
        install self [n] from_local;;
        w ← get;
        _run_script (default "" (post_script (deref (heap w) a)))
    end.

Definition remove_package (self : ParuManager) (packagedata : entry) : M unit :=
  ignore_exception "paru: remove_package failed (ignored): "
    match packagedata with
    | EStr s => remove self [s]
    | EDict a =>
        w ← get;
        _run_script (default "" (pre_script (deref (heap w) a)));;
        w ← get;
        n ← package_item (deref (heap w) a);
        remove self [n];;
        w ← get;
        _run_script (default "" (post_script (deref (heap w) a)))
    end.

#[global] Instance manager (self : ParuManager) : PackageManager := {|
  operation_install package_list from_local :=
    for_each package_list (λ p, install_package self p from_local);
  operation_try_install package_list :=
    for_each package_list (λ p, install_package self p false);
  operation_remove package_list :=
    for_each package_list (remove_package self);
  operation_try_remove package_list :=
    for_each package_list (remove_package self)
|}.

(** The loop that keeps the operations of this source only. *)
Fixpoint filter_sources (w : world) (operations : list operation) : list operation :=
  match operations with
  | [] => []
  | entry :: rest =>
      let src := source_tag w entry in
      if Py.contains "paru" src
      then entry :: filter_sources w rest
      else filter_sources w rest
  end.

(** [for op in operations: for packagelist in op.values():
     total_packages += len(subst_locale(packagelist))] *)
Definition count_operation (op : operation) : M unit :=
  for_each op (λ kv,
    package_list ← subst_locale kv.2;
    modify (λ w, set_total_packages
                   (total_packages w + Z.of_nat (length package_list)) w)).

Definition run_entries (pkgman : ParuManager) (operations : list operation) : M unit :=
  for_each operations (λ entry,
    modify (set_group_packages 0);;
    debug "Install packages.";;
    ignore_exception "paru: operation failed (ignored): "
      (run_operations (manager pkgman) entry)).

(** [run] up to the point where the total is known. *)
Definition prepare (cfg : configuration) : M (job_result + ParuManager * list operation) :=
  let backend := default "paru" (cfg_backend cfg) in
  if negb (String.eqb backend "paru") then
    mret (inl (JobError "Bad backend"
                 ("backend=" ++ dq ++ backend ++ dq ++ " (paru-only module)") None))
  else
  w ← get;
  if default false (cfg_skip_if_no_internet cfg) && negb (gs_hasInternet (gs w)) then
    warning "Paru package installation skipped: no internet";;
    mret (inl JobNone)
  else
  pkgman ← init cfg;
  (if default false (cfg_update_db cfg) && gs_hasInternet (gs w)
   then update_db pkgman else mret tt);;
  (if default false (cfg_update_system cfg) && gs_hasInternet (gs w)
   then update_system pkgman else mret tt);;
  w ← get;
  let operations := filter_sources w (configured_operations w (cfg_operations cfg)) in
  modify (set_mode_packages None);;
  modify (set_total_packages 0);;
  modify (set_completed_packages 0);;
  modify (set_group_packages 0);;
  modify (set_custom_status_message None);;
  for_each operations count_operation;;
  mret (inr (pkgman, operations)).

(** [run] from the test of the total on. *)
Definition dispatch (pkgman : ParuManager) (operations : list operation) : M job_result :=
  w ← get;
  if (total_packages w =? 0)%Z then mret JobNone
  else
    run_entries pkgman operations;;
    modify (set_mode_packages None);;
    setprogress 1%Q;;
    mret JobNone.

Definition run (cfg : configuration) : M job_result :=
  r ← prepare cfg;
  match r with
  | inl result => mret result
  | inr (pkgman, operations) => dispatch pkgman operations
  end.

End Paru.

(** ** [pacstrap/main.py] *)

Module Pacstrap.
Import Calamares.

(** [libcalamares.job.configuration]; the object is false when it has no
    key at all. *)
Record configuration := Configuration {
  basePackages : option pyval;
  postInstallFiles : option (list string);
  sync_db : option bool
}.

Definition configuration_truthy (cfg : configuration) : bool :=
  bool_decide (is_Some (basePackages cfg))
  || bool_decide (is_Some (postInstallFiles cfg))
  || bool_decide (is_Some (sync_db cfg)).

(** The host file system as the module sees it: [os.path.exists], the
    output of [findmnt] for a mount point ([None] when the call raises), and
    whether copying a file succeeds. *)
Record host := Host {
  path_exists : string → bool;
  findmnt_fstype : string → option string;
  copy_succeeds : string → bool
}.

(** [time.time()] *)
Definition time : M Q := λ w,
  (Ok (clock w (time_calls w)), set_time_calls (S (time_calls w)) w).

Definition line_cb (line : string) : M unit :=
  modify (set_custom_status_message (Some (Py.strip line)));;
  debug ("pacstrap: " ++ Py.strip line);;
  t ← time;
  w ← get;
  if negb (Qle_bool (t - status_update_time w) (1 # 2)) then
    setprogress 0%Q;;
    t' ← time;
    modify (set_status_update_time t')
  else mret tt.

Definition run_in_host (command : list string) (line_func : string → M unit) : M unit :=
  o ← spawn command;
  for_each (out_lines o)
    (λ line, if Py.truthy (Py.strip line) then line_func line else mret tt);;
  if (out_rc o =? 0)%Z then mret tt
  else raise (PacmanError command (out_rc o)).

Definition _host_capture_lines (command : list string) : M (list string) :=
  o ← spawn command;
  let lines := Py.rstrip_nl <$> filter (λ l, Py.truthy l = true) (out_lines o) in
  if (out_rc o =? 0)%Z then mret (filter (λ l, Py.truthy l = true) lines)
  else raise (PacmanError command (out_rc o)).

Definition _has_internet : M bool :=
  w ← get;
  mret (gs_hasInternet (gs w) || gs_online w).

Definition _maybe_sync_db_host (cfg : configuration) : M unit :=
  if negb (default true (sync_db cfg)) then
    debug "sync_db disabled; skipping pacman -Sy."
  else
    online ← _has_internet;
    if negb online then
      warning "No internet detected; skipping pacman -Sy before pkgcheck."
    else
      debug "Syncing pacman database before pkgcheck (pacman -Sy)...";;
      run_in_host ["pacman"; "-Sy"; "--noconfirm"] line_cb.

Definition _build_repo_index_host : M (gset string * gset string) :=
  pkgs ← _host_capture_lines ["pacman"; "-Slq"];
  groups ← _host_capture_lines ["pacman"; "-Sgq"];
  log_event (DebugCount "[host] pacman repo index"
               (size (list_to_set pkgs : gset string))
               (size (list_to_set groups : gset string)));;
  mret (list_to_set pkgs, list_to_set groups).

(** The packages added for the boot loader and the root file system. *)
Definition extra_packages (bootloader curr_filesystem : string) : list string :=
  let is_root_on_zfs := String.eqb curr_filesystem "zfs" in
  let is_root_on_btrfs := String.eqb curr_filesystem "btrfs" in
  (if String.eqb bootloader "grub" then ["grub"; "catos-grub-theme-dark"; "os-prober"]
   else if String.eqb bootloader "limine" then ["limine"]
   else if String.eqb bootloader "refind" then ["refind"]
   else if String.eqb bootloader "systemd-boot" then ["catos-systemd-boot-config"]
   else [])
  ++ (if is_root_on_zfs then
        ["zfs-utils"; "zfs-dkms"; "libunwind"; "linux-lts"; "linux-lts-headers"]
      else if is_root_on_btrfs then
        if String.eqb bootloader "limine" then ["snapper"; "btrfs-assistant"]
        else if String.eqb bootloader "grub" then ["snapper"; "btrfs-assistant"; "grub-btrfs"]
        else if String.eqb bootloader "refind" then ["snapper"; "btrfs-assistant"]
        else []
      else [])
  ++ (if negb is_root_on_zfs then ["linux"; "linux-headers"] else []).

Definition augment (hst : host) (root_mount_point : string) (base_packages : list entry)
    : M (list entry) :=
  w ← get;
  match gs_bootloader (gs w) with
  | Some bootloader =>
      if Py.truthy bootloader then
        debug ("Current bootloader: " ++ bootloader);;
        let curr_filesystem :=
          match findmnt_fstype hst root_mount_point with
          | Some out => Py.strip out
          | None => ""
          end in
        (if String.eqb curr_filesystem "btrfs" then debug "Root on BTRFS" else mret tt);;
        mret (base_packages ++ (EStr <$> extra_packages bootloader curr_filesystem))%list
      else
        warning "Failed to determine bootloader type; continuing without bootloader-specific packages";;
        mret base_packages
  | None =>
      warning "Failed to determine bootloader type; continuing without bootloader-specific packages";;
      mret base_packages
  end.

Definition copy_files (hst : host) (root_mount_point : string) (files : list string)
    : M unit :=
  for_each files (λ source_file,
    if path_exists hst source_file then
      debug ("Copying file " ++ source_file);;
      if copy_succeeds hst source_file then mret tt
      else warning ("Failed to copy file " ++ source_file)
    else mret tt).

Definition finish : M job_result :=
  modify (set_gs_online true);;
  setprogress 1%Q;;
  mret JobNone.

(** [run] up to and including the filtering of the base packages. *)
Definition prepare (hst : host) (cfg : configuration)
    : M (job_result + string * list entry) :=
  w ← get;
  match gs_rootMountPoint (gs w) with
  | None =>
      mret (inl (JobError "No mount point for root partition in globalstorage"
                   ("globalstorage does not contain a " ++ dq ++ "rootMountPoint" ++ dq
                      ++ " key, doing nothing") None))
  | Some root_mount_point =>
  if negb (Py.truthy root_mount_point) then
    mret (inl (JobError "No mount point for root partition in globalstorage"
                 ("globalstorage does not contain a " ++ dq ++ "rootMountPoint" ++ dq
                    ++ " key, doing nothing") None))
  else if negb (path_exists hst root_mount_point) then
    mret (inl (JobError "Bad mount point for root partition in globalstorage"
                 ("globalstorage[" ++ dq ++ "rootMountPoint" ++ dq ++ "] is " ++ dq
                    ++ root_mount_point ++ dq
                    ++ ", which does not exist, doing nothing") None))
  else if negb (configuration_truthy cfg) then
    mret (inl (JobError "No configuration found" "Aborting due to missing configuration" None))
  else
  match basePackages cfg with
  | None =>
      mret (inl (JobError "Package List Missing"
                   "Cannot continue without list of packages to install" None))
  | Some (PStr _) =>
      mret (inl (JobError "Bad configuration" "basePackages must be a list" None))
  | Some (PList base_packages) =>
      base_packages ← augment hst root_mount_point base_packages;
      try_except (_maybe_sync_db_host cfg)
        (λ e, match e with
              | PacmanError _ _ =>
                  Some (log_event (WarningExn "pacman -Sy failed; continuing with existing sync DB: " e))
              | _ => None
              end);;
      try_except
        ('(repo_pkgs, repo_groups) ← _build_repo_index_host;
         kept ← Pkgcheck.filter_operation_list "basePackages" base_packages repo_pkgs repo_groups;
         mret (inr (root_mount_point, kept)))
        (λ e, match e with
              | PacmanError _ _ =>
                  Some (log_event (WarningExn "" e);;
                        mret (inl (JobError "Package Manager error"
                                     "Could not query repository metadata for base system install"
                                     (Some e))))
              | _ =>
                  Some (log_event (WarningExn "pkgcheck failed: " e);;
                        mret (inl (JobError "Package Manager error"
                                     "pkgcheck failed while preparing base system package list"
                                     (Some e))))
              end)
  end
  end.

(** [run] from the test of the filtered list on. *)
Definition install (hst : host) (cfg : configuration) (root_mount_point : string)
    (base_packages : list entry) : M job_result :=
  match base_packages with
  | [] =>
      warning "All basePackages were filtered out (missing). Skipping pacstrap.";;
      finish
  | _ =>
      match all_str base_packages with
      | None =>
          (* a dictionary in the argument list: [Popen] raises *)
          mret (JobError "Failed to run pacstrap" "pacstrap failed: " None)
      | Some names =>
          r ← try_except
                (run_in_host (["pacstrap"; root_mount_point] ++ names) line_cb;;
                 mret None)
                (λ e, Some (mret (Some (JobError "Failed to run pacstrap" "" (Some e)))));
          match r with
          | Some result => mret result
          | None =>
              copy_files hst root_mount_point (default [] (postInstallFiles cfg));;
              finish
          end
      end
  end.

Definition run (hst : host) (cfg : configuration) : M job_result :=
  r ← prepare hst cfg;
  match r with
  | inl result => mret result
  | inr (root_mount_point, base_packages) => install hst cfg root_mount_point base_packages
  end.

End Pacstrap.

(** * Properties *)

Import Calamares Common.
Open Scope list_scope.

(** ** Vocabulary of the statements *)

(** *** Frames *)

(** A computation that only touches the status fields. *)
Definition quiet (w w' : world) : Prop :=
  sys w' = sys w ∧ invoked w' = invoked w ∧ heap w' = heap w.

(** Everything but the log. *)
Definition same_but_log (w w' : world) : Prop :=
  heap w' = heap w ∧ gs w' = gs w ∧ sys w' = sys w ∧ invoked w' = invoked w
  ∧ progress w' = progress w ∧ divisions w' = divisions w
  ∧ total_packages w' = total_packages w
  ∧ completed_packages w' = completed_packages w.

(** [preserves f m]: running [m] leaves the observation [f] of the world as
    it was, however [m] ends. *)
Definition preserves {A B} (f : world → B) (m : M A) : Prop := ∀ w, f (m w).2 = f w.

(** [ends Q P m]: from every state, [m] returns a value in [Q] or raises an
    exception in [P]; it does not run out of fuel. *)
Definition ends {A} (Q : A → Prop) (P : exn → Prop) (m : M A) : Prop :=
  ∀ w, match (m w).1 with
       | Ok a => Q a
       | Raise e => P e
       | OutOfFuel => False
       end.

Definition anything {A} : A → Prop := λ _, True.

Definition nothing {A} : A → Prop := λ _, False.

Definition called_process_error (e : exn) : Prop :=
  match e with CalledProcessError _ _ => True | _ => False end.

(** With the paru backend configured, the first part of [run] returns
    [None] (no internet) or goes on. *)
Definition goes_on {X} (r : job_result + X) : Prop :=
  match r with
  | inl result => result = JobNone
  | inr _ => True
  end.

(** *** The existence filter and the heap *)

(** The test under which [filter_operation_list] keeps an item. *)
Definition keeps (h : gmap nat pkgdict) (repo_pkgs repo_groups : gset string) (item : entry)
    : bool :=
  negb (Pkgcheck.name_missing (packagename_of h item))
  && bool_decide (default "" (packagename_of h item) ∈ repo_pkgs
                  ∨ default "" (packagename_of h item) ∈ repo_groups).

(** Objects stay; only the [package] key is written, and only where it was
    present; a name that was not empty is not empty afterwards. *)
Definition evolves_obj (d d' : pkgdict) : Prop :=
  pre_script d' = pre_script d ∧ post_script d' = post_script d ∧
  match package d with
  | Some n => ∃ n', package d' = Some n' ∧ (n ≠ "" → n' ≠ "")
  | None => package d' = None
  end.

Definition heap_evolves (h h' : gmap nat pkgdict) : Prop :=
  ∀ a, match h !! a with
       | Some d => ∃ d', h' !! a = Some d' ∧ evolves_obj d d'
       | None => h' !! a = None
       end.

(** An entry has a name, which is not empty where [strict] says so. *)
Definition named (strict : bool) (h : gmap nat pkgdict) (item : entry) : Prop :=
  ∃ n, packagename_of h item = Some n ∧ (strict = true → n ≠ "").

(** Every value of the operation is a list of named entries; under the four
    filtered keys the names are not empty. *)
Definition op_named (h : gmap nat pkgdict) (op : operation) : Prop :=
  ∀ key v, (key, v) ∈ op →
    ∃ l, v = PList l ∧ Forall (named (Pkgcheck.is_filter_key key) h) l.

(** *** Operation keys and counts, in the words of the specification *)

Definition recognized_keys : list string :=
  ["install"; "try_install"; "remove"; "try_remove"; "localInstall"; "source"].

Definition executable_keys : list string :=
  ["install"; "try_install"; "remove"; "try_remove"; "localInstall"].

Definition is_executable_key (key : string) : bool :=
  existsb (String.eqb key) executable_keys.

(** The sum of the lengths of the executable lists of one operation, and of
    a list of operations. *)
Definition executable_count (op : operation) : Z :=
  foldr (λ kv acc, ((if is_executable_key kv.1
                     then Z.of_nat (length (py_iter kv.2)) else 0) + acc)%Z) 0%Z op.

Definition total_executable (ops : list operation) : Z :=
  foldr (λ op acc, (executable_count op + acc)%Z) 0%Z ops.

(** The operation without its [source] key. *)
Definition without_source (op : operation) : operation :=
  List.filter (λ kv, negb (String.eqb kv.1 "source")) op.

(** *** Templates built from plain characters and placeholder tokens *)

(** A piece of a package name: one character, or the token [${LOCALE}]. *)
Inductive piece :=
| Lit (c : ascii)
| Tok.

(** A piece other than a [$] that stands alone. *)
Definition plain (p : piece) : Prop := p ≠ Lit "$".

Fixpoint template (ps : list piece) : string :=
  match ps with
  | [] => ""
  | Lit c :: ps' => String c (template ps')
  | Tok :: ps' => ("${LOCALE}" ++ template ps')%string
  end.

(** The template with every token replaced by the locale. *)
Fixpoint instance (locale : string) (ps : list piece) : string :=
  match ps with
  | [] => ""
  | Lit c :: ps' => String c (instance locale ps')
  | Tok :: ps' => (locale ++ instance locale ps')%string
  end.

Definition no_dollar (s : string) : Prop := Py.contains "$" s = false.

(** A name in which every [$] opens a [${LOCALE}] token. *)
Definition is_template (name : string) : Prop :=
  ∃ ps, Forall plain ps ∧ name = template ps.

(** *** Concrete systems and states for the examples *)

(** A target on which every command succeeds and prints nothing, except that
    the package index lists [pkgs]. *)
Definition repo_system (pkgs : list string) : nat → list string → outcome :=
  λ _ cmd,
    if bool_decide (cmd = ["pacman"; "-Slq"])
    then Outcome ((λ p, p ++ nl)%string <$> pkgs) 0 false
    else Outcome [] 0 false.

(** A target on which every command fails. *)
Definition failing_system : nat → list string → outcome :=
  λ _ _, Outcome [] 1 false.

(** A target on which the first [k] commands fail and the later ones succeed. *)
Definition flaky_system (k : nat) : nat → list string → outcome :=
  λ n _, if (n <? k)%nat then Outcome [] 1 false else Outcome [] 0 false.

(** A freshly loaded module with internet, the given locale and heap. *)
Definition example_world (target : nat → list string → outcome) (locale : option string)
    (h : gmap nat pkgdict) : world :=
  initial_world target (λ _, 0%Q) (λ _ _, "")
    (GlobalStorage locale true None (Some "/mnt") None) h.

Definition plain_manager : Pacman.PacmanManager :=
  {| Pacman.pacman_num_retries := 0; Pacman.pacman_disable_timeout := false;
     Pacman.pacman_needed_only := false |}.

Definition retrying_manager : Pacman.PacmanManager :=
  {| Pacman.pacman_num_retries := 2; Pacman.pacman_disable_timeout := false;
     Pacman.pacman_needed_only := false |}.

Definition default_paru_manager : Paru.ParuManager :=
  {| Paru.paru_num_retries := 0; Paru.paru_disable_timeout := false;
     Paru.paru_needed_only := false; Paru.paru_timeout := 0 |}.

Definition pacman_operations (ops : list operation) : Pacman.configuration :=
  Pacman.Configuration None None None None (Some ops) None.

Definition paru_operations (ops : list operation) : Paru.configuration :=
  Paru.Configuration None None None None (Some ops) None None.

(** [[{"install": ["a"], "source": "x"}]] *)
Definition install_a_from_x : list operation :=
  [[("install", PList [EStr "a"]); ("source", PStr "x")]].

(** [[{"install": ["b"]}]] *)
Definition install_missing : list operation := [[("install", PList [EStr "b"])]].

(** [[{"try_remove": ["x"]}]], without and with a source tag. *)
Definition try_remove_x : list operation := [[("try_remove", PList [EStr "x"])]].

Definition try_remove_x_paru : list operation :=
  [[("try_remove", PList [EStr "x"]); ("source", PStr "paru")]].

(** [[{"localInstall": [""]}]] *)
Definition local_install_empty : list operation := [[("localInstall", PList [EStr ""])]].

(** The name [lang-${LOCALE}-pack]. *)
Definition lang_pack : list piece :=
  [Lit "l"; Lit "a"; Lit "n"; Lit "g"; Lit "-"; Tok; Lit "-"; Lit "p"; Lit "a"; Lit "c";
   Lit "k"].

(** A heap with one structured entry, named [lang-${LOCALE}]. *)
Definition one_template_dict : gmap nat pkgdict :=
  {[ 0%nat := PkgDict (Some "lang-${LOCALE}") None None ]}.

(** *** Vocabulary of the further properties *)

(** A log record written by [libcalamares.utils.warning]. *)
Definition is_warning (ev : event) : bool :=
  match ev with
  | Warning _ | WarningEntry _ _ | WarningExn _ _ | WarningCommand _ _ => true
  | _ => false
  end.

Definition warnings (l : list event) : nat := length (List.filter is_warning l).

(** An item that [filter_operation_list] is to keep: it has a name, the
    name is not empty and is a package or a group of the index. *)
Definition in_index (h : gmap nat pkgdict) (repo_pkgs repo_groups : gset string)
    (item : entry) : Prop :=
  ∃ name, packagename_of h item = Some name ∧ name ≠ ""
          ∧ (name ∈ repo_pkgs ∨ name ∈ repo_groups).

(** What the resolver puts in its result for an entry it keeps: a string
    is replaced by its substituted name (left alone for [en]), a dictionary
    stays the same object. *)
Definition resolved (locale : string) (item : entry) : entry :=
  match item with
  | EStr s => EStr (if String.eqb locale "en" then s else Py.safe_substitute locale s)
  | EDict a => EDict a
  end.

(** A key of a preprocessed operation against the key it comes from: the
    same key, and a list taken, in order, from the resolved input list. *)
Definition key_shape (locale : string) (kv nkv : string * pyval) : Prop :=
  nkv.1 = kv.1 ∧
  ∃ l, nkv.2 = PList l ∧ l `sublist_of` (resolved locale <$> py_iter kv.2).

Definition operation_shape (locale : string) (op new_op : operation) : Prop :=
  Forall2 (key_shape locale) op new_op.

(** A command that prints the given names, one per line. *)
Definition prints (names : list string) (o : outcome) : Prop :=
  out_lines o = (λ p, p ++ nl)%string <$> names.

(** A name that does not end in a newline. *)
Definition line_free (name : string) : Prop := Py.rstrip_nl name = name.

(** The command finishes before the timeout of the manager, if it has one. *)
Definition on_time (self : Paru.ParuManager) (o : outcome) : Prop :=
  Paru.paru_timeout self = 0%Z ∨ out_slow o = false.

Definition pkill_paru : list string := ["sudo"; "-E"; "-u"; "nobody"; "pkill"; "-f"; "paru"].

(** A manager with a timeout of one second and one retry. *)
Definition impatient_paru_manager : Paru.ParuManager :=
  {| Paru.paru_num_retries := 1; Paru.paru_disable_timeout := false;
     Paru.paru_needed_only := false; Paru.paru_timeout := 1 |}.

(** A target on which every command is still running at the timeout. *)
Definition hanging_system : nat → list string → outcome :=
  λ _ _, Outcome [] 0 true.

(** [hoare pre m post fail]: from a state in [pre], [m] returns a value and
    a state in [post] or raises an exception with a state in [fail]; it
    does not run out of fuel. *)
Definition hoare {A} (pre : world → Prop) (m : M A)
    (post : A → world → Prop) (fail : exn → world → Prop) : Prop :=
  ∀ w, pre w →
    match m w with
    | (Ok a, w') => post a w'
    | (Raise e, w') => fail e w'
    | (OutOfFuel, _) => False
    end.

Definition pacman_error (e : exn) : Prop :=
  match e with PacmanError _ _ => True | _ => False end.

(** Since the state [w0], the job has pushed no progress value but 0 and
    has not marked the system online. *)
Definition idle (w0 w : world) : Prop :=
  gs_online w = gs_online w0 ∧ ∃ n, progress w = replicate n 0%Q ++ progress w0.

(** What [run] of the pacstrap module leaves behind, by its result. *)
Definition pacstrap_outcome (w0 : world) (result : job_result) (w : world) : Prop :=
  match result with
  | JobNone =>
      gs_online w = true ∧ ∃ n, progress w = 1%Q :: replicate n 0%Q ++ progress w0
  | JobError _ _ _ => idle w0 w
  end.

(** What the package managers leave alone while they run commands: global
    storage, the package objects and the two counters. *)
Definition core (w : world) : globalstorage * gmap nat pkgdict * Z * Z :=
  (gs w, heap w, total_packages w, completed_packages w).

(** The number of entries the resolver returns for a list. *)
Definition kept_count (locale : string) (h : gmap nat pkgdict) (l : list entry) : Z :=
  Z.of_nat (length (subst_locale_loop locale h l).2).

Definition operation_count (locale : string) (h : gmap nat pkgdict) (op : operation) : Z :=
  foldr (λ kv acc, (kept_count locale h (py_iter kv.2) + acc)%Z) 0%Z op.

Definition operations_count (locale : string) (h : gmap nat pkgdict)
    (ops : list operation) : Z :=
  foldr (λ op acc, (operation_count locale h op + acc)%Z) 0%Z ops.

(** The same objects have a [package] key. *)
Definition same_presence (h h' : gmap nat pkgdict) : Prop :=
  ∀ a, is_Some (h !! a ≫= package) ↔ is_Some (h' !! a ≫= package).

(** How far the resolver can move the heap: not at all for [en],
    otherwise it rewrites names that are present. *)
Definition drift (locale : string) (h h' : gmap nat pkgdict) : Prop :=
  if String.eqb locale "en" then h' = h else same_presence h h'.

(** Where the counters stand while a job counts and dispatches:
    global storage is [g], the heap is what the resolver made of [h0], and
    the counters are [t] and [c]. *)
Definition counted (g : globalstorage) (h0 : gmap nat pkgdict) (t c : Z) (w : world) : Prop :=
  gs w = g ∧ drift (ambient_locale g) h0 (heap w)
  ∧ total_packages w = t ∧ completed_packages w = c.

(** What [run] of the pacman module can return: [None], the error of a
    wrong backend, or one of the two errors that report a failed command. *)
Definition pacman_result (result : job_result) : Prop :=
  match result with
  | JobNone => True
  | JobError title _ about =>
      (title = "Bad backend" ∧ about = None)
      ∨ ((title = "Package Manager error" ∨ title = "Repository metadata query failed")
         ∧ ∃ cmd rc, about = Some (CalledProcessError cmd rc))
  end.



(** The commands run, oldest first, when each command [cmd] of a list is
    run [j] times in a row, [j] being its entry in [counts]. *)
Definition runs_in_order (counts : list nat) (cmds : list (list string))
    : list (list string) :=
  mjoin (zip_with replicate counts cmds).

(** A configuration that asks for a database update. *)
Definition update_db_only : Pacman.configuration :=
  Pacman.Configuration None None (Some true) None None None.

(** An entry the resolver keeps when it meets it again. *)
Definition stable (locale : string) (h : gmap nat pkgdict) (item : entry) : Prop :=
  is_Some (packagename_of h item ≫= resolve_name locale).

(** Every value of the operation is a list of such entries. *)
Definition op_stable (locale : string) (h : gmap nat pkgdict) (op : operation) : Prop :=
  ∀ key v, (key, v) ∈ op → ∃ l, v = PList l ∧ Forall (stable locale h) l.

(** The number of entries under all keys of an operation, executable or
    not, and of a list of operations. *)
Definition entry_count (op : operation) : Z :=
  foldr (λ kv acc, (Z.of_nat (length (py_iter kv.2)) + acc)%Z) 0%Z op.

Definition every_entry (ops : list operation) : Z :=
  foldr (λ op acc, (entry_count op + acc)%Z) 0%Z ops.

(** The fraction [reset_progress] stores: completed over total, or 0 when
    there is no total. *)
Definition baseline (w : world) : Q :=
  if (0 <? total_packages w)%Z
  then (inject_Z (completed_packages w) / inject_Z (total_packages w))%Q
  else 0%Q.

(** Since the progress list was [p0], only the value [q] has been pushed,
    and [q] is the fraction the manager holds. *)
Definition reporting (q : Q) (p0 : list Q) (w : world) : Prop :=
  progress_fraction w = q ∧ ∃ n, progress w = replicate n q ++ p0.

(** *** Vocabulary of the token, of local lists and of the source filters *)

(** The endings of a text that are not empty, longest first. *)
Fixpoint endings (s : string) : list string :=
  match s with
  | EmptyString => []
  | String _ t => s :: endings t
  end.

(** Two texts agree as far as both go: one of them begins with the other. *)
Definition agree (x y : string) : bool := String.prefix x y || String.prefix y x.

(** An ending of [x] that is not empty, laid over the beginning of [y],
    agrees with it. *)
Definition overlaps (x y : string) : bool := existsb (λ u, agree u y) (endings x).

(** A locale that shares no text with the token: written next to other
    text, it can neither complete a token nor be completed to one. *)
Definition clear_of_token (locale : string) : Prop :=
  overlaps locale "${LOCALE}" = false ∧ overlaps "${LOCALE}" locale = false.

(** A text of identifier characters. *)
Fixpoint id_text (s : string) : bool :=
  match s with
  | EmptyString => true
  | String c t => Py.id_char c && id_text t
  end.

(** [scanned locale s o]: the scan of [safe_substitute] over [s], one
    character or one match at a time, writes [o]. *)
Inductive scanned (locale : string) : string → string → Prop :=
| scanned_end : scanned locale "" ""
| scanned_char c t o :
    c ≠ "$"%char → scanned locale t o → scanned locale (String c t) (String c o)
| scanned_match m rest o :
    Py.pattern_match (Py.match_text m ++ rest)%string = Some m →
    scanned locale rest o →
    scanned locale (Py.match_text m ++ rest)%string (Py.convert locale m ++ o)%string.

(** A heap with one structured entry, named [lang-${LOCALE}], and a list
    that holds it together with three string entries. *)
Definition mixed_names : pyval :=
  PList [EStr "pkg-$LOCALE"; EStr "a$1-${LOCALE}"; EStr "lang-${LOCALE}-pack"; EDict 0].

(** The test under which the resolver keeps an entry: it has a name and,
    for [en], the name does not contain [LOCALE]. *)
Definition kept_by_resolver (locale : string) (h : gmap nat pkgdict) (item : entry) : bool :=
  match packagename_of h item with
  | Some n => negb (String.eqb locale "en" && Py.contains "LOCALE" n)
  | None => false
  end.

(** A list that is locale-resolved only: the entries the resolver keeps,
    in order, each as the resolver returns it. *)
Definition resolved_only (locale : string) (h : gmap nat pkgdict) (v : pyval) : list entry :=
  resolved locale <$> List.filter (kept_by_resolver locale h) (py_iter v).

(** An object whose name is the empty string keeps that name. *)
Definition empty_names_stay (h h' : gmap nat pkgdict) : Prop :=
  ∀ a, h !! a ≫= package = Some "" → h' !! a ≫= package = Some "".

(** The source tag of an operation in the words of the claim: the text of
    its [source] value, the empty text when it has none, in lower case. *)
Definition lowered_source (w : world) (entry : operation) : string :=
  Py.lower (py_str w (default (PStr "") (dict_get entry "source"))).

(** The operations that are for the pacman module, and those that are for
    the paru module. *)
Definition for_pacman (w : world) (entry : operation) : bool :=
  negb (Py.contains "paru" (lowered_source w entry)
        || Py.contains "flatpak" (lowered_source w entry)).

Definition for_paru (w : world) (entry : operation) : bool :=
  Py.contains "paru" (lowered_source w entry).

(** The module variables as [run] of the paru module sets them before it
    counts. *)
Definition paru_reset (w : world) : world :=
  set_custom_status_message None
    (set_group_packages 0
       (set_completed_packages 0 (set_total_packages 0 (set_mode_packages None w)))).

(** Three operations: one tagged [Paru], one without a tag, one tagged
    [flatpak]. *)
Definition tagged_operations : list operation :=
  [ [("install", PList [EStr "a"]); ("source", PStr "Paru")];
    [("install", PList [EStr "b"])];
    [("install", PList [EStr "c"]); ("source", PStr "flatpak")] ].

(** ** Lemmas and theorems *)

(** Running a computation: unfold the monad. *)
Ltac unfold_M :=
  unfold mbind, mret, M_bind, M_ret, modify, get, raise, try_except, out_of_fuel,
    warning, debug, log_event, setprogress in *.

Lemma bind_run {A B} (m : M A) (f : A → M B) (w : world) :
  (m ≫= f) w = match m w with
               | (Ok a, w') => f a w'
               | (Raise e, w') => (Raise e, w')
               | (OutOfFuel, w') => (OutOfFuel, w')
               end.
Proof. reflexivity. Qed.

Lemma pacman_line_cb_quiet line w :
  ∃ w', Pacman.line_cb line w = (Ok tt, w') ∧ quiet w w'.
Proof.
  unfold Pacman.line_cb. unfold_M.
  destruct (Py.startswith line ":: "); simpl.
  - eexists; split; [reflexivity | done].
  - destruct (in_package_changes w && Py.endswith line ("..." ++ nl)%string); simpl;
      (eexists; split; [reflexivity | done]).
Qed.

Lemma for_each_quiet (cb : string → M unit) :
  (∀ line w, ∃ w', cb line w = (Ok tt, w') ∧ quiet w w') →
  ∀ lines w, ∃ w', for_each lines cb w = (Ok tt, w') ∧ quiet w w'.
Proof.
  intros Hcb lines. induction lines as [|line lines IH]; intros w; simpl.
  - exists w. done.
  - rewrite bind_run. destruct (Hcb line w) as (w1 & -> & Hs1 & Hi1 & Hh1).
    destruct (IH w1) as (w2 & -> & Hs2 & Hi2 & Hh2).
    exists w2. split; [done|]. unfold quiet. by rewrite Hs2, Hi2, Hh2.
Qed.

(** One call of the command: it is recorded, and its exit code decides. *)
Lemma target_call_run cmd (callback : bool) w :
  ∃ w', quiet (set_invoked (cmd :: invoked w) w) w' ∧
    target_env_process_output cmd (if callback then Some Pacman.line_cb else None) w =
      (if (out_rc (sys w (length (invoked w)) cmd) =? 0)%Z then Ok tt
       else Raise (CalledProcessError cmd (out_rc (sys w (length (invoked w)) cmd))), w').
Proof.
  unfold target_env_process_output, spawn. rewrite bind_run.
  set (o := sys w (length (invoked w)) cmd).
  set (w1 := set_invoked (cmd :: invoked w) w).
  destruct callback.
  - rewrite bind_run.
    destruct (for_each_quiet Pacman.line_cb pacman_line_cb_quiet (out_lines o) w1)
      as (w2 & -> & Hq).
    exists w2. split; [done|]. by destruct (out_rc o =? 0)%Z.
  - exists w1. split; [done|]. rewrite bind_run. unfold_M.
    by destruct (out_rc o =? 0)%Z.
Qed.

Lemma replicate_shift {A} (n : nat) (x : A) (l : list A) :
  replicate n x ++ x :: l = x :: replicate n x ++ l.
Proof. induction n as [|n IH]; simpl; [done|]. by rewrite IH. Qed.

Lemma run_pacman_loop_spec self cmd callback (k : nat) :
  ∀ fuel count w,
    (∀ i, (i < k)%nat → out_rc (sys w (length (invoked w) + i) cmd) ≠ 0%Z) →
    out_rc (sys w (length (invoked w) + k) cmd) = 0%Z →
    (count <= Pacman.pacman_num_retries self)%Z →
    (Z.to_nat (Pacman.pacman_num_retries self - count) < fuel)%nat →
    ∃ w',
      sys w' = sys w ∧
      if bool_decide (count + Z.of_nat k <= Pacman.pacman_num_retries self)%Z then
        Pacman.run_pacman_loop fuel self cmd callback count w = (Ok tt, w') ∧
        invoked w' = replicate (S k) cmd ++ invoked w
      else
        (∃ rc, rc ≠ 0%Z ∧
           Pacman.run_pacman_loop fuel self cmd callback count w =
             (Raise (CalledProcessError cmd rc), w')) ∧
        invoked w' =
          replicate (Z.to_nat (Pacman.pacman_num_retries self - count + 1)) cmd ++ invoked w.
Proof.
  induction k as [|k IH]; intros fuel count w Hfail Hok Hcount Hfuel.
  - destruct fuel as [|fuel]; [lia|]. simpl.
    assert ((count <=? Pacman.pacman_num_retries self)%Z = true) as -> by lia.
    unfold try_except.
    destruct (target_call_run cmd callback w) as (w1 & (Hs & Hi & _) & ->).
    simpl in Hs, Hi.
    rewrite Nat.add_0_r in Hok. rewrite Hok. simpl.
    exists w1. split; [done|].
    rewrite bool_decide_eq_true_2 by lia. by rewrite Hi.
  - destruct fuel as [|fuel]; [lia|]. simpl.
    assert ((count <=? Pacman.pacman_num_retries self)%Z = true) as -> by lia.
    unfold try_except.
    destruct (target_call_run cmd callback w) as (w1 & (Hs & Hi & _) & ->).
    simpl in Hs, Hi.
    pose proof (Hfail 0%nat ltac:(lia)) as H0. rewrite Nat.add_0_r in H0.
    destruct (Z.eqb_spec (out_rc (sys w (length (invoked w)) cmd)) 0) as [?|_]; [done|].
    simpl.
    destruct (Z.leb_spec (count + 1) (Pacman.pacman_num_retries self)) as [Hle|Hgt].
    + destruct (IH fuel (count + 1)%Z w1) as (w2 & Hs2 & Hres).
      * intros i Hi'. rewrite Hs, Hi. simpl. rewrite <- Nat.add_succ_r.
        apply Hfail. lia.
      * rewrite Hs, Hi. simpl. by rewrite <- Nat.add_succ_r.
      * done.
      * lia.
      * exists w2. split; [congruence|].
        replace (count + 1 + Z.of_nat k)%Z with (count + Z.of_nat (S k))%Z in Hres by lia.
        case_bool_decide.
        -- destruct Hres as [-> ->]. split; [done|]. rewrite Hi. simpl.
           by rewrite replicate_shift.
        -- destruct Hres as [Hr ->]. split; [done|]. rewrite Hi.
           replace (Z.to_nat (Pacman.pacman_num_retries self - count + 1))
             with (S (Z.to_nat (Pacman.pacman_num_retries self - (count + 1) + 1))) by lia.
           simpl. by rewrite replicate_shift.
    + exists w1. split; [done|].
      rewrite bool_decide_eq_false_2 by lia.
      split; [eauto|]. rewrite Hi.
      by replace (Z.to_nat (Pacman.pacman_num_retries self - count + 1)) with 1%nat by lia.
Qed.

(** Claim C4.  [PacmanManager.run_pacman] with a retry count [r >= 0], on a
    command that fails its first [k] invocations and succeeds at the next:
    when [r >= k] the call returns after exactly [k + 1] invocations of the
    command; when [r < k] it raises [CalledProcessError] after exactly
    [r + 1] invocations. *)
Theorem run_pacman_retry (self : Pacman.PacmanManager) (command : list string)
    (callback : bool) (w : world) (k : nat) :
  let r := Pacman.pacman_num_retries self in
  (0 <= r)%Z →
  (∀ i, (i < k)%nat → out_rc (sys w (length (invoked w) + i) command) ≠ 0%Z) →
  out_rc (sys w (length (invoked w) + k) command) = 0%Z →
  ∃ w',
    ((Z.of_nat k <= r)%Z →
       Pacman.run_pacman self command callback w = (Ok tt, w') ∧
       invoked w' = replicate (k + 1) command ++ invoked w) ∧
    ((r < Z.of_nat k)%Z →
       (∃ rc, rc ≠ 0%Z ∧
          Pacman.run_pacman self command callback w =
            (Raise (CalledProcessError command rc), w')) ∧
       invoked w' = replicate (Z.to_nat r + 1) command ++ invoked w).
Proof.
  intros r Hr Hfail Hok. unfold Pacman.run_pacman.
  destruct (run_pacman_loop_spec self command callback k
              (S (Z.to_nat (r + 1))) 0%Z w Hfail Hok Hr ltac:(lia)) as (w' & _ & H).
  exists w'. fold r in H. case_bool_decide.
  - split; [|lia]. intros _. by rewrite Nat.add_1_r.
  - split; [lia|]. intros _. destruct H as [H1 H2]. split; [done|].
    rewrite H2. f_equal. f_equal. lia.
Qed.


(** *** Dictionaries *)

Lemma dict_set_fresh {V} (d : dict V) (k : string) (v : V) :
  dict_get d k = None → dict_set d k v = d ++ [(k, v)].
Proof.
  induction d as [|[k' v'] d IH]; simpl; [done|].
  destruct (String.eqb k' k); [done|]. intros H. by rewrite IH.
Qed.

Lemma dict_get_snoc {V} (d : dict V) (k k' : string) (v : V) :
  dict_get (d ++ [(k, v)]) k' =
    match dict_get d k' with
    | Some x => Some x
    | None => if String.eqb k k' then Some v else None
    end.
Proof.
  induction d as [|[k0 v0] d IH]; simpl; [done|].
  by destruct (String.eqb k0 k').
Qed.

(** *** The locale resolver always returns *)

Lemma subst_locale_run (plist : pyval) (w : world) :
  subst_locale plist w =
    (Ok (subst_locale_loop (ambient_locale (gs w)) (heap w) (py_iter plist)).2,
     set_heap (subst_locale_loop (ambient_locale (gs w)) (heap w) (py_iter plist)).1 w).
Proof. unfold subst_locale. by destruct (subst_locale_loop _ _ _). Qed.

(** *** The existence filter *)

Lemma filter_operation_list_run key items repo_pkgs repo_groups w :
  ∃ w', Pkgcheck.filter_operation_list key items repo_pkgs repo_groups w =
          (Ok (List.filter (keeps (heap w) repo_pkgs repo_groups) items), w')
        ∧ same_but_log w w'.
Proof.
  revert w. induction items as [|item rest IH]; intros w; simpl.
  - exists w. by repeat split.
  - rewrite bind_run. unfold get at 1. unfold keeps at 1.
    unfold Pkgcheck._pkg_name_of.
    destruct (Pkgcheck.name_missing (packagename_of (heap w) item)); simpl.
    + rewrite bind_run. unfold log_event at 1, modify at 1.
      match goal with |- context [Pkgcheck.filter_operation_list _ _ _ _ ?w1] =>
        destruct (IH w1) as (w' & Hrun & Hsame) end.
      exists w'. split; [exact Hrun | exact Hsame].
    + case_bool_decide.
      * rewrite bind_run. destruct (IH w) as (w' & -> & Hsame).
        exists w'. by split.
      * rewrite bind_run. unfold warning at 1, modify at 1.
        rewrite bind_run. unfold log_event at 1, modify at 1.
        match goal with |- context [Pkgcheck.filter_operation_list _ _ _ _ ?w1] =>
          destruct (IH w1) as (w' & Hrun & Hsame) end.
        exists w'. split; [exact Hrun | exact Hsame].
Qed.

(** *** Substitution keeps a name non-empty *)

Lemma append_nonempty (a b : string) : a ≠ "" → (a ++ b)%string ≠ "".
Proof. destruct a; [done|]. simpl. done. Qed.

Lemma convert_nonempty locale m : locale ≠ "" → Py.convert locale m ≠ "".
Proof.
  intros HL. destruct m; simpl; try done.
  - destruct (String.eqb id "LOCALE"); [done|]. done.
  - destruct (String.eqb id "LOCALE"); [done|]. done.
Qed.

Lemma safe_substitute_nonempty locale name :
  locale ≠ "" → name ≠ "" → Py.safe_substitute locale name ≠ "".
Proof.
  intros HL Hn. destruct name as [|c t]; [done|].
  unfold Py.safe_substitute. cbn [Py.sub].
  destruct (Py.pattern_match (String c t)) as [m|]; [|done].
  by apply append_nonempty, convert_nonempty.
Qed.

Lemma ambient_locale_nonempty g : ambient_locale g ≠ "".
Proof.
  unfold ambient_locale. destruct (gs_locale g) as [[|c l]|]; simpl; done.
Qed.

Lemma resolve_name_nonempty locale name name' :
  locale ≠ "" → resolve_name locale name = Some name' → name ≠ "" → name' ≠ "".
Proof.
  unfold resolve_name. intros HL H Hn.
  destruct (negb (String.eqb locale "en")).
  - injection H as <-. by apply safe_substitute_nonempty.
  - destruct (Py.contains "LOCALE" name); [done|]. by injection H as <-.
Qed.

(** *** How the resolver changes the heap *)

Lemma evolves_obj_refl d : evolves_obj d d.
Proof. repeat split. destruct (package d); eauto. Qed.

Lemma evolves_obj_trans d1 d2 d3 : evolves_obj d1 d2 → evolves_obj d2 d3 → evolves_obj d1 d3.
Proof.
  intros (Hp1 & Hq1 & H1) (Hp2 & Hq2 & H2). repeat split; [congruence..|].
  destruct (package d1) as [n|].
  - destruct H1 as (n' & Hn' & Hne). rewrite Hn' in H2.
    destruct H2 as (n'' & Hn'' & Hne'). eauto.
  - by rewrite H1 in H2.
Qed.

Lemma heap_evolves_refl h : heap_evolves h h.
Proof. intros a. destruct (h !! a) eqn:E; [|done]. eauto using evolves_obj_refl. Qed.

Lemma heap_evolves_trans h1 h2 h3 :
  heap_evolves h1 h2 → heap_evolves h2 h3 → heap_evolves h1 h3.
Proof.
  intros H12 H23 a. specialize (H12 a). specialize (H23 a).
  destruct (h1 !! a) as [d1|].
  - destruct H12 as (d2 & E2 & Ho). rewrite E2 in H23.
    destruct H23 as (d3 & E3 & Ho'). eauto using evolves_obj_trans.
  - by rewrite H12 in H23.
Qed.

Lemma heap_evolves_alter h a name name' :
  h !! a ≫= package = Some name → (name ≠ "" → name' ≠ "") →
  heap_evolves h (alter (set_package name') a h).
Proof.
  intros Hname Hne b. destruct (decide (a = b)) as [<-|Hab].
  - rewrite lookup_alter_eq. destruct (h !! a) as [d|]; [|done]. simpl in *.
    eexists; split; [done|]. repeat split. rewrite Hname. eauto.
  - rewrite lookup_alter_ne by done. destruct (h !! b); [|done].
    eauto using evolves_obj_refl.
Qed.

Lemma subst_locale_loop_evolves locale plist :
  locale ≠ "" → ∀ h, heap_evolves h (subst_locale_loop locale h plist).1.
Proof.
  intros HL. induction plist as [|item rest IH]; intros h; simpl.
  - apply heap_evolves_refl.
  - destruct (packagename_of h item) as [name|] eqn:Hname; simpl; [|apply IH].
    destruct (resolve_name locale name) as [name'|] eqn:Hres; [|apply IH].
    destruct item as [s|a].
    + specialize (IH h). destruct (subst_locale_loop locale h rest). apply IH.
    + specialize (IH (alter (set_package name') a h)).
      destruct (subst_locale_loop locale _ rest). simpl in *.
      eapply heap_evolves_trans; [|exact IH].
      eapply heap_evolves_alter; [exact Hname|].
      by eapply resolve_name_nonempty.
Qed.

Lemma named_evolves strict h h' item :
  heap_evolves h h' → named strict h item → named strict h' item.
Proof.
  intros Hev (n & Hn & Hne). destruct item as [s|a]; simpl in *.
  - exists n. done.
  - specialize (Hev a). destruct (h !! a) as [d|]; [|done]. simpl in Hn.
    destruct Hev as (d' & Hd' & _ & _ & Hp). rewrite Hn in Hp.
    destruct Hp as (n' & Hn' & Hne'). exists n'. cbn. rewrite Hd'. simpl.
    split; [done|]. auto.
Qed.

Lemma named_weaken strict h item : named strict h item → named false h item.
Proof. intros (n & Hn & _). exists n. done. Qed.

(** After the resolver, every entry of its result has a name. *)
Lemma subst_locale_loop_named locale plist :
  locale ≠ "" →
  ∀ h, Forall (named false (subst_locale_loop locale h plist).1)
         (subst_locale_loop locale h plist).2.
Proof.
  intros HL. induction plist as [|item rest IH]; intros h; simpl; [done|].
  destruct (packagename_of h item) as [name|] eqn:Hname; simpl; [|apply IH].
  destruct (resolve_name locale name) as [name'|] eqn:Hres; [|apply IH].
  destruct item as [s|a].
  - specialize (IH h). destruct (subst_locale_loop locale h rest). simpl in *.
    constructor; [|done]. exists name'. done.
  - pose proof (subst_locale_loop_evolves locale rest HL (alter (set_package name') a h)) as Hev.
    specialize (IH (alter (set_package name') a h)).
    destruct (subst_locale_loop locale _ rest). simpl in *.
    constructor; [|done].
    eapply named_evolves; [exact Hev|].
    exists name'. simpl. rewrite lookup_alter_eq.
    destruct (h !! a); [|done]. done.
Qed.

(** *** What preprocessing counts *)

Lemma is_executable_key_split key :
  is_executable_key key = Pkgcheck.is_filter_key key || String.eqb key "localInstall".
Proof.
  unfold is_executable_key, Pkgcheck.is_filter_key. simpl.
  by rewrite !orb_false_r, <- !orb_assoc.
Qed.

Lemma executable_count_app op1 op2 :
  executable_count (op1 ++ op2) = (executable_count op1 + executable_count op2)%Z.
Proof.
  unfold executable_count. induction op1 as [|kv op1 IH]; simpl; [done|].
  rewrite IH. lia.
Qed.

Lemma total_executable_app ops1 ops2 :
  total_executable (ops1 ++ ops2) = (total_executable ops1 + total_executable ops2)%Z.
Proof.
  unfold total_executable. induction ops1 as [|op ops1 IH]; simpl; [done|].
  rewrite IH. lia.
Qed.

Lemma op_named_evolves h h' op : heap_evolves h h' → op_named h op → op_named h' op.
Proof.
  intros Hev Hop key v Hin. destruct (Hop key v Hin) as (l & -> & Hl).
  exists l. split; [done|]. eapply Forall_impl; [exact Hl|].
  intros item. by apply named_evolves.
Qed.

Lemma op_named_snoc h op key l :
  op_named h op → Forall (named (Pkgcheck.is_filter_key key) h) l →
  op_named h (op ++ [(key, PList l)]).
Proof.
  intros Hop Hl k v [Hin|Hin]%elem_of_app; [by apply Hop|].
  apply list_elem_of_singleton in Hin. injection Hin as -> ->. eauto.
Qed.

Lemma keeps_named h repo_pkgs repo_groups l :
  Forall (named true h) (List.filter (keeps h repo_pkgs repo_groups) l).
Proof.
  apply Forall_forall. intros item Hin. apply list_elem_of_In, filter_In in Hin.
  destruct Hin as [_ Hk]. unfold keeps in Hk. apply andb_prop in Hk as [Hk _].
  unfold Pkgcheck.name_missing in Hk.
  destruct (packagename_of h item) as [n|] eqn:Hn; [|done].
  exists n. split; [done|]. intros _ ->. done.
Qed.

Lemma any_nonempty_false h op :
  op_named h op → Pkgcheck.any_nonempty_list op = false → executable_count op = 0%Z.
Proof.
  unfold Pkgcheck.any_nonempty_list, executable_count.
  induction op as [|[k v] op IH]; intros Hop Hany; simpl in *; [done|].
  apply orb_false_elim in Hany as [Hv Hany].
  rewrite IH; [|intros k' v' Hin; apply Hop; by right|done].
  destruct (Hop k v) as (l & -> & _); [by left|].
  destruct l; [|done]. simpl. by destruct (is_executable_key k).
Qed.

Section preprocess.
Variables repo_pkgs repo_groups : gset string.

Lemma preprocess_items_spec (items : list (string * pyval)) :
  ∀ (new_op : operation) (total : Z) (w : world),
    NoDup items.*1 →
    (∀ k, k ∈ items.*1 → dict_get new_op k = None) →
    op_named (heap w) new_op →
    ∃ new_op' total' w',
      Pkgcheck.preprocess_items subst_locale repo_pkgs repo_groups items new_op total w
        = (Ok (new_op', total'), w')
      ∧ gs w' = gs w
      ∧ heap_evolves (heap w) (heap w')
      ∧ op_named (heap w') new_op'
      ∧ (total' - executable_count new_op' = total - executable_count new_op)%Z.
Proof.
  induction items as [|[key raw] rest IH]; intros new_op total w Hnd Hfresh Hop; simpl.
  - exists new_op, total, w. repeat split; [apply heap_evolves_refl | done].
  - apply NoDup_cons in Hnd as [Hkey Hnd]. simpl in Hkey.
    rewrite bind_run, subst_locale_run.
    pose proof (subst_locale_loop_evolves (ambient_locale (gs w)) (py_iter raw)
                  (ambient_locale_nonempty _) (heap w)) as Hev.
    pose proof (subst_locale_loop_named (ambient_locale (gs w)) (py_iter raw)
                  (ambient_locale_nonempty _) (heap w)) as Hnamed.
    destruct (subst_locale_loop (ambient_locale (gs w)) (heap w) (py_iter raw))
      as [h1 localized]. simpl in Hev, Hnamed. cbn [fst snd].
    assert (Hset : ∀ v, dict_set new_op key v = new_op ++ [(key, v)]).
    { intros v. apply dict_set_fresh, Hfresh. simpl. by left. }
    assert (Hfresh' : ∀ v k, k ∈ rest.*1 → dict_get (new_op ++ [(key, v)]) k = None).
    { intros v k Hk. rewrite dict_get_snoc, Hfresh by (simpl; by right).
      destruct (String.eqb_spec key k) as [->|]; done. }
    pose proof (is_executable_key_split key) as Hexec.
    destruct (Pkgcheck.is_filter_key key) eqn:Hfk.
    + rewrite bind_run.
      destruct (filter_operation_list_run key localized repo_pkgs repo_groups
                  (set_heap h1 w)) as (w2 & -> & Hh2 & Hg2 & _).
      simpl in Hh2, Hg2. rewrite Hset.
      destruct (IH (new_op ++ [(key, PList (List.filter (keeps h1 repo_pkgs repo_groups) localized))])
                  (total + Z.of_nat (length (List.filter (keeps h1 repo_pkgs repo_groups) localized)))%Z
                  w2 Hnd (Hfresh' _)) as (new_op' & total' & w' & Hrun & Hg & Hev' & Hop' & Htot).
      { rewrite Hh2. apply op_named_snoc; [by eapply op_named_evolves|].
        rewrite Hfk. apply keeps_named. }
      exists new_op', total', w'. split; [exact Hrun|].
      split; [congruence|]. split.
      { eapply heap_evolves_trans; [exact Hev|]. by rewrite <- Hh2. }
      split; [done|].
      rewrite Htot, executable_count_app. unfold executable_count at 2. simpl.
      rewrite Hexec. simpl. lia.
    + destruct (String.eqb key "localInstall") eqn:Hli.
      * rewrite Hset.
        destruct (IH (new_op ++ [(key, PList localized)])
                    (total + Z.of_nat (length localized))%Z
                    (set_heap h1 w) Hnd (Hfresh' _))
          as (new_op' & total' & w' & Hrun & Hg & Hev' & Hop' & Htot).
        { simpl. apply op_named_snoc; [by eapply op_named_evolves|]. by rewrite Hfk. }
        exists new_op', total', w'. split; [exact Hrun|].
        split; [done|]. split.
        { eapply heap_evolves_trans; [exact Hev|]. exact Hev'. }
        split; [done|].
        rewrite Htot, executable_count_app. unfold executable_count at 2. simpl.
        rewrite Hexec. simpl. lia.
      * rewrite Hset.
        destruct (IH (new_op ++ [(key, PList localized)]) total
                    (set_heap h1 w) Hnd (Hfresh' _))
          as (new_op' & total' & w' & Hrun & Hg & Hev' & Hop' & Htot).
        { simpl. apply op_named_snoc; [by eapply op_named_evolves|]. by rewrite Hfk. }
        exists new_op', total', w'. split; [exact Hrun|].
        split; [done|]. split.
        { eapply heap_evolves_trans; [exact Hev|]. exact Hev'. }
        split; [done|].
        rewrite Htot, executable_count_app. unfold executable_count at 2. simpl.
        rewrite Hexec. simpl. lia.
Qed.

Lemma preprocess_loop_spec (operations : list operation) :
  ∀ (new_ops : list operation) (total : Z) (w : world),
    Forall dict_wf operations →
    Forall (op_named (heap w)) new_ops →
    ∃ new_ops' total' w',
      Pkgcheck.preprocess_loop subst_locale repo_pkgs repo_groups operations new_ops total w
        = (Ok (new_ops', total'), w')
      ∧ gs w' = gs w
      ∧ heap_evolves (heap w) (heap w')
      ∧ Forall (op_named (heap w')) new_ops'
      ∧ (total' - total_executable new_ops' = total - total_executable new_ops)%Z.
Proof.
  induction operations as [|op rest IH]; intros new_ops total w Hwf Hops; simpl.
  - exists new_ops, total, w. repeat split; [apply heap_evolves_refl | done].
  - apply Forall_cons in Hwf as [Hop Hwf].
    rewrite bind_run.
    destruct (preprocess_items_spec op [] total w Hop)
      as (new_op & total1 & w1 & -> & Hg1 & Hev1 & Hnamed1 & Htot1).
    { done. }
    { intros key v Hin. by apply elem_of_nil in Hin. }
    destruct (IH (if Pkgcheck.any_nonempty_list new_op then new_ops ++ [new_op] else new_ops)
                total1 w1 Hwf)
      as (new_ops' & total' & w' & Hrun & Hg & Hev & Hnamed & Htot).
    { destruct (Pkgcheck.any_nonempty_list new_op).
      - apply Forall_app. split; [|by constructor].
        eapply Forall_impl; [exact Hops|]. intros o. by apply op_named_evolves.
      - eapply Forall_impl; [exact Hops|]. intros o. by apply op_named_evolves. }
    exists new_ops', total', w'. split; [exact Hrun|].
    split; [congruence|]. split; [by eapply heap_evolves_trans|]. split; [done|].
    rewrite Htot. unfold executable_count in Htot1 at 2. simpl in Htot1.
    destruct (Pkgcheck.any_nonempty_list new_op) eqn:Hany.
    + rewrite total_executable_app. simpl. lia.
    + pose proof (any_nonempty_false _ _ Hnamed1 Hany). lia.
Qed.
End preprocess.

(** *** Substitution on templates *)

Lemma contains_dollar_cons c t :
  Py.contains "$" (String c t) = Ascii.eqb c "$" || Py.contains "$" t.
Proof.
  cbn [Py.contains String.prefix]. destruct (ascii_dec "$" c) as [<-|Hne].
  - by destruct t.
  - destruct (Ascii.eqb_spec c "$") as [->|_]; [done|]. done.
Qed.

Lemma no_dollar_cons c t : no_dollar (String c t) ↔ c ≠ "$"%char ∧ no_dollar t.
Proof.
  unfold no_dollar. rewrite contains_dollar_cons, orb_false_iff.
  destruct (Ascii.eqb_spec c "$"); intuition congruence.
Qed.

Lemma no_dollar_app a b : no_dollar (a ++ b)%string ↔ no_dollar a ∧ no_dollar b.
Proof.
  induction a as [|c a IH].
  - unfold no_dollar at 2. simpl. intuition.
  - change (String c a ++ b)%string with (String c (a ++ b)%string).
    rewrite !no_dollar_cons, IH. intuition.
Qed.

Lemma no_dollar_no_token s r : no_dollar s → Py.contains (String "$" r) s = false.
Proof.
  induction s as [|c s IH]; intros H.
  - done.
  - apply no_dollar_cons in H as [Hc Hs]. cbn [Py.contains String.prefix].
    destruct (ascii_dec "$" c) as [<-|_]; [done|]. simpl. by apply IH.
Qed.

Lemma pattern_match_plain c t : c ≠ "$"%char → Py.pattern_match (String c t) = None.
Proof.
  intros Hc. simpl. destruct (Ascii.eqb_spec c "$"); [done|]. done.
Qed.

Lemma sub_no_dollar locale s : no_dollar s → Py.sub locale s 0 = s.
Proof.
  induction s as [|c s IH]; intros H; [done|].
  apply no_dollar_cons in H as [Hc Hs].
  cbn [Py.sub]. rewrite pattern_match_plain by done. by rewrite IH.
Qed.

Lemma template_tok ps :
  template (Tok :: ps)
  = String "$" (String "{" (String "L" (String "O" (String "C" (String "A"
      (String "L" (String "E" (String "}" (template ps))))))))).
Proof. reflexivity. Qed.

Lemma sub_template locale ps :
  Forall plain ps → Py.sub locale (template ps) 0 = instance locale ps.
Proof.
  induction ps as [|[c|] ps IH]; intros Hps; [done|..].
  - apply Forall_cons in Hps as [Hc Hps]. cbn [template instance Py.sub].
    rewrite pattern_match_plain by (intros ->; by apply Hc).
    by rewrite IH.
  - apply Forall_cons in Hps as [_ Hps]. rewrite template_tok.
    cbn [instance]. rewrite <- IH by done. reflexivity.
Qed.

Lemma no_dollar_instance locale ps :
  no_dollar locale → Forall plain ps → no_dollar (instance locale ps).
Proof.
  intros HL. induction ps as [|[c|] ps IH]; intros Hps; [done|..].
  - apply Forall_cons in Hps as [Hc Hps]. simpl. apply no_dollar_cons.
    split; [|by apply IH]. intros ->. by apply Hc.
  - apply Forall_cons in Hps as [_ Hps]. simpl. apply no_dollar_app. auto.
Qed.

Lemma resolve_template locale name name' :
  String.eqb locale "en" = false → no_dollar locale →
  is_template name → resolve_name locale name = Some name' → no_dollar name'.
Proof.
  intros Hen HL (ps & Hps & ->). unfold resolve_name. rewrite Hen. simpl.
  intros [= <-]. unfold Py.safe_substitute. rewrite sub_template by done.
  by apply no_dollar_instance.
Qed.

Lemma resolve_no_dollar locale name name' :
  String.eqb locale "en" = false →
  no_dollar name → resolve_name locale name = Some name' → name' = name.
Proof.
  intros Hen Hn. unfold resolve_name. rewrite Hen. simpl.
  intros [= <-]. by apply sub_no_dollar.
Qed.

Lemma no_dollar_is_template name : no_dollar name → is_template name.
Proof.
  induction name as [|c t IH]; intros H.
  - exists []. done.
  - apply no_dollar_cons in H as [Hc Ht]. destruct (IH Ht) as (ps & Hps & ->).
    exists (Lit c :: ps). split; [|done]. constructor; [|done]. intros [= ->]. done.
Qed.

Section other_locale.
Variable locale : string.
Hypothesis not_en : String.eqb locale "en" = false.

(** A name without [$] is left alone, however often its entry is met. *)
Lemma loop_keeps_resolved plist :
  ∀ h a n, h !! a ≫= package = Some n → no_dollar n →
    (subst_locale_loop locale h plist).1 !! a ≫= package = Some n.
Proof.
  induction plist as [|item rest IH]; intros h a n Hn Hnd; simpl; [done|].
  destruct (packagename_of h item) as [name|] eqn:Hname; simpl; [|by apply IH].
  destruct (resolve_name locale name) as [name'|] eqn:Hres; [|by apply IH].
  destruct item as [s|b].
  - specialize (IH h a n Hn Hnd). by destruct (subst_locale_loop locale h rest).
  - specialize (IH (alter (set_package name') b h) a n).
    destruct (subst_locale_loop locale _ rest). simpl in *. apply IH; [|done].
    destruct (decide (b = a)) as [->|Hba].
    + rewrite Hn in Hname. injection Hname as <-.
      rewrite (resolve_no_dollar locale n name' not_en Hnd Hres).
      rewrite lookup_alter_eq. destruct (h !! a); [|done]. done.
    + by rewrite lookup_alter_ne.
Qed.

Hypothesis locale_plain : no_dollar locale.

Lemma loop_resolves_templates plist :
  ∀ h,
    Forall (λ item, ∀ n, packagename_of h item = Some n → is_template n) plist →
    Forall (λ item, ∃ n, packagename_of (subst_locale_loop locale h plist).1 item = Some n
                         ∧ no_dollar n)
      (subst_locale_loop locale h plist).2.
Proof.
  induction plist as [|item rest IH]; intros h Hall; simpl; [done|].
  apply Forall_cons in Hall as [Hitem Hrest].
  destruct (packagename_of h item) as [name|] eqn:Hname; simpl; [|by apply IH].
  destruct (resolve_name locale name) as [name'|] eqn:Hres; [|by apply IH].
  pose proof (resolve_template locale name name' not_en locale_plain (Hitem _ eq_refl) Hres)
    as Hnd.
  destruct item as [s|a].
  - specialize (IH h Hrest). destruct (subst_locale_loop locale h rest). simpl in *.
    constructor; [|done]. exists name'. done.
  - assert (Hnew : alter (set_package name') a h !! a ≫= package = Some name').
    { rewrite lookup_alter_eq. simpl in Hname. destruct (h !! a); [|done]. done. }
    pose proof (loop_keeps_resolved rest _ a name' Hnew Hnd) as Hkeep.
    specialize (IH (alter (set_package name') a h)).
    destruct (subst_locale_loop locale _ rest). simpl in *.
    constructor; [by exists name'|]. apply IH.
    eapply Forall_impl; [exact Hrest|]. intros [s|b] Hb n Hn; simpl in *.
    + by apply Hb.
    + destruct (decide (a = b)) as [<-|Hab].
      * rewrite Hnew in Hn. injection Hn as <-. by apply no_dollar_is_template.
      * rewrite lookup_alter_ne in Hn by done. by apply Hb.
Qed.
End other_locale.

(** *** The default locale *)

Lemma set_package_same d n : package d = Some n → set_package n d = d.
Proof. destruct d. simpl. by intros ->. Qed.

Lemma loop_en plist :
  ∀ h, (subst_locale_loop "en" h plist).1 = h
       ∧ Forall (λ item, item ∈ plist ∧
                   ∃ n, packagename_of h item = Some n ∧ Py.contains "LOCALE" n = false)
           (subst_locale_loop "en" h plist).2.
Proof.
  induction plist as [|item rest IH]; intros h; simpl; [done|].
  assert (Hweak : Forall (λ item0, item0 ∈ rest ∧
              ∃ n, packagename_of h item0 = Some n ∧ Py.contains "LOCALE" n = false)
            (subst_locale_loop "en" h rest).2 →
          Forall (λ item0, item0 ∈ item :: rest ∧
              ∃ n, packagename_of h item0 = Some n ∧ Py.contains "LOCALE" n = false)
            (subst_locale_loop "en" h rest).2).
  { intros H. eapply Forall_impl; [exact H|]. intros x [Hx Hn]. split; [by right|done]. }
  destruct (IH h) as [Hh Hret].
  destruct (packagename_of h item) as [name|] eqn:Hname; simpl; [|by auto].
  unfold resolve_name. simpl.
  destruct (Py.contains "LOCALE" name) eqn:Hc; [by auto|].
  destruct item as [s|a].
  - destruct (subst_locale_loop "en" h rest). simpl in *.
    injection Hname as <-. split; [done|]. constructor; [|by auto].
    split; [by left|]. by exists s.
  - assert (alter (set_package name) a h = h) as ->.
    { apply map_eq. intros b. destruct (decide (a = b)) as [<-|Hab].
      - rewrite lookup_alter_eq. simpl in Hname. destruct (h !! a) as [d|]; [|done].
        simpl in *. by rewrite set_package_same.
      - by rewrite lookup_alter_ne. }
    destruct (subst_locale_loop "en" h rest). simpl in *.
    split; [done|]. constructor; [|by auto].
    split; [by left|]. exists name. done.
Qed.

(** *** What the resolver does to the heap *)

Lemma loop_frame locale plist :
  ∀ h a, EDict a ∉ plist → (subst_locale_loop locale h plist).1 !! a = h !! a.
Proof.
  induction plist as [|item rest IH]; intros h a Ha; simpl; [done|].
  apply not_elem_of_cons in Ha as [Hne Ha].
  destruct (packagename_of h item ≫= resolve_name locale) as [name'|]; [|by apply IH].
  destruct item as [s|b].
  - specialize (IH h a Ha). by destruct (subst_locale_loop locale h rest).
  - specialize (IH (alter (set_package name') b h) a Ha).
    destruct (subst_locale_loop locale _ rest). simpl in *. rewrite IH.
    apply lookup_alter_ne. congruence.
Qed.

(** *** Computations that leave an observation of the world alone *)

Section preserves.
Context {B : Type} (f : world → B).

Lemma preserves_ret {A} (a : A) : preserves f (mret a).
Proof. done. Qed.

Lemma preserves_bind {A C} (m : M A) (k : A → M C) :
  preserves f m → (∀ a, preserves f (k a)) → preserves f (m ≫= k).
Proof.
  intros Hm Hk w. rewrite bind_run. specialize (Hm w).
  destruct (m w) as [[a| |] w1]; simpl in *; [|done..].
  by rewrite Hk.
Qed.

Lemma preserves_get : preserves f get.
Proof. done. Qed.

Lemma preserves_raise {A} e : preserves f (raise (A := A) e).
Proof. done. Qed.

Lemma preserves_out_of_fuel {A} : preserves f (out_of_fuel (A := A)).
Proof. done. Qed.

Lemma preserves_modify (g : world → world) :
  (∀ w, f (g w) = f w) → preserves f (modify g).
Proof. intros Hg w. apply Hg. Qed.

Lemma preserves_try_except {A} (m : M A) (h : exn → option (M A)) :
  preserves f m → (∀ e k, h e = Some k → preserves f k) → preserves f (try_except m h).
Proof.
  intros Hm Hh w. unfold try_except. specialize (Hm w).
  destruct (m w) as [[a|e|] w1]; simpl in *; [done| |done].
  destruct (h e) as [k|] eqn:He; [|done]. by rewrite (Hh e k He).
Qed.

Lemma preserves_for_each {A} (l : list A) (body : A → M unit) :
  (∀ x, preserves f (body x)) → preserves f (for_each l body).
Proof.
  intros Hb. induction l as [|x l IH]; simpl; [done|].
  apply preserves_bind; [apply Hb|]. intros _. exact IH.
Qed.
End preserves.

(** One syntax-directed step, and the closing of the leaves. *)
Ltac preserves_step :=
  lazymatch goal with
  | |- preserves _ (mret _) => apply preserves_ret
  | |- preserves _ (_ ≫= _) => apply preserves_bind; [|intros]
  | |- preserves _ get => apply preserves_get
  | |- preserves _ (raise _) => apply preserves_raise
  | |- preserves _ out_of_fuel => apply preserves_out_of_fuel
  | |- preserves _ (modify _) => apply preserves_modify; intros; reflexivity
  | |- preserves _ (warning _) => apply preserves_modify; intros; reflexivity
  | |- preserves _ (debug _) => apply preserves_modify; intros; reflexivity
  | |- preserves _ (log_event _) => apply preserves_modify; intros; reflexivity
  | |- preserves _ (for_each _ _) => apply preserves_for_each; intros
  | |- preserves _ (try_except _ _) =>
      apply preserves_try_except; [|intros [] ? [=]; subst]
  | |- preserves _ (if ?b then _ else _) => destruct b
  | |- preserves _ (match ?x with _ => _ end) => destruct x
  | |- preserves _ (let '(_, _) := ?x in _) => destruct x
  end.

Ltac preserves_auto := repeat (preserves_step; try assumption).

Lemma preserves_divisions_spawn cmd : preserves divisions (spawn cmd).
Proof. done. Qed.

Lemma preserves_divisions_setprogress q : preserves divisions (setprogress q).
Proof. done. Qed.

Lemma preserves_divisions_subst_locale v : preserves divisions (subst_locale v).
Proof. intros w. by rewrite subst_locale_run. Qed.

Lemma preserves_divisions_pacman_line_cb line : preserves divisions (Pacman.line_cb line).
Proof.
  unfold Pacman.line_cb. preserves_auto. apply preserves_divisions_setprogress.
Qed.

Lemma preserves_divisions_target cmd cb :
  (∀ f line, cb = Some f → preserves divisions (f line)) →
  preserves divisions (target_env_process_output cmd cb).
Proof.
  intros Hcb. unfold target_env_process_output.
  apply preserves_bind; [apply preserves_divisions_spawn|]. intros o.
  preserves_auto. by apply Hcb.
Qed.

Lemma preserves_divisions_run_pacman_nocb self cmd :
  preserves divisions (Pacman.run_pacman self cmd false).
Proof.
  unfold Pacman.run_pacman. generalize 0%Z.
  induction (S (Z.to_nat (Pacman.pacman_num_retries self + 1))) as [|fuel IH];
    intros count; simpl.
  - apply preserves_out_of_fuel.
  - destruct (count <=? Pacman.pacman_num_retries self)%Z; [|apply preserves_ret].
    apply preserves_try_except.
    + apply preserves_divisions_target. intros f line [=].
    + intros e k He. destruct e; try done. injection He as <-.
      destruct (count + 1 <=? Pacman.pacman_num_retries self)%Z;
        [apply IH | apply preserves_raise].
Qed.

Lemma preserves_divisions_filter key items pkgs groups :
  preserves divisions (Pkgcheck.filter_operation_list key items pkgs groups).
Proof.
  intros w. destruct (filter_operation_list_run key items pkgs groups w)
    as (w' & -> & H). simpl. apply H.
Qed.

Lemma preserves_divisions_preprocess_items pkgs groups items :
  ∀ new_op total,
    preserves divisions
      (Pkgcheck.preprocess_items subst_locale pkgs groups items new_op total).
Proof.
  induction items as [|[key raw] rest IH]; intros new_op total; simpl.
  - apply preserves_ret.
  - apply preserves_bind; [apply preserves_divisions_subst_locale|]. intros localized.
    destruct (Pkgcheck.is_filter_key key).
    + apply preserves_bind; [apply preserves_divisions_filter|]. intros. apply IH.
    + destruct (String.eqb key "localInstall"); apply IH.
Qed.

Lemma preserves_divisions_preprocess pkgs groups ops :
  preserves divisions (Pkgcheck.preprocess_operations ops subst_locale pkgs groups).
Proof.
  unfold Pkgcheck.preprocess_operations. generalize (@nil operation) 0%Z.
  induction ops as [|op rest IH]; intros new_ops total; simpl.
  - apply preserves_ret.
  - apply preserves_bind; [apply preserves_divisions_preprocess_items|].
    intros [new_op total']. apply IH.
Qed.

Lemma preserves_divisions_capture cmd :
  preserves divisions (Pkgcheck._target_env_capture_lines cmd).
Proof.
  unfold Pkgcheck._target_env_capture_lines.
  apply preserves_bind; [apply preserves_divisions_spawn|]. intros o. preserves_auto.
Qed.

Lemma preserves_divisions_pacman_prepare cfg :
  preserves divisions (Pacman.prepare cfg).
Proof.
  unfold Pacman.prepare, unless_returned, Pacman.init, Pacman.update_db,
    Pacman.update_system, Pacman.command_failed, log_failure,
    Pkgcheck.build_repo_index.
  destruct (negb _); [apply preserves_ret|].
  apply preserves_bind; [apply preserves_get|]. intros w0.
  destruct (_ && _); [preserves_auto|].
  repeat first
    [ apply preserves_divisions_run_pacman_nocb
    | apply preserves_divisions_capture
    | apply preserves_divisions_preprocess
    | preserves_step ].
Qed.

Lemma preserves_divisions_pacstrap_line_cb line : preserves divisions (Pacstrap.line_cb line).
Proof.
  unfold Pacstrap.line_cb.
  repeat first [ apply preserves_divisions_setprogress
               | preserves_step
               | (intros w; reflexivity) ].
Qed.

Lemma preserves_divisions_run_in_host cmd :
  preserves divisions (Pacstrap.run_in_host cmd Pacstrap.line_cb).
Proof.
  unfold Pacstrap.run_in_host.
  apply preserves_bind; [apply preserves_divisions_spawn|]. intros o.
  repeat first [ apply preserves_divisions_pacstrap_line_cb | preserves_step ].
Qed.

Lemma preserves_divisions_host_capture cmd :
  preserves divisions (Pacstrap._host_capture_lines cmd).
Proof.
  unfold Pacstrap._host_capture_lines.
  apply preserves_bind; [apply preserves_divisions_spawn|]. intros o. preserves_auto.
Qed.

Lemma preserves_divisions_pacstrap_prepare hst cfg :
  preserves divisions (Pacstrap.prepare hst cfg).
Proof.
  unfold Pacstrap.prepare, Pacstrap.augment, Pacstrap._maybe_sync_db_host,
    Pacstrap._has_internet, Pacstrap._build_repo_index_host.
  repeat first
    [ apply preserves_divisions_run_in_host
    | apply preserves_divisions_host_capture
    | apply preserves_divisions_filter
    | preserves_step ].
Qed.

(** Claim C9.  When preprocessing leaves a total of zero, the pacman
    module's [run] returns [None] without running a command or pushing a
    progress value after preprocessing, and the pacstrap module's [run], when
    the filtered package list is empty, returns [None] after marking the
    system online and pushing progress 1.0 without running [pacstrap]; in
    both cases no quotient [completed / total] is computed during the
    run. *)
Theorem zero_total_returns_at_once :
  (∀ cfg w pkgman operations w1,
     Pacman.prepare cfg w = (Ok (inr (pkgman, operations, 0%Z)), w1) →
     ∃ w', Pacman.run cfg w = (Ok JobNone, w')
           ∧ invoked w' = invoked w1 ∧ progress w' = progress w1
           ∧ total_packages w' = 0%Z ∧ divisions w' = divisions w)
  ∧ (∀ hst cfg w root_mount_point w1,
       Pacstrap.prepare hst cfg w = (Ok (inr (root_mount_point, [])), w1) →
       ∃ w', Pacstrap.run hst cfg w = (Ok JobNone, w')
             ∧ invoked w' = invoked w1 ∧ progress w' = 1%Q :: progress w1
             ∧ gs_online w' = true ∧ divisions w' = divisions w).
Proof.
  split.
  - intros cfg w pkgman operations w1 Hprep.
    pose proof (preserves_divisions_pacman_prepare cfg w) as Hdiv.
    unfold Pacman.run. rewrite bind_run, Hprep. rewrite Hprep in Hdiv. simpl in Hdiv.
    unfold Pacman.dispatch. simpl. eexists. split; [reflexivity|]. by rewrite <- Hdiv.
  - intros hst cfg w root_mount_point w1 Hprep.
    pose proof (preserves_divisions_pacstrap_prepare hst cfg w) as Hdiv.
    unfold Pacstrap.run. rewrite bind_run, Hprep. rewrite Hprep in Hdiv. simpl in Hdiv.
    unfold Pacstrap.install, Pacstrap.finish. simpl. eexists. split; [reflexivity|].
    by rewrite <- Hdiv.
Qed.

(** *** How a computation ends *)

Section ends.
Context {A : Type}.

Lemma ends_ret (Q : A → Prop) P a : Q a → ends Q P (mret a).
Proof. intros H w. exact H. Qed.

Lemma ends_raise (Q : A → Prop) (P : exn → Prop) e : P e → ends Q P (raise e).
Proof. intros H w. exact H. Qed.

Lemma ends_weaken (Q Q' : A → Prop) (P P' : exn → Prop) m :
  ends Q P m → (∀ a, Q a → Q' a) → (∀ e, P e → P' e) → ends Q' P' m.
Proof.
  intros H HQ HP w. specialize (H w). destruct (m w) as [[a|e|] w']; simpl in *; auto.
Qed.

Lemma ends_bind {C} (Q1 : C → Prop) (Q : A → Prop) P (m : M C) (k : C → M A) :
  ends Q1 P m → (∀ c, Q1 c → ends Q P (k c)) → ends Q P (m ≫= k).
Proof.
  intros Hm Hk w. rewrite bind_run. specialize (Hm w).
  destruct (m w) as [[c|e|] w1]; simpl in *; [|done..].
  by apply Hk.
Qed.

Lemma ends_try_except (Q : A → Prop) (P1 P : exn → Prop) m h :
  ends Q P1 m →
  (∀ e, P1 e → match h e with Some k => ends Q P k | None => P e end) →
  ends Q P (try_except m h).
Proof.
  intros Hm Hh w. unfold try_except. specialize (Hm w).
  destruct (m w) as [[a|e|] w1]; simpl in *; [done| |done].
  specialize (Hh e Hm). destruct (h e) as [k|]; [apply Hh | exact Hh].
Qed.

(** A computation that ends with a value and nothing else returns. *)
Lemma ends_returns (Q : A → Prop) m :
  ends Q nothing m → ∀ w, ∃ a w', m w = (Ok a, w') ∧ Q a.
Proof.
  intros H w. specialize (H w). destruct (m w) as [[a|e|] w']; simpl in *; [|done..].
  eauto.
Qed.
End ends.

Lemma ends_no_exception {A} (Q : A → Prop) P m : ends Q nothing m → ends Q P m.
Proof. intros H. eapply ends_weaken; [exact H| |]; [auto | intros e []]. Qed.

Lemma ends_any_exception {A} (Q : A → Prop) P m : ends Q P m → ends Q anything m.
Proof. intros H. eapply ends_weaken; [exact H| |]; [auto | done]. Qed.

Lemma ends_then {A C} (Q : A → Prop) P (m : M C) (k : M A) :
  ends anything P m → ends Q P k → ends Q P (m ;; k).
Proof. intros Hm Hk. eapply ends_bind; [exact Hm|]. intros _ _. exact Hk. Qed.

Lemma ends_for_each {A} P (l : list A) (body : A → M unit) :
  (∀ x, ends anything P (body x)) → ends anything P (for_each l body).
Proof.
  intros Hb. induction l as [|x l IH]; simpl; [by apply ends_ret|].
  apply ends_then; [apply Hb | exact IH].
Qed.

Lemma ends_modify (Q : unit → Prop) P g : Q tt → ends Q P (modify g).
Proof. intros H w. exact H. Qed.

Lemma ends_get (Q : world → Prop) P : (∀ w, Q w) → ends Q P get.
Proof. intros H w. apply H. Qed.

(** One syntax-directed step for goals whose value does not matter. *)
Ltac ends_step :=
  lazymatch goal with
  | |- ends _ _ (mret _) => apply ends_ret; try exact I
  | |- ends _ _ (raise _) => apply ends_raise; try exact I
  | |- ends _ _ (_ ≫= _) => eapply (ends_bind anything); [|intros ? _]
  | |- ends _ _ get => apply ends_get; intros; exact I
  | |- ends _ _ (modify _) => apply ends_modify; exact I
  | |- ends _ _ (warning _) => apply ends_modify; exact I
  | |- ends _ _ (debug _) => apply ends_modify; exact I
  | |- ends _ _ (log_event _) => apply ends_modify; exact I
  | |- ends _ _ (setprogress _) => apply ends_modify; exact I
  | |- ends _ _ (for_each _ _) => apply ends_for_each; intros
  | |- ends _ _ (if ?b then _ else _) => destruct b
  | |- ends _ _ (match ?x with _ => _ end) => destruct x
  end.

(** *** Steps that are shared *)

Lemma ends_subst_locale P v : ends anything P (subst_locale v).
Proof. intros w. by rewrite subst_locale_run. Qed.

Lemma ends_push_fraction P : ends anything P push_fraction.
Proof.
  intros w. unfold push_fraction. rewrite bind_run. unfold get at 1.
  destruct (Z.ltb_spec 0 (total_packages w)) as [Hpos|_]; [|done].
  rewrite bind_run. unfold truediv.
  destruct (Z.eqb_spec (total_packages w) 0) as [Hz|_]; [lia|]. done.
Qed.

Lemma ends_change_mode P m : ends anything P (_change_mode m).
Proof. unfold _change_mode. apply ends_then; [ends_step | apply ends_push_fraction]. Qed.

Lemma ends_spawn P cmd : ends anything P (spawn cmd).
Proof. intros w. done. Qed.

Lemma ends_target cmd cb :
  (∀ f line, cb = Some f → ends anything nothing (f line)) →
  ends anything called_process_error (target_env_process_output cmd cb).
Proof.
  intros Hcb. unfold target_env_process_output.
  eapply (ends_bind anything); [apply ends_spawn|]. intros o _.
  apply ends_then.
  - destruct cb as [f|]; [|by apply ends_ret].
    apply ends_for_each. intros line.
    apply ends_no_exception. by apply Hcb.
  - destruct (out_rc o =? 0)%Z; [by apply ends_ret | by apply ends_raise].
Qed.

Lemma ends_run_script script : ends anything called_process_error (_run_script script).
Proof.
  unfold _run_script, check_target_env_call.
  destruct (Py.truthy script); [|by apply ends_ret].
  apply ends_target. intros f line [=].
Qed.

(** The dispatcher of one operation, for a manager whose methods return. *)
Lemma ends_run_operations (pkgman : PackageManager) P entry :
  (∀ l b, ends anything P (operation_install l b)) →
  (∀ l, ends anything P (operation_try_install l)) →
  (∀ l, ends anything P (operation_remove l)) →
  (∀ l, ends anything P (operation_try_remove l)) →
  ends anything P (run_operations pkgman entry).
Proof.
  intros Hi Hti Hr Htr. unfold run_operations, run_operation_key.
  repeat first
    [ apply ends_subst_locale | apply ends_push_fraction | apply ends_change_mode
    | apply Hi | apply Hti | apply Hr | apply Htr
    | ends_step ].
Qed.

(** *** The paru manager never raises *)

Lemma ends_paru_line_cb P line : ends anything P (Paru.line_cb line).
Proof. unfold Paru.line_cb. repeat ends_step. Qed.

Lemma ends_paru_reset_progress P : ends anything P Paru.reset_progress.
Proof.
  intros w. unfold Paru.reset_progress. rewrite bind_run. unfold modify at 1.
  rewrite bind_run. unfold get at 1. cbn [total_packages set_in_package_changes].
  destruct (Z.ltb_spec 0 (total_packages w)) as [Hpos|_]; [|done].
  rewrite bind_run. unfold truediv. cbn [total_packages set_in_package_changes].
  destruct (Z.eqb_spec (total_packages w) 0) as [Hz|_]; [lia|]. done.
Qed.

Lemma ends_paru_target cmd (callback : bool) :
  ends anything called_process_error
    (target_env_process_output cmd (if callback then Some Paru.line_cb else None)).
Proof.
  apply ends_target. intros f line Hf. destruct callback; [|done].
  injection Hf as <-. apply ends_paru_line_cb.
Qed.

Lemma ends_threaded_call cmd callback :
  ends anything nothing (Paru.threaded_call cmd callback).
Proof.
  unfold Paru.threaded_call.
  eapply (ends_bind anything); [apply ends_spawn|]. intros o _.
  eapply (ends_bind anything); [|intros; by apply ends_ret].
  eapply (ends_try_except _ anything).
  - apply ends_then.
    + destruct callback; [|by apply ends_ret].
      apply ends_for_each. intros. apply ends_paru_line_cb.
    + destruct (out_rc o =? 0)%Z; [by apply ends_ret | by apply ends_raise].
  - intros e _. by apply ends_ret.
Qed.

Lemma ends_one_attempt self cmd callback :
  ends anything nothing (Paru.one_attempt self cmd callback).
Proof.
  unfold Paru.one_attempt. eapply (ends_try_except _ called_process_error).
  - destruct (Paru.paru_timeout self =? 0)%Z.
    + apply ends_then; [apply ends_paru_target | by apply ends_ret].
    + eapply (ends_bind anything).
      { apply ends_no_exception, ends_threaded_call. }
      intros th _. destruct (th.1 : bool).
      * apply ends_then; [ends_step|]. apply ends_then; [|by apply ends_ret].
        eapply (ends_try_except _ called_process_error).
        -- apply ends_target. intros f line [=].
        -- intros e _. by apply ends_ret.
      * destruct th.2; by apply ends_ret.
  - intros e He. destruct e; first [done | by apply ends_ret].
Qed.

Lemma ends_exhausted cmd last_exc : ends anything nothing (Paru.exhausted cmd last_exc).
Proof. unfold Paru.exhausted. repeat ends_step. Qed.

Lemma ends_run_paru_loop self cmd callback :
  ∀ fuel attempts last_exc,
    (Z.to_nat (Paru.paru_num_retries self + 1 - attempts) < fuel)%nat →
    ends anything nothing (Paru.run_paru_loop fuel self cmd callback attempts last_exc).
Proof.
  induction fuel as [|fuel IH]; intros attempts last_exc Hfuel; [lia|]. simpl.
  destruct (Z.leb_spec attempts (Paru.paru_num_retries self)) as [Hle|_];
    [|apply ends_exhausted].
  eapply (ends_bind anything); [apply ends_one_attempt|]. intros a _.
  destruct a as [|e]; [by apply ends_ret|].
  destruct (Z.leb_spec (attempts + 1) (Paru.paru_num_retries self)) as [Hle'|_];
    [|apply ends_exhausted].
  apply IH. lia.
Qed.

Lemma ends_run_paru self cmd callback :
  ends anything nothing (Paru.run_paru self cmd callback).
Proof.
  unfold Paru.run_paru, Paru._set_build_env.
  apply ends_then; [ends_step|]. apply ends_run_paru_loop. lia.
Qed.

Lemma ends_paru_install P self pkgs from_local :
  ends anything P (Paru.install self pkgs from_local).
Proof.
  unfold Paru.install. apply ends_then; [apply ends_paru_reset_progress|].
  apply ends_then; [|by apply ends_ret].
  apply ends_no_exception, ends_run_paru.
Qed.

Lemma ends_paru_remove P self pkgs : ends anything P (Paru.remove self pkgs).
Proof.
  unfold Paru.remove. apply ends_then; [apply ends_paru_reset_progress|].
  apply ends_then; [|by apply ends_ret].
  apply ends_no_exception, ends_run_paru.
Qed.

Lemma ends_ignore_exception P message m :
  ends anything anything m → ends anything P (Paru.ignore_exception message m).
Proof.
  intros Hm. unfold Paru.ignore_exception. eapply ends_try_except; [exact Hm|].
  intros e _. ends_step.
Qed.

Lemma ends_package_item d : ends anything anything (Paru.package_item d).
Proof. unfold Paru.package_item. destruct (package d); [by apply ends_ret | by apply ends_raise]. Qed.

Lemma ends_run_script_any script : ends anything anything (_run_script script).
Proof. eapply ends_any_exception, ends_run_script. Qed.

Lemma ends_paru_install_package P self p from_local :
  ends anything P (Paru.install_package self p from_local).
Proof.
  unfold Paru.install_package. apply ends_ignore_exception.
  destruct p as [s|a]; [apply ends_paru_install|].
  repeat first [ apply ends_run_script_any | apply ends_package_item
               | apply ends_paru_install | ends_step ].
Qed.

Lemma ends_paru_remove_package P self p :
  ends anything P (Paru.remove_package self p).
Proof.
  unfold Paru.remove_package. apply ends_ignore_exception.
  destruct p as [s|a]; [apply ends_paru_remove|].
  repeat first [ apply ends_run_script_any | apply ends_package_item
               | apply ends_paru_remove | ends_step ].
Qed.

Lemma ends_paru_run_operations P self entry :
  ends anything P (run_operations (Paru.manager self) entry).
Proof.
  apply (ends_run_operations (Paru.manager self) P entry).
  - intros l b. apply ends_for_each. intros p. apply ends_paru_install_package.
  - intros l. apply ends_for_each. intros p. apply ends_paru_install_package.
  - intros l. apply ends_for_each. intros p. apply ends_paru_remove_package.
  - intros l. apply ends_for_each. intros p. apply ends_paru_remove_package.
Qed.

Lemma ends_paru_run_entries P self operations :
  ends anything P (Paru.run_entries self operations).
Proof.
  unfold Paru.run_entries. apply ends_for_each. intros entry.
  apply ends_then; [ends_step|]. apply ends_then; [ends_step|].
  apply ends_ignore_exception. apply ends_paru_run_operations.
Qed.

Lemma ends_ignore_cpe P message m :
  ends anything called_process_error m →
  ends anything P (Paru.ignore_called_process_error message m).
Proof.
  intros Hm. unfold Paru.ignore_called_process_error. eapply ends_try_except; [exact Hm|].
  intros e He. destruct e; first [done | ends_step].
Qed.

Lemma ends_paru_init P cfg : ends anything P (Paru.init cfg).
Proof.
  unfold Paru.init.
  repeat first [ apply ends_ignore_cpe; apply ends_target; intros f line [=]
               | ends_step ].
Qed.

Lemma ends_paru_update_db P self : ends anything P (Paru.update_db self).
Proof.
  unfold Paru.update_db. apply ends_then; [|by apply ends_ret].
  apply ends_no_exception, ends_run_paru.
Qed.

Lemma ends_paru_update_system P self : ends anything P (Paru.update_system self).
Proof.
  unfold Paru.update_system. apply ends_then; [|by apply ends_ret].
  apply ends_no_exception, ends_run_paru.
Qed.

Lemma ends_count_operation P op : ends anything P (Paru.count_operation op).
Proof.
  unfold Paru.count_operation. apply ends_for_each. intros kv.
  eapply (ends_bind anything); [apply ends_subst_locale|]. intros. ends_step.
Qed.

Lemma ends_paru_prepare cfg :
  default "paru" (Paru.cfg_backend cfg) = "paru" →
  ends goes_on nothing (Paru.prepare cfg).
Proof.
  intros Hb. unfold Paru.prepare. rewrite Hb. simpl.
  eapply (ends_bind anything); [ends_step|]. intros w0 _.
  destruct (_ && _).
  { apply ends_then; [ends_step|]. by apply ends_ret. }
  eapply (ends_bind anything); [apply ends_paru_init|]. intros pkgman _.
  apply ends_then.
  { destruct (_ && _); [apply ends_paru_update_db | by apply ends_ret]. }
  apply ends_then.
  { destruct (_ && _); [apply ends_paru_update_system | by apply ends_ret]. }
  eapply (ends_bind anything); [ends_step|]. intros w1 _.
  do 5 (apply ends_then; [ends_step|]).
  apply ends_then; [apply ends_for_each; intros; apply ends_count_operation|].
  by apply ends_ret.
Qed.

Lemma paru_dispatch_run pkgman operations w :
  ∃ w', Paru.dispatch pkgman operations w = (Ok JobNone, w')
        ∧ if (total_packages w =? 0)%Z then w' = w
          else head (progress w') = Some 1%Q.
Proof.
  unfold Paru.dispatch. rewrite bind_run. unfold get at 1.
  destruct (total_packages w =? 0)%Z; [by exists w|].
  rewrite bind_run.
  destruct (ends_returns anything _ (ends_paru_run_entries nothing pkgman operations) w)
    as ([] & w1 & -> & _).
  eexists. split; [reflexivity|]. done.
Qed.

(** Claim C3, amended.  With the paru backend configured, [run] returns
    [None] for every operation list and every behaviour of the commands, and
    never an error pair or an exception.  When the total counted for the
    paru-tagged operations is not zero, the last progress value pushed is 1.0;
    when it is zero, [run] returns at once and pushes nothing more. *)
Theorem paru_run_never_fails (cfg : Paru.configuration) (w : world) :
  default "paru" (Paru.cfg_backend cfg) = "paru" →
  ∃ w', Paru.run cfg w = (Ok JobNone, w')
        ∧ ∀ pkgman operations w1,
            Paru.prepare cfg w = (Ok (inr (pkgman, operations)), w1) →
            if (total_packages w1 =? 0)%Z then w' = w1
            else head (progress w') = Some 1%Q.
Proof.
  intros Hb. unfold Paru.run. rewrite bind_run.
  destruct (ends_returns _ _ (ends_paru_prepare cfg Hb) w) as (r & w1 & Hprep & Hr).
  rewrite Hprep. destruct r as [result|[pkgman operations]]; simpl in Hr.
  - subst result. exists w1. split; [done|]. intros ? ? ? [=].
  - destruct (paru_dispatch_run pkgman operations w1) as (w' & Hrun & Hw').
    exists w'. split; [exact Hrun|]. intros ? ? ? [= <- <- <-]. exact Hw'.
Qed.

Lemma push_fraction_run w :
  ∃ w', push_fraction w = (Ok tt, w')
        ∧ log w' = log w ∧ invoked w' = invoked w ∧ mode_packages w' = mode_packages w
        ∧ total_packages w' = total_packages w ∧ group_packages w' = group_packages w
        ∧ completed_packages w' = completed_packages w.
Proof.
  unfold push_fraction. rewrite bind_run. unfold get at 1.
  destruct (Z.ltb_spec 0 (total_packages w)) as [Hpos|_]; [|by exists w].
  rewrite bind_run. unfold truediv.
  destruct (Z.eqb_spec (total_packages w) 0) as [Hz|_]; [lia|].
  eexists. split; [reflexivity|]. done.
Qed.

(** For a key that is none of the six recognized kinds the dispatcher does
    the same whatever the manager: it calls none of its methods. *)
Lemma unknown_key_any_manager (pkgman other : PackageManager) (key : string)
    (value : pyval) (w : world) :
  key ∉ recognized_keys →
  run_operation_key pkgman key value w = run_operation_key other key value w.
Proof.
  intros Hkey. unfold run_operation_key. rewrite !bind_run, !subst_locale_run.
  repeat match goal with
         | |- context [String.eqb key ?k] =>
             destruct (String.eqb_spec key k) as [->|_];
             [exfalso; apply Hkey; unfold recognized_keys; set_solver|]
         end.
  reflexivity.
Qed.

(** Claim C1, amended.  With the manager of either module, for a key that
    is none of the six recognized kinds, the dispatcher logs the warning for
    an unknown key, calls no method of the manager, runs no command and
    leaves the mode and the total as they are; the entries the locale
    resolver returns for the key's list are counted: [group_packages] is set
    to their number and [completed_packages] is advanced by it.  That number
    is what [run] of the paru module added to the total for this key. *)
Theorem unknown_key_counted (pkgman : PackageManager) (key : string) (value : pyval)
    (w : world) :
  key ∉ recognized_keys →
  ∃ w', run_operation_key pkgman key value w = (Ok tt, w')
        ∧ (∀ other : PackageManager, run_operation_key other key value w = (Ok tt, w'))
        ∧ log w' = Warning ("Unknown package-operation key " ++ key)%string :: log w
        ∧ invoked w' = invoked w
        ∧ mode_packages w' = mode_packages w
        ∧ total_packages w' = total_packages w
        ∧ group_packages w'
          = Z.of_nat (length (subst_locale_loop (ambient_locale (gs w)) (heap w)
                                (py_iter value)).2)
        ∧ completed_packages w'
          = (completed_packages w
             + Z.of_nat (length (subst_locale_loop (ambient_locale (gs w)) (heap w)
                                   (py_iter value)).2))%Z
        ∧ total_packages (Paru.count_operation [(key, value)] w).2
          = (total_packages w
             + Z.of_nat (length (subst_locale_loop (ambient_locale (gs w)) (heap w)
                                   (py_iter value)).2))%Z.
Proof.
  intros Hkey.
  assert (Hcount : total_packages (Paru.count_operation [(key, value)] w).2
            = (total_packages w
               + Z.of_nat (length (subst_locale_loop (ambient_locale (gs w)) (heap w)
                                     (py_iter value)).2))%Z).
  { unfold Paru.count_operation. cbn [for_each fst snd].
    rewrite !bind_run, subst_locale_run. reflexivity. }
  assert (Hmain : ∃ w', run_operation_key pkgman key value w = (Ok tt, w')
            ∧ log w' = Warning ("Unknown package-operation key " ++ key)%string :: log w
            ∧ invoked w' = invoked w
            ∧ mode_packages w' = mode_packages w
            ∧ total_packages w' = total_packages w
            ∧ group_packages w'
              = Z.of_nat (length (subst_locale_loop (ambient_locale (gs w)) (heap w)
                                    (py_iter value)).2)
            ∧ completed_packages w'
              = (completed_packages w
                 + Z.of_nat (length (subst_locale_loop (ambient_locale (gs w)) (heap w)
                                       (py_iter value)).2))%Z).
  { unfold run_operation_key.
    rewrite bind_run, subst_locale_run.
    set (package_list := (subst_locale_loop _ _ _).2) in *.
    set (h' := (subst_locale_loop _ _ _).1).
    repeat match goal with
           | |- context [String.eqb key ?k] =>
               destruct (String.eqb_spec key k) as [->|_];
               [exfalso; apply Hkey; unfold recognized_keys; set_solver|]
           end.
    rewrite bind_run. unfold modify at 1. rewrite bind_run.
    unfold warning at 1, modify at 1.
    rewrite bind_run. unfold modify at 1.
    match goal with |- context [push_fraction ?w1] =>
      destruct (push_fraction_run w1) as (w' & -> & Hl & Hi & Hm & Ht & Hg & Hc) end.
    exists w'. split; [done|]. simpl in *. by rewrite Hl, Hi, Hm, Ht, Hg, Hc. }
  destruct Hmain as (w' & Hrun & Hrest).
  exists w'. split; [exact Hrun|]. split.
  { intros other. rewrite <- Hrun. by apply unknown_key_any_manager. }
  destruct Hrest as (Hl & Hi & Hm & Ht & Hg & Hc). by repeat split.
Qed.

Lemma executable_count_without_source op :
  executable_count (without_source op) = executable_count op.
Proof.
  unfold executable_count, without_source.
  induction op as [|[k v] op IH]; simpl; [done|].
  destruct (String.eqb_spec k "source") as [->|_]; simpl; by rewrite IH.
Qed.

Lemma total_executable_without_source ops :
  total_executable (without_source <$> ops) = total_executable ops.
Proof.
  unfold total_executable. induction ops as [|op ops IH]; csimpl; [done|].
  by rewrite IH, executable_count_without_source.
Qed.

(** Claim C5.  [preprocess_operations] returns, for every list of
    dictionaries, every locale and every repository index, a total equal to
    the sum of the lengths of the executable lists of the operations it
    returns; the lists under the [source] key do not count: removing them
    leaves the sum unchanged. *)
Theorem preprocess_total_count (operations : list operation)
    (repo_pkgs repo_groups : gset string) (w : world) :
  Forall dict_wf operations →
  ∃ new_ops total w',
    Pkgcheck.preprocess_operations operations subst_locale repo_pkgs repo_groups w
      = (Ok (new_ops, total), w')
    ∧ total = total_executable new_ops
    ∧ total = total_executable (without_source <$> new_ops).
Proof.
  intros Hwf. unfold Pkgcheck.preprocess_operations.
  destruct (preprocess_loop_spec repo_pkgs repo_groups operations [] 0%Z w Hwf)
    as (new_ops & total & w' & Hrun & _ & _ & _ & Htot); [done|].
  exists new_ops, total, w'. split; [exact Hrun|].
  rewrite total_executable_without_source. simpl in Htot. split; lia.
Qed.


(** *** Texts and the token *)

Lemma append_assoc (a b c : string) : ((a ++ b) ++ c)%string = (a ++ (b ++ c))%string.
Proof.
  induction a as [|x a IH]; [done|].
  change (String x ((a ++ b) ++ c)%string = String x (a ++ (b ++ c))%string).
  by rewrite IH.
Qed.

Lemma length_append (a b : string) :
  String.length (a ++ b)%string = (String.length a + String.length b)%nat.
Proof.
  induction a as [|x a IH]; [done|].
  change (S (String.length (a ++ b)%string) = S (String.length a + String.length b)).
  by rewrite IH.
Qed.

Lemma prefix_cons c x d y :
  String.prefix (String c x) (String d y)
  = if ascii_dec c d then String.prefix x y else false.
Proof. cbn [String.prefix]. by destruct (ascii_dec c d). Qed.

Lemma prefix_cons_true c x d y :
  String.prefix (String c x) (String d y) = true ↔ c = d ∧ String.prefix x y = true.
Proof.
  rewrite prefix_cons. destruct (ascii_dec c d); intuition congruence.
Qed.

Lemma prefix_empty t : String.prefix t "" = true → t = "".
Proof. by destruct t. Qed.

Lemma prefix_nil_l s : String.prefix "" s = true.
Proof. by destruct s. Qed.

Lemma prefix_app_inv t s : String.prefix t s = true → ∃ r, s = (t ++ r)%string.
Proof.
  revert s. induction t as [|c t IH]; intros s H.
  - by exists s.
  - destruct s as [|d s]; [done|]. apply prefix_cons_true in H as [-> H].
    destruct (IH s H) as [r ->]. by exists r.
Qed.

Lemma prefix_app t r : String.prefix t (t ++ r)%string = true.
Proof.
  induction t as [|c t IH]; [apply prefix_nil_l|].
  change (String.prefix (String c t) (String c (t ++ r)%string) = true).
  apply prefix_cons_true. done.
Qed.

Lemma agree_comm x y : agree x y = agree y x.
Proof. unfold agree. apply orb_comm. Qed.

Lemma agree_cons c x d y :
  agree (String c x) (String d y) = if ascii_dec c d then agree x y else false.
Proof.
  unfold agree. rewrite !prefix_cons. destruct (ascii_dec c d) as [->|Hne].
  - by destruct (ascii_dec d d).
  - destruct (ascii_dec d c) as [->|_]; done.
Qed.

(** A text that begins a concatenation agrees with its first part. *)
Lemma prefix_app_agree t a b :
  String.prefix t (a ++ b)%string = true → agree t a = true.
Proof.
  revert a. induction t as [|c t IH]; intros a H.
  - unfold agree. by rewrite prefix_nil_l.
  - destruct a as [|d a].
    + unfold agree. rewrite (prefix_nil_l (String c t)). apply orb_true_r.
    + change (String.prefix (String c t) (String d (a ++ b)%string) = true) in H.
      apply prefix_cons_true in H as [-> H]. rewrite agree_cons.
      destruct (ascii_dec d d); [|done]. by apply IH.
Qed.

Lemma overlaps_false x y u : overlaps x y = false → u ∈ endings x → agree u y = false.
Proof.
  unfold overlaps. intros H Hu.
  destruct (agree u y) eqn:Ha; [|done].
  assert (existsb (λ u, agree u y) (endings x) = true); [|congruence].
  apply existsb_exists. exists u. split; [|done]. by apply list_elem_of_In.
Qed.

Lemma endings_cons c t : endings (String c t) = String c t :: endings t.
Proof. done. Qed.

Lemma ending_itself c t : String c t ∈ endings (String c t).
Proof. rewrite endings_cons. by left. Qed.

(** *** Containment *)

Lemma contains_cons p c t :
  Py.contains p (String c t) = String.prefix p (String c t) || Py.contains p t.
Proof. done. Qed.

Lemma contains_prefix p s : String.prefix p s = true → Py.contains p s = true.
Proof. intros H. destruct s; cbn [Py.contains]; by rewrite H. Qed.

Lemma contains_app_r p a s : Py.contains p s = true → Py.contains p (a ++ s)%string = true.
Proof.
  intros H. induction a as [|c a IH]; [done|].
  change (Py.contains p (String c (a ++ s)%string) = true).
  rewrite contains_cons, IH. apply orb_true_r.
Qed.

Lemma contains_app_false p x o :
  (∀ u, u ∈ endings x → String.prefix p (u ++ o)%string = false) →
  Py.contains p o = false → Py.contains p (x ++ o)%string = false.
Proof.
  intros Hx Ho. induction x as [|c x IH]; [done|].
  change (Py.contains p (String c (x ++ o)%string) = false).
  rewrite contains_cons, IH.
  - rewrite orb_false_r. apply (Hx (String c x)), ending_itself.
  - intros u Hu. apply Hx. rewrite endings_cons. by right.
Qed.

(** An ending of a text without [$] does not begin a token. *)
Lemma ending_no_dollar x u r o :
  no_dollar x → u ∈ endings x → String.prefix (String "$" r) (u ++ o)%string = false.
Proof.
  induction x as [|c x IH]; intros Hx Hu; [by apply elem_of_nil in Hu|].
  apply no_dollar_cons in Hx as [Hc Hx].
  rewrite endings_cons in Hu. apply elem_of_cons in Hu as [->|Hu]; [|by apply IH].
  change (String.prefix (String "$" r) (String c (x ++ o)%string) = false).
  rewrite prefix_cons. destruct (ascii_dec "$" c) as [<-|]; done.
Qed.

(** *** Identifiers *)

Lemma id_char_not_dollar c : Py.id_char c = true → c ≠ "$"%char.
Proof. intros H ->. done. Qed.

Lemma id_text_no_dollar s : id_text s = true → no_dollar s.
Proof.
  induction s as [|c s IH]; [done|]. simpl. intros [Hc Hs]%andb_true_iff.
  apply no_dollar_cons. split; [by apply id_char_not_dollar | by apply IH].
Qed.

Lemma take_id_spec s :
  s = ((Py.take_id s).1 ++ (Py.take_id s).2)%string ∧ id_text (Py.take_id s).1 = true.
Proof.
  induction s as [|c s [IH1 IH2]]; [done|]. simpl.
  destruct (Py.id_char c) eqn:Hc; [|done].
  destruct (Py.take_id s) as [i r]. simpl in *. split.
  - change (String c s = String c (i ++ r)%string). by rewrite <- IH1.
  - by rewrite Hc.
Qed.

Lemma append_nil_l (s : string) : ("" ++ s)%string = s.
Proof. done. Qed.

Lemma append_cons c (a b : string) : (String c a ++ b)%string = String c (a ++ b)%string.
Proof. done. Qed.

(** *** The scan of [safe_substitute] *)

(** What a match covers is at the head of the text, and identifiers are
    made of identifier characters. *)
Lemma pattern_match_inv s m :
  Py.pattern_match s = Some m →
  ∃ rest, s = (Py.match_text m ++ rest)%string
          ∧ match m with
            | Py.Named id =>
                (∃ c i, id = String c i ∧ Py.id_start c = true) ∧ id_text id = true
            | Py.Braced id => id_text id = true
            | _ => True
            end.
Proof.
  destruct s as [|d r]; [done|]. cbn [Py.pattern_match].
  destruct (Ascii.eqb_spec d "$") as [->|]; cbn [negb]; [|done].
  intros [= <-]. destruct r as [|c r']; [by exists ""|].
  destruct (Ascii.eqb_spec c "$") as [->|]; [by exists r'|].
  destruct (Py.id_start c) eqn:Hs.
  - destruct (take_id_spec (String c r')) as [H1 H2].
    exists (Py.take_id (String c r')).2. split.
    + change (String "$" (String c r')
              = String "$" ((Py.take_id (String c r')).1 ++ (Py.take_id (String c r')).2)%string).
      by rewrite <- H1.
    + split; [|done]. cbn [Py.take_id]. unfold Py.id_char. rewrite Hs. cbn [orb].
      destruct (Py.take_id r') as [i r]. by exists c, i.
  - destruct (Ascii.eqb_spec c "{") as [->|]; [|by exists (String c r')].
    destruct (take_id_spec r') as [H1 H2].
    destruct (Py.take_id r') as [[|i id] [|e rest']];
      try (by exists (String "{" r')).
    destruct (Py.id_start i && Ascii.eqb e "}") eqn:Hb; [|by exists (String "{" r')].
    apply andb_true_iff in Hb as [_ He]. apply Ascii.eqb_eq in He as ->.
    exists rest'. split; [|done]. cbn [fst snd] in H1. rewrite H1.
    change (String "$" (String "{" (String i id ++ String "}" rest')%string)
            = String "$" (String "{" ((String i id ++ "}") ++ rest')%string)).
    by rewrite append_assoc.
Qed.

Lemma sub_skip locale a rest :
  Py.sub locale (a ++ rest)%string (String.length a) = Py.sub locale rest 0.
Proof.
  induction a as [|c a IH]; [by destruct rest|].
  rewrite append_cons. cbn [String.length Py.sub]. exact IH.
Qed.

Lemma match_text_cons m :
  ∃ a, Py.match_text m = String "$" a ∧ (Py.match_len m - 1)%nat = String.length a.
Proof.
  unfold Py.match_len. destruct m as [|id|id|].
  - by exists "$".
  - exists id. split; [done|].
    change (S (String.length id) - 1 = String.length id)%nat. lia.
  - exists (String "{" (id ++ "}")%string). split; [done|].
    change (S (String.length (String "{" (id ++ "}")%string)) - 1
            = String.length (String "{" (id ++ "}")%string))%nat. lia.
  - by exists "".
Qed.

Lemma sub_match locale m rest :
  Py.pattern_match (Py.match_text m ++ rest)%string = Some m →
  Py.sub locale (Py.match_text m ++ rest)%string 0
  = (Py.convert locale m ++ Py.sub locale rest 0)%string.
Proof.
  intros Hm. destruct (match_text_cons m) as (a & Ha & Hlen).
  rewrite Ha in Hm |- *. rewrite append_cons in Hm |- *.
  cbn [Py.sub]. rewrite Hm, Hlen, sub_skip. done.
Qed.

Lemma sub_scanned locale s : scanned locale s (Py.sub locale s 0).
Proof.
  remember (String.length s) as n eqn:Hn. revert s Hn.
  induction n as [n IH] using lt_wf_ind. intros s ->.
  destruct s as [|c t]; [constructor|].
  destruct (ascii_dec c "$") as [->|Hc].
  - destruct (Py.pattern_match (String "$" t)) as [m|] eqn:Hm; [|done].
    destruct (pattern_match_inv _ _ Hm) as (rest & Hs & _).
    assert (String.length rest < String.length (String "$" t))%nat as Hlt.
    { rewrite Hs, length_append. destruct (match_text_cons m) as (a & -> & _).
      cbn [String.length]. lia. }
    rewrite Hs in Hm |- *. rewrite (sub_match locale m rest Hm).
    apply scanned_match; [done|]. by apply (IH (String.length rest)).
  - cbn [Py.sub]. rewrite pattern_match_plain by done.
    apply scanned_char; [done|]. apply (IH (String.length t)); [|done].
    cbn [String.length]. lia.
Qed.

(** What a match writes is the locale or begins with [$]. *)
Lemma convert_cases locale m :
  Py.convert locale m = locale ∨ ∃ a, Py.convert locale m = String "$" a.
Proof.
  destruct m as [|id|id|]; cbn [Py.convert];
    try destruct (String.eqb id "LOCALE"); eauto.
Qed.

(** A text without [$] that the locale does not meet: when the output of
    a scan begins with it, so does the input. *)
Lemma scanned_prefix locale s o :
  scanned locale s o →
  ∀ t, no_dollar t → (∀ u, u ∈ endings t → agree u locale = false) →
    String.prefix t o = true → String.prefix t s = true.
Proof.
  induction 1 as [|c s o Hc Hs IH|m rest o Hm Hs IH]; intros t Ht HL Hp.
  - by apply prefix_empty in Hp as ->.
  - destruct t as [|d t]; [apply prefix_nil_l|].
    apply prefix_cons_true in Hp as [-> Hp]. apply prefix_cons_true. split; [done|].
    apply no_dollar_cons in Ht as [_ Ht]. apply IH; [done| |done].
    intros u Hu. apply HL. rewrite endings_cons. by right.
  - destruct t as [|d t]; [apply prefix_nil_l|]. exfalso.
    apply no_dollar_cons in Ht as [Hd Ht].
    destruct (convert_cases locale m) as [Hcv|[a Hcv]]; rewrite Hcv in Hp.
    + apply prefix_app_agree in Hp. rewrite HL in Hp; [done|apply ending_itself].
    + rewrite append_cons in Hp. by apply prefix_cons_true in Hp as [-> _].
Qed.

Lemma braced_id_locale id x :
  id_text id = true → String.prefix "LOCALE}" ((id ++ "}") ++ x)%string = true →
  id = "LOCALE".
Proof.
  intros Hid H.
  do 6 (destruct id as [|? id];
        [by rewrite append_nil_l, append_cons in H; apply prefix_cons_true in H as [? _]|];
        rewrite !append_cons in H; apply prefix_cons_true in H as [<- H]).
  destruct id as [|c id]; [done|].
  rewrite !append_cons in H. apply prefix_cons_true in H as [<- _].
  cbn in Hid. done.
Qed.

Lemma endings_single c u : u ∈ endings (String c "") → u = String c "".
Proof.
  rewrite endings_cons. intros [->|Hu]%elem_of_cons; [done|]. by apply elem_of_nil in Hu.
Qed.

Lemma contains_app_r_false p a s :
  Py.contains p (a ++ s)%string = false → Py.contains p s = false.
Proof.
  intros H. destruct (Py.contains p s) eqn:E; [|done].
  by rewrite contains_app_r in H.
Qed.

(** The heart of the matter: when the locale shares no text with the token
    and the input has no token behind a [$], the output has no token. *)
Lemma scanned_no_token locale s o :
  clear_of_token locale → scanned locale s o →
  Py.contains "$${LOCALE}" s = false → Py.contains "${LOCALE}" o = false.
Proof.
  intros [HL1 HL2].
  induction 1 as [|c s o Hc Hsc IH|m rest o Hm Hsc IH]; intros Hs; [done|..].
  - rewrite contains_cons in Hs |- *. apply orb_false_elim in Hs as [_ Hs].
    rewrite IH by done. rewrite orb_false_r, prefix_cons.
    destruct (ascii_dec "$" c) as [<-|]; done.
  - apply contains_app_false; [|by apply IH, (contains_app_r_false _ (Py.match_text m))].
    intros u Hu.
    destruct (String.prefix "${LOCALE}" (u ++ o)%string) eqn:Hp; [exfalso|done].
    assert (Htail : String.prefix "{LOCALE}" o = true →
                    ∃ r, rest = ("{LOCALE}" ++ r)%string).
    { intros Ho. apply prefix_app_inv, (scanned_prefix locale rest o); [done|done| |done].
      intros v Hv. apply (overlaps_false "${LOCALE}" locale); [done|].
      rewrite endings_cons. by right. }
    assert (Hlocale : u ∈ endings locale → False).
    { intros Hu'. apply prefix_app_agree in Hp. rewrite agree_comm in Hp.
      by rewrite (overlaps_false locale "${LOCALE}" u HL1 Hu') in Hp. }
    destruct (pattern_match_inv _ _ Hm) as (_ & _ & Hfacts).
    destruct m as [|id|id|]; cbn [Py.convert Py.match_text] in *.
    + apply endings_single in Hu as ->. rewrite append_cons, append_nil_l in Hp.
      apply prefix_cons_true in Hp as [_ Hp]. destruct (Htail Hp) as [r ->].
      rewrite (contains_prefix "$${LOCALE}") in Hs; [done|].
      exact (prefix_app "$${LOCALE}" r).
    + destruct (String.eqb_spec id "LOCALE") as [->|Hid]; [done|].
      destruct Hfacts as [(c & i & -> & Hc) Hid'].
      change ("$" ++ String c i)%string with (String "$" (String c i)) in Hu.
      rewrite endings_cons in Hu. apply elem_of_cons in Hu as [->|Hu].
      * rewrite !append_cons in Hp. apply prefix_cons_true in Hp as [_ Hp].
        apply prefix_cons_true in Hp as [<- _]. done.
      * by rewrite (ending_no_dollar (String c i) u _ o
                      (id_text_no_dollar _ Hid') Hu) in Hp.
    + destruct (String.eqb_spec id "LOCALE") as [->|Hid]; [done|].
      change ("${" ++ id ++ "}")%string with (String "$" (String "{" (id ++ "}")%string)) in Hu.
      rewrite endings_cons in Hu. apply elem_of_cons in Hu as [->|Hu].
      * rewrite !append_cons in Hp. apply prefix_cons_true in Hp as [_ Hp].
        apply prefix_cons_true in Hp as [_ Hp]. by apply braced_id_locale in Hp.
      * rewrite (ending_no_dollar (String "{" (id ++ "}")%string)) in Hp; [done| |done].
        apply no_dollar_cons. split; [done|]. apply no_dollar_app.
        split; [by apply id_text_no_dollar|done].
    + apply endings_single in Hu as ->. rewrite append_cons, append_nil_l in Hp.
      apply prefix_cons_true in Hp as [_ Hp]. destruct (Htail Hp) as [r ->].
      by cbv in Hm.
Qed.

Lemma safe_substitute_no_token locale s :
  clear_of_token locale → Py.contains "$${LOCALE}" s = false →
  Py.contains "${LOCALE}" (Py.safe_substitute locale s) = false.
Proof.
  intros HL Hs. apply (scanned_no_token locale s); [done| |done]. apply sub_scanned.
Qed.

Lemma contains_longer c p s : Py.contains p s = false → Py.contains (String c p) s = false.
Proof.
  induction s as [|d s IH]; [done|]. rewrite !contains_cons.
  intros [Hp Hs]%orb_false_elim. rewrite IH by done. rewrite orb_false_r.
  rewrite prefix_cons. destruct (ascii_dec c d) as [->|]; [|done].
  destruct (String.prefix p s) eqn:E; [|done].
  by rewrite (contains_prefix p s E) in Hs.
Qed.

(** *** The resolver on lists whose names are in a class *)

Section resolver_classes.
Variable locale : string.
Hypothesis not_en : String.eqb locale "en" = false.

Lemma resolve_name_not_en n : resolve_name locale n = Some (Py.safe_substitute locale n).
Proof. unfold resolve_name. by rewrite not_en. Qed.

(** Names in [P] resolve to names in [R], which is part of [P]. *)
Variables P R : string → Prop.
Hypothesis resolve_P : ∀ n, P n → R (Py.safe_substitute locale n).
Hypothesis R_P : ∀ n, R n → P n.

Lemma loop_keeps_class plist :
  ∀ h a n, h !! a ≫= package = Some n → R n →
    ∃ n', (subst_locale_loop locale h plist).1 !! a ≫= package = Some n' ∧ R n'.
Proof.
  induction plist as [|item rest IH]; intros h a n Hn HR; simpl; [by exists n|].
  destruct (packagename_of h item) as [name|] eqn:Hname; simpl; [|by eapply IH].
  rewrite resolve_name_not_en.
  destruct item as [s|b].
  - specialize (IH h a n Hn HR). by destruct (subst_locale_loop locale h rest).
  - specialize (IH (alter (set_package (Py.safe_substitute locale name)) b h) a).
    destruct (subst_locale_loop locale _ rest). simpl in *.
    destruct (decide (b = a)) as [->|Hba].
    + rewrite Hn in Hname. injection Hname as <-.
      apply (IH (Py.safe_substitute locale n)); [|by apply resolve_P, R_P].
      rewrite lookup_alter_eq. destruct (h !! a); [|done]. done.
    + apply (IH n); [|done]. by rewrite lookup_alter_ne.
Qed.

Lemma loop_resolves_class plist :
  ∀ h,
    Forall (λ item, ∀ n, packagename_of h item = Some n → P n) plist →
    Forall (λ item, ∃ n, packagename_of (subst_locale_loop locale h plist).1 item = Some n
                         ∧ R n)
      (subst_locale_loop locale h plist).2.
Proof.
  induction plist as [|item rest IH]; intros h Hall; simpl; [done|].
  apply Forall_cons in Hall as [Hitem Hrest].
  destruct (packagename_of h item) as [name|] eqn:Hname; simpl; [|by apply IH].
  rewrite resolve_name_not_en.
  pose proof (resolve_P name (Hitem _ eq_refl)) as HR.
  destruct item as [s|a].
  - specialize (IH h Hrest). destruct (subst_locale_loop locale h rest). simpl in *.
    constructor; [|done]. by eexists.
  - assert (Hnew : alter (set_package (Py.safe_substitute locale name)) a h !! a ≫= package
                   = Some (Py.safe_substitute locale name)).
    { rewrite lookup_alter_eq. simpl in Hname. destruct (h !! a); [|done]. done. }
    pose proof (loop_keeps_class rest _ a _ Hnew HR) as Hkeep.
    specialize (IH (alter (set_package (Py.safe_substitute locale name)) a h)).
    destruct (subst_locale_loop locale _ rest). simpl in *.
    constructor; [done|]. apply IH.
    eapply Forall_impl; [exact Hrest|]. intros [s|b] Hb n Hn; simpl in *.
    + by apply Hb.
    + destruct (decide (a = b)) as [<-|Hab].
      * rewrite Hnew in Hn. injection Hn as <-. by apply R_P.
      * rewrite lookup_alter_ne in Hn by done. by apply Hb.
Qed.
End resolver_classes.

Section replaced_tokens.
Variable locale : string.
Hypothesis not_en : String.eqb locale "en" = false.

(** A string entry is in the output with its name substituted. *)
Lemma loop_string_resolved plist :
  ∀ h s, EStr s ∈ plist →
    EStr (Py.safe_substitute locale s) ∈ (subst_locale_loop locale h plist).2.
Proof.
  induction plist as [|item rest IH]; intros h s Hin; [by apply elem_of_nil in Hin|].
  simpl. apply elem_of_cons in Hin as [<-|Hin].
  - simpl. rewrite (resolve_name_not_en locale not_en).
    destruct (subst_locale_loop locale h rest). by left.
  - destruct (packagename_of h item ≫= resolve_name locale) as [name'|]; [|by apply IH].
    destruct item as [s'|b].
    + specialize (IH h s Hin). destruct (subst_locale_loop locale h rest). by right.
    + specialize (IH (alter (set_package name') b h) s Hin).
      destruct (subst_locale_loop locale _ rest). by right.
Qed.

Hypothesis locale_plain : no_dollar locale.

(** A structured entry whose name is a template is in the output, and its
    name is the template with every token replaced. *)
Lemma loop_dict_template plist :
  ∀ h a ps, Forall plain ps → h !! a ≫= package = Some (template ps) →
    EDict a ∈ plist →
    EDict a ∈ (subst_locale_loop locale h plist).2
    ∧ (subst_locale_loop locale h plist).1 !! a ≫= package = Some (instance locale ps).
Proof.
  induction plist as [|item rest IH]; intros h a ps Hps Hn Hin;
    [by apply elem_of_nil in Hin|].
  simpl. destruct item as [s|b].
  - apply elem_of_cons in Hin as [[=]|Hin]. simpl.
    rewrite (resolve_name_not_en locale not_en).
    destruct (IH h a ps Hps Hn Hin) as [H1 H2].
    destruct (subst_locale_loop locale h rest). simpl in *. split; [by right|done].
  - destruct (decide (b = a)) as [->|Hba].
    + simpl. rewrite Hn. simpl. rewrite (resolve_name_not_en locale not_en).
      unfold Py.safe_substitute. rewrite sub_template by done.
      assert (Hnew : alter (set_package (instance locale ps)) a h !! a ≫= package
                     = Some (instance locale ps)).
      { rewrite lookup_alter_eq. destruct (h !! a); [|done]. done. }
      pose proof (loop_keeps_resolved locale not_en rest _ a _ Hnew
                    (no_dollar_instance locale ps locale_plain Hps)) as Hkeep.
      destruct (subst_locale_loop locale _ rest). simpl in *. split; [by left|done].
    + apply elem_of_cons in Hin as [[=]|Hin]; [done|].
      destruct (packagename_of h (EDict b) ≫= resolve_name locale) as [name'|].
      * destruct (IH (alter (set_package name') b h) a ps Hps) as [H1 H2];
          [by rewrite lookup_alter_ne|done|].
        destruct (subst_locale_loop locale _ rest). simpl in *. split; [by right|done].
      * by apply IH.
Qed.
End replaced_tokens.

Lemma overlaps_no_dollar x r : no_dollar x → overlaps x (String "$" r) = false.
Proof.
  unfold overlaps. induction x as [|c x IH]; intros Hx; [done|].
  apply no_dollar_cons in Hx as [Hc Hx]. rewrite endings_cons. cbn [existsb].
  rewrite IH by done. rewrite orb_false_r, agree_cons.
  destruct (ascii_dec c "$"); done.
Qed.

(** A locale without [$] that begins with a character that is not in
    [{LOCALE}] shares no text with the token. *)
Lemma plain_locale_clear c l :
  no_dollar (String c l) → Py.contains (String c "") "{LOCALE}" = false →
  clear_of_token (String c l).
Proof.
  intros Hnd Hc. split; [by apply overlaps_no_dollar|].
  apply no_dollar_cons in Hnd as [Hd _].
  unfold overlaps. cbn [endings existsb]. rewrite !agree_cons.
  repeat match goal with
         | |- context [ascii_dec ?a c] => destruct (ascii_dec a c) as [<-|_]
         end; done.
Qed.

(** Claim C7, amended.  [subst_locale] returns a result and changes nothing
    of the world but the heap of structured entries; result and heap depend
    on the input list, the heap and the locale only.  With the locale [en]
    the heap is unchanged.  Otherwise only the structured entries of the
    input list are written, and of those only the [package] key where it was
    present: objects persist, and their [pre-script] and [post-script] keys
    keep their values. *)
Theorem subst_locale_effects (plist : pyval) (w : world) :
  ∃ ret h',
    subst_locale plist w = (Ok ret, set_heap h' w)
    ∧ (∀ w2, heap w2 = heap w → ambient_locale (gs w2) = ambient_locale (gs w) →
         subst_locale plist w2 = (Ok ret, set_heap h' w2))
    ∧ (ambient_locale (gs w) = "en" → h' = heap w)
    ∧ (∀ a, EDict a ∉ py_iter plist → h' !! a = heap w !! a)
    ∧ (∀ a, match heap w !! a with
            | Some d => ∃ d', h' !! a = Some d'
                              ∧ pre_script d' = pre_script d
                              ∧ post_script d' = post_script d
                              ∧ (package d = None → package d' = None)
            | None => h' !! a = None
            end).
Proof.
  rewrite subst_locale_run. eexists _, _. split; [reflexivity|]. split; [|split; [|split]].
  - intros w2 Hh HL. by rewrite subst_locale_run, Hh, HL.
  - intros ->. apply loop_en.
  - intros a Ha. by apply loop_frame.
  - intros a.
    pose proof (subst_locale_loop_evolves (ambient_locale (gs w)) (py_iter plist)
                  (ambient_locale_nonempty _) (heap w) a) as Hev.
    destruct (heap w !! a) as [d|]; [|done].
    destruct Hev as (d' & Hd' & Hpre & Hpost & Hp). exists d'.
    repeat split; [done..|]. intros Hnone. by rewrite Hnone in Hp.
Qed.

(** *** The total is fixed once preprocessing has set it *)

Lemma preserves_total_truediv c t : preserves total_packages (truediv c t).
Proof. intros w. unfold truediv. by destruct (t =? 0)%Z. Qed.

Lemma preserves_total_setprogress q : preserves total_packages (setprogress q).
Proof. done. Qed.

Lemma preserves_total_spawn cmd : preserves total_packages (spawn cmd).
Proof. done. Qed.

Lemma preserves_total_subst_locale v : preserves total_packages (subst_locale v).
Proof. intros w. by rewrite subst_locale_run. Qed.

Ltac preserves_total :=
  repeat first
    [ apply preserves_total_truediv
    | apply preserves_total_setprogress
    | apply preserves_total_spawn
    | apply preserves_total_subst_locale
    | assumption
    | preserves_step ].

Lemma preserves_total_push_fraction : preserves total_packages push_fraction.
Proof. unfold push_fraction. preserves_total. Qed.

Lemma preserves_total_line_cb line : preserves total_packages (Pacman.line_cb line).
Proof. unfold Pacman.line_cb. preserves_total. Qed.

Lemma preserves_total_reset_progress : preserves total_packages Pacman.reset_progress.
Proof. unfold Pacman.reset_progress. preserves_total. Qed.

Lemma preserves_total_target cmd (callback : bool) :
  preserves total_packages
    (target_env_process_output cmd (if callback then Some Pacman.line_cb else None)).
Proof.
  unfold target_env_process_output.
  apply preserves_bind; [apply preserves_total_spawn|]. intros o.
  apply preserves_bind.
  - destruct callback; [|apply preserves_ret].
    apply preserves_for_each. intros. apply preserves_total_line_cb.
  - intros. preserves_total.
Qed.

Lemma preserves_total_run_pacman self cmd callback :
  preserves total_packages (Pacman.run_pacman self cmd callback).
Proof.
  unfold Pacman.run_pacman. generalize 0%Z.
  induction (S (Z.to_nat (Pacman.pacman_num_retries self + 1))) as [|fuel IH];
    intros count; simpl.
  - apply preserves_out_of_fuel.
  - destruct (count <=? Pacman.pacman_num_retries self)%Z; [|apply preserves_ret].
    apply preserves_try_except; [apply preserves_total_target|].
    intros e k He. destruct e; try done. injection He as <-.
    destruct (count + 1 <=? Pacman.pacman_num_retries self)%Z;
      [apply IH | apply preserves_raise].
Qed.

Lemma preserves_total_run_script script : preserves total_packages (_run_script script).
Proof.
  unfold _run_script, check_target_env_call, target_env_process_output. preserves_total.
Qed.

Lemma preserves_total_install self pkgs from_local :
  preserves total_packages (Pacman.install self pkgs from_local).
Proof.
  unfold Pacman.install.
  apply preserves_bind; [apply preserves_total_reset_progress|]. intros.
  apply preserves_total_run_pacman.
Qed.

Lemma preserves_total_remove self pkgs : preserves total_packages (Pacman.remove self pkgs).
Proof.
  unfold Pacman.remove.
  apply preserves_bind; [apply preserves_total_reset_progress|]. intros.
  apply preserves_total_run_pacman.
Qed.

Lemma preserves_total_install_package self p from_local :
  preserves total_packages (Pacman.install_package self p from_local).
Proof.
  unfold Pacman.install_package, Pacman.package_item.
  destruct p as [s|a]; [apply preserves_total_install|].
  repeat first [ apply preserves_total_run_script | apply preserves_total_install
               | preserves_step ].
Qed.

Lemma preserves_total_remove_package self p :
  preserves total_packages (Pacman.remove_package self p).
Proof.
  unfold Pacman.remove_package, Pacman.package_item.
  destruct p as [s|a]; [apply preserves_total_remove|].
  repeat first [ apply preserves_total_run_script | apply preserves_total_remove
               | preserves_step ].
Qed.

Lemma preserves_total_run_operations self entry :
  preserves total_packages (run_operations (Pacman.manager self) entry).
Proof.
  unfold run_operations, run_operation_key, _change_mode.
  cbn [operation_install operation_try_install operation_remove operation_try_remove
       Pacman.manager].
  unfold Pacman.pacman_operation_install, Pacman.pacman_operation_try_install,
    Pacman.pacman_operation_remove, Pacman.pacman_operation_try_remove,
    Pacman.only_called_process_error.
  repeat first
    [ apply preserves_total_push_fraction
    | apply preserves_total_subst_locale
    | apply preserves_total_install | apply preserves_total_remove
    | apply preserves_total_install_package | apply preserves_total_remove_package
    | preserves_step ].
Qed.

Lemma preserves_total_run_entries self operations :
  preserves total_packages (Pacman.run_entries self operations).
Proof.
  induction operations as [|entry rest IH]; simpl; [apply preserves_ret|].
  unfold Pacman.command_failed, log_failure, Pacman.only_called_process_error.
  repeat first [ apply preserves_total_run_operations | apply IH | preserves_step ].
Qed.

Lemma modify_then {A} (g : world → world) (k : M A) (w : world) :
  (modify g ;; k) w = k (g w).
Proof. reflexivity. Qed.

(** The second part of [run] ends with the total that preprocessing
    returned, however it ends: the total is not assigned again. *)
Lemma pacman_total_fixed pkgman operations filtered_total w :
  total_packages (Pacman.dispatch pkgman operations filtered_total w).2 = filtered_total.
Proof.
  unfold Pacman.dispatch. rewrite !modify_then.
  match goal with |- total_packages (?m ?w1).2 = _ =>
    assert (Hrest : preserves total_packages m) end.
  { repeat first [ apply preserves_total_run_entries | apply preserves_total_setprogress
                 | preserves_step ]. }
  by rewrite Hrest.
Qed.

(** *** The retry loop of the pacman manager has fuel enough *)

Lemma ends_pacman_line_cb P line : ends anything P (Pacman.line_cb line).
Proof. unfold Pacman.line_cb. repeat ends_step. Qed.

Lemma ends_run_pacman_loop self cmd (callback : bool) :
  ∀ fuel count,
    (Z.to_nat (Pacman.pacman_num_retries self + 1 - count) < fuel)%nat →
    ends anything called_process_error
      (Pacman.run_pacman_loop fuel self cmd callback count).
Proof.
  induction fuel as [|fuel IH]; intros count Hfuel; [lia|]. simpl.
  destruct (Z.leb_spec count (Pacman.pacman_num_retries self)) as [Hle|_];
    [|by apply ends_ret].
  eapply (ends_try_except _ called_process_error).
  - apply ends_target. intros f line Hf. destruct callback; [|done].
    injection Hf as <-. apply ends_pacman_line_cb.
  - intros e He. destruct e; try done.
    destruct (Z.leb_spec (count + 1) (Pacman.pacman_num_retries self)) as [Hle'|_].
    + apply IH. lia.
    + by apply ends_raise.
Qed.

(** For every behaviour of the command, [run_pacman] returns or raises
    [CalledProcessError]. *)
Lemma ends_run_pacman self cmd callback :
  ends anything called_process_error (Pacman.run_pacman self cmd callback).
Proof. unfold Pacman.run_pacman. apply ends_run_pacman_loop. lia. Qed.

(** ** Further properties of the code *)

(** *** The existence filter, entry by entry *)

Lemma keeps_in_index h repo_pkgs repo_groups item :
  keeps h repo_pkgs repo_groups item = true ↔ in_index h repo_pkgs repo_groups item.
Proof.
  unfold keeps, in_index, Pkgcheck.name_missing.
  destruct (packagename_of h item) as [n|]; simpl.
  - rewrite andb_true_iff, negb_true_iff, bool_decide_eq_true. split.
    + intros [Hn Hin]. exists n. split; [done|]. split; [|done]. by intros ->.
    + intros (n' & [= <-] & Hne & Hin). split; [|done]. by destruct n.
  - split; [done|]. by intros (n & [=] & _).
Qed.

Lemma filter_operation_list_log key items repo_pkgs repo_groups :
  ∀ w, ∃ w',
    Pkgcheck.filter_operation_list key items repo_pkgs repo_groups w
      = (Ok (List.filter (keeps (heap w) repo_pkgs repo_groups) items), w')
    ∧ heap w' = heap w ∧ invoked w' = invoked w ∧ progress w' = progress w
    ∧ (warnings (log w')
       + length (List.filter (keeps (heap w) repo_pkgs repo_groups) items)
       = warnings (log w) + length items)%nat.
Proof.
  induction items as [|item rest IH]; intros w.
  - exists w. by repeat split.
  - cbn [Pkgcheck.filter_operation_list List.filter]. rewrite bind_run. unfold get at 1.
    cbv beta iota. unfold Pkgcheck._pkg_name_of.
    destruct (keeps (heap w) repo_pkgs repo_groups item) eqn:Hk; unfold keeps in Hk.
    + apply andb_true_iff in Hk as [Hm Hin]. apply negb_true_iff in Hm.
      rewrite Hm, Hin. rewrite bind_run.
      destruct (IH w) as (w' & -> & Hh & Hi & Hp & Hlog).
      exists w'. simpl. repeat split; try done. lia.
    + destruct (Pkgcheck.name_missing (packagename_of (heap w) item)).
      * rewrite bind_run. unfold log_event at 1, modify at 1.
        match goal with |- context [Pkgcheck.filter_operation_list _ _ _ _ ?w1] =>
          destruct (IH w1) as (w' & Hrun & Hh & Hi & Hp & Hlog) end.
        exists w'. split; [exact Hrun|]. simpl in *. repeat split; try done.
        unfold warnings in *. simpl in Hlog. lia.
      * simpl in Hk. rewrite Hk.
        rewrite bind_run. unfold warning at 1, modify at 1.
        rewrite bind_run. unfold log_event at 1, modify at 1.
        match goal with |- context [Pkgcheck.filter_operation_list _ _ _ _ ?w1] =>
          destruct (IH w1) as (w' & Hrun & Hh & Hi & Hp & Hlog) end.
        exists w'. split; [exact Hrun|]. simpl in *. repeat split; try done.
        unfold warnings in *. simpl in Hlog. lia.
Qed.

Lemma filter_sublist {A} (f : A → bool) (l : list A) : List.filter f l `sublist_of` l.
Proof.
  induction l as [|x l IH]; simpl; [done|].
  destruct (f x); [by apply sublist_skip | by apply sublist_cons].
Qed.

(** [filter_operation_list] always returns.  The list it returns is the
    input list without the entries it drops, in the same order; an entry is
    kept exactly when it has a non-empty name that is a package or a group of
    the index.  It logs one warning for each entry it drops, runs no command,
    pushes no progress and leaves the package objects as they are. *)
Theorem filter_operation_list_exact (action_key : string) (items : list entry)
    (repo_pkgs repo_groups : gset string) (w : world) :
  ∃ kept w',
    Pkgcheck.filter_operation_list action_key items repo_pkgs repo_groups w = (Ok kept, w')
    ∧ kept `sublist_of` items
    ∧ (∀ item, item ∈ kept ↔ item ∈ items ∧ in_index (heap w) repo_pkgs repo_groups item)
    ∧ heap w' = heap w ∧ invoked w' = invoked w ∧ progress w' = progress w
    ∧ (warnings (log w') + length kept = warnings (log w) + length items)%nat.
Proof.
  destruct (filter_operation_list_log action_key items repo_pkgs repo_groups w)
    as (w' & Hrun & Hh & Hi & Hp & Hlog).
  eexists _, w'. split; [exact Hrun|]. split; [apply filter_sublist|].
  split; [|done].
  intros item. rewrite list_elem_of_In, filter_In, <- list_elem_of_In.
  by rewrite keeps_in_index.
Qed.

(** *** Preprocessing keeps order and keys *)

Lemma subst_locale_loop_sublist locale plist :
  ∀ h, (subst_locale_loop locale h plist).2 `sublist_of` (resolved locale <$> plist).
Proof.
  induction plist as [|item rest IH]; intros h; [done|].
  rewrite fmap_cons. cbn [subst_locale_loop].
  destruct (packagename_of h item) as [name|] eqn:Hname; simpl;
    [|by apply sublist_cons].
  unfold resolve_name.
  destruct item as [s|a].
  - simpl in Hname. injection Hname as <-. cbn [resolved].
    destruct (String.eqb locale "en"); simpl.
    + destruct (Py.contains "LOCALE" s); [by apply sublist_cons|].
      specialize (IH h). destruct (subst_locale_loop locale h rest).
      by apply sublist_skip.
    + specialize (IH h). destruct (subst_locale_loop locale h rest).
      by apply sublist_skip.
  - destruct (negb (String.eqb locale "en")).
    + match goal with |- context [subst_locale_loop locale ?h1 rest] =>
        specialize (IH h1); destruct (subst_locale_loop locale h1 rest) end.
      by apply sublist_skip.
    + destruct (Py.contains "LOCALE" name); [by apply sublist_cons|].
      match goal with |- context [subst_locale_loop locale ?h1 rest] =>
        specialize (IH h1); destruct (subst_locale_loop locale h1 rest) end.
      by apply sublist_skip.
Qed.

Section shape.
Variables repo_pkgs repo_groups : gset string.

Lemma preprocess_items_shape (items : list (string * pyval)) :
  ∀ (new_op : operation) (total : Z) (w : world),
    NoDup items.*1 →
    (∀ k, k ∈ items.*1 → dict_get new_op k = None) →
    ∃ added total' w',
      Pkgcheck.preprocess_items subst_locale repo_pkgs repo_groups items new_op total w
        = (Ok (new_op ++ added, total'), w')
      ∧ gs w' = gs w
      ∧ Forall2 (key_shape (ambient_locale (gs w))) items added.
Proof.
  induction items as [|[key raw] rest IH]; intros new_op total w Hnd Hfresh; simpl.
  - exists [], total, w. rewrite app_nil_r. repeat split. constructor.
  - apply NoDup_cons in Hnd as [Hkey Hnd]. simpl in Hkey.
    rewrite bind_run, subst_locale_run.
    pose proof (subst_locale_loop_sublist (ambient_locale (gs w)) (py_iter raw) (heap w))
      as Hsub.
    destruct (subst_locale_loop (ambient_locale (gs w)) (heap w) (py_iter raw))
      as [h1 localized]. simpl in Hsub. cbn [fst snd].
    assert (Hset : ∀ v, dict_set new_op key v = new_op ++ [(key, v)]).
    { intros v. apply dict_set_fresh, Hfresh. simpl. by left. }
    assert (Hfresh' : ∀ v k, k ∈ rest.*1 → dict_get (new_op ++ [(key, v)]) k = None).
    { intros v k Hk. rewrite dict_get_snoc, Hfresh by (simpl; by right).
      destruct (String.eqb_spec key k) as [->|]; done. }
    assert (Hstep : ∀ (w1 : world) l total1,
              gs w1 = gs w → l `sublist_of` localized →
              ∃ added total' w',
                Pkgcheck.preprocess_items subst_locale repo_pkgs repo_groups rest
                  (new_op ++ [(key, PList l)]) total1 w1
                  = (Ok (new_op ++ added, total'), w')
                ∧ gs w' = gs w
                ∧ Forall2 (key_shape (ambient_locale (gs w))) ((key, raw) :: rest) added).
    { intros w1 l total1 Hg Hl.
      destruct (IH (new_op ++ [(key, PList l)]) total1 w1 Hnd (Hfresh' _))
        as (added & total' & w' & Hrun & Hg' & Hshape).
      exists ((key, PList l) :: added), total', w'.
      rewrite Hrun, <- app_assoc. split; [done|]. split; [congruence|].
      constructor; [|by rewrite <- Hg].
      split; [done|]. exists l. split; [done|]. by etrans. }
    destruct (Pkgcheck.is_filter_key key).
    + rewrite bind_run.
      destruct (filter_operation_list_run key localized repo_pkgs repo_groups
                  (set_heap h1 w)) as (w2 & -> & _ & Hg2 & _).
      rewrite Hset. apply Hstep; [done | apply filter_sublist].
    + destruct (String.eqb key "localInstall"); rewrite Hset; by apply Hstep.
Qed.

Lemma preprocess_loop_shape (operations : list operation) :
  ∀ (new_ops : list operation) (total : Z) (w : world),
    Forall dict_wf operations →
    ∃ shaped total' w',
      Pkgcheck.preprocess_loop subst_locale repo_pkgs repo_groups operations new_ops total w
        = (Ok (new_ops ++ List.filter Pkgcheck.any_nonempty_list shaped, total'), w')
      ∧ gs w' = gs w
      ∧ Forall2 (operation_shape (ambient_locale (gs w))) operations shaped.
Proof.
  induction operations as [|op rest IH]; intros new_ops total w Hwf; simpl.
  - exists [], total, w. rewrite app_nil_r. repeat split. constructor.
  - apply Forall_cons in Hwf as [Hop Hwf].
    rewrite bind_run.
    destruct (preprocess_items_shape op [] total w Hop)
      as (new_op & total1 & w1 & -> & Hg1 & Hshape1); [done|]. simpl.
    destruct (IH (if Pkgcheck.any_nonempty_list new_op then new_ops ++ [new_op] else new_ops)
                total1 w1 Hwf)
      as (shaped & total' & w' & Hrun & Hg & Hshape).
    exists (new_op :: shaped), total', w'.
    split.
    { etrans; [exact Hrun|]. simpl.
      destruct (Pkgcheck.any_nonempty_list new_op); [|done]. by rewrite <- app_assoc. }
    split; [congruence|]. constructor; [done|]. by rewrite <- Hg1.
Qed.
End shape.

(** [preprocess_operations] keeps the shape of its input: the operations it
    returns are, in order, those of the input that are left with a non-empty
    list; each has the keys of the operation it comes from, in order, and
    under each key a list taken in order from the resolved input list. *)
Theorem preprocess_keeps_shape (operations : list operation)
    (repo_pkgs repo_groups : gset string) (w : world) :
  Forall dict_wf operations →
  ∃ shaped new_total w',
    Pkgcheck.preprocess_operations operations subst_locale repo_pkgs repo_groups w
      = (Ok (List.filter Pkgcheck.any_nonempty_list shaped, new_total), w')
    ∧ Forall2 (operation_shape (ambient_locale (gs w))) operations shaped.
Proof.
  intros Hwf. unfold Pkgcheck.preprocess_operations.
  destruct (preprocess_loop_shape repo_pkgs repo_groups operations [] 0%Z w Hwf)
    as (shaped & total' & w' & Hrun & _ & Hshape).
  exists shaped, total', w'. split; [exact Hrun | exact Hshape].
Qed.

(** *** The repository index *)

Lemma rstrip_nl_line name : Py.rstrip_nl (name ++ nl) = Py.rstrip_nl name.
Proof.
  induction name as [|c t IH]; [done|].
  change (String c t ++ nl)%string with (String c (t ++ nl)).
  cbn [Py.rstrip_nl]. by rewrite IH.
Qed.

Lemma line_truthy name : Py.truthy (name ++ nl) = true.
Proof. by destruct name. Qed.

Lemma capture_printed_lines names :
  Forall line_free names →
  Py.rstrip_nl <$> filter (λ l, Py.truthy l = true) ((λ p, p ++ nl)%string <$> names) = names.
Proof.
  induction 1 as [|name names Hname _ IH]; [done|].
  rewrite fmap_cons, filter_cons_True by apply line_truthy.
  rewrite fmap_cons, IH, rstrip_nl_line. by rewrite Hname.
Qed.

Lemma capture_lines_run command w :
  Pkgcheck._target_env_capture_lines command w =
    (if (out_rc (sys w (length (invoked w)) command) =? 0)%Z
     then Ok (Py.rstrip_nl <$> filter (λ l, Py.truthy l = true)
                (out_lines (sys w (length (invoked w)) command)))
     else Raise (CalledProcessError command (out_rc (sys w (length (invoked w)) command))),
     set_invoked (command :: invoked w) w).
Proof.
  unfold Pkgcheck._target_env_capture_lines, spawn. rewrite bind_run.
  by destruct (_ =? _)%Z.
Qed.

(** [build_repo_index]: when the first query fails, the call raises
    [CalledProcessError] for it and the second query is not run; when both
    queries succeed and print names one per line, the index is exactly the
    set of the package names and the set of the group names printed. *)
Theorem build_repo_index_round_trip (pkgs groups : list string) (w : world) :
  let n := length (invoked w) in
  let listing := sys w n ["pacman"; "-Slq"] in
  let grouping := sys w (S n) ["pacman"; "-Sgq"] in
  (out_rc listing ≠ 0%Z →
   ∃ w', Pkgcheck.build_repo_index w
           = (Raise (CalledProcessError ["pacman"; "-Slq"] (out_rc listing)), w')
         ∧ invoked w' = ["pacman"; "-Slq"] :: invoked w)
  ∧ (out_rc listing = 0%Z → out_rc grouping = 0%Z →
     prints pkgs listing → prints groups grouping →
     Forall line_free pkgs → Forall line_free groups →
     ∃ w', Pkgcheck.build_repo_index w = (Ok (list_to_set pkgs, list_to_set groups), w')
           ∧ invoked w' = ["pacman"; "-Sgq"] :: ["pacman"; "-Slq"] :: invoked w
           ∧ heap w' = heap w ∧ progress w' = progress w).
Proof.
  intros n listing grouping. unfold Pkgcheck.build_repo_index. split.
  - intros Hrc. rewrite bind_run, capture_lines_run. fold n listing.
    destruct (Z.eqb_spec (out_rc listing) 0) as [?|_]; [done|]. eauto.
  - intros Hrc1 Hrc2 Hp Hg Hpkgs Hgroups.
    rewrite bind_run, capture_lines_run. fold n listing. rewrite Hrc1. simpl.
    rewrite bind_run, capture_lines_run. simpl. fold n grouping. rewrite Hrc2. simpl.
    rewrite Hp, Hg, !capture_printed_lines by done.
    eexists. split; [reflexivity|]. done.
Qed.

Lemma host_capture_lines_run command w :
  Pacstrap._host_capture_lines command w =
    (if (out_rc (sys w (length (invoked w)) command) =? 0)%Z
     then Ok (filter (λ l, Py.truthy l = true)
                (Py.rstrip_nl <$> filter (λ l, Py.truthy l = true)
                   (out_lines (sys w (length (invoked w)) command))))
     else Raise (PacmanError command (out_rc (sys w (length (invoked w)) command))),
     set_invoked (command :: invoked w) w).
Proof.
  unfold Pacstrap._host_capture_lines, spawn. rewrite bind_run.
  by destruct (_ =? _)%Z.
Qed.

Lemma truthy_filter_no_empty (l : list string) :
  "" ∉ (list_to_set (filter (λ l, Py.truthy l = true) l) : gset string).
Proof.
  rewrite elem_of_list_to_set, list_elem_of_filter. by intros [? _].
Qed.

(** [_build_repo_index_host] runs the two queries in order and stops at the
    first that fails, raising [PacmanError] for it; the sets it returns never
    contain the empty name. *)
Theorem host_index_no_empty_name (w : world) :
  match Pacstrap._build_repo_index_host w with
  | (Ok (pkgs, groups), w') =>
      ("" ∉ pkgs) ∧ ("" ∉ groups)
      ∧ invoked w' = ["pacman"; "-Sgq"] :: ["pacman"; "-Slq"] :: invoked w
      ∧ heap w' = heap w ∧ progress w' = progress w
  | (Raise e, w') =>
      ((∃ rc, rc ≠ 0%Z ∧ e = PacmanError ["pacman"; "-Slq"] rc
              ∧ invoked w' = ["pacman"; "-Slq"] :: invoked w)
       ∨ (∃ rc, rc ≠ 0%Z ∧ e = PacmanError ["pacman"; "-Sgq"] rc
              ∧ invoked w' = ["pacman"; "-Sgq"] :: ["pacman"; "-Slq"] :: invoked w))
      ∧ heap w' = heap w ∧ progress w' = progress w
  | (OutOfFuel, _) => False
  end.
Proof.
  unfold Pacstrap._build_repo_index_host.
  rewrite bind_run, host_capture_lines_run.
  destruct (Z.eqb_spec (out_rc (sys w (length (invoked w)) ["pacman"; "-Slq"])) 0)
    as [Hrc1|Hrc1].
  - rewrite bind_run, host_capture_lines_run. cbn [invoked set_invoked sys].
    destruct (Z.eqb_spec (out_rc (sys w (length (["pacman"; "-Slq"] :: invoked w))
                                    ["pacman"; "-Sgq"])) 0) as [Hrc2|Hrc2].
    + simpl. split; [apply truthy_filter_no_empty|].
      split; [apply truthy_filter_no_empty|]. done.
    + simpl. split; [|done]. right. eauto.
  - simpl. split; [|done]. left. eauto.
Qed.

(** *** The retry loop of the paru manager *)

Lemma paru_line_cb_quiet line w :
  ∃ w', Paru.line_cb line w = (Ok tt, w') ∧ quiet w w'.
Proof.
  unfold Paru.line_cb. unfold_M.
  destruct (Py.startswith line ":: "); simpl.
  - eexists; split; [reflexivity | done].
  - destruct (in_package_changes w && Py.endswith line ("..." ++ nl)%string); simpl;
      (eexists; split; [reflexivity | done]).
Qed.

Lemma paru_target_call_run cmd (callback : bool) w :
  ∃ w', quiet (set_invoked (cmd :: invoked w) w) w' ∧
    target_env_process_output cmd (if callback then Some Paru.line_cb else None) w =
      (if (out_rc (sys w (length (invoked w)) cmd) =? 0)%Z then Ok tt
       else Raise (CalledProcessError cmd (out_rc (sys w (length (invoked w)) cmd))), w').
Proof.
  unfold target_env_process_output, spawn. rewrite bind_run.
  set (o := sys w (length (invoked w)) cmd).
  set (w1 := set_invoked (cmd :: invoked w) w).
  destruct callback.
  - rewrite bind_run.
    destruct (for_each_quiet Paru.line_cb paru_line_cb_quiet (out_lines o) w1)
      as (w2 & -> & Hq).
    exists w2. split; [done|]. by destruct (out_rc o =? 0)%Z.
  - exists w1. split; [done|]. rewrite bind_run. unfold_M.
    by destruct (out_rc o =? 0)%Z.
Qed.

Lemma threaded_call_run cmd (callback : bool) w :
  ∃ w', quiet (set_invoked (cmd :: invoked w) w) w' ∧
    Paru.threaded_call cmd callback w =
      (Ok (out_slow (sys w (length (invoked w)) cmd),
           if (out_rc (sys w (length (invoked w)) cmd) =? 0)%Z then None
           else Some (CalledProcessError cmd (out_rc (sys w (length (invoked w)) cmd)))),
       w').
Proof.
  unfold Paru.threaded_call, spawn. rewrite bind_run.
  set (o := sys w (length (invoked w)) cmd).
  set (w1 := set_invoked (cmd :: invoked w) w).
  rewrite bind_run. unfold try_except. rewrite bind_run.
  destruct callback.
  - destruct (for_each_quiet Paru.line_cb paru_line_cb_quiet (out_lines o) w1)
      as (w2 & -> & Hq).
    exists w2. split; [done|]. by destruct (out_rc o =? 0)%Z.
  - exists w1. split; [done|]. unfold_M. by destruct (out_rc o =? 0)%Z.
Qed.

(** One pass of the loop on a command that is not cut off. *)
Lemma one_attempt_on_time self cmd callback w :
  on_time self (sys w (length (invoked w)) cmd) →
  ∃ w', quiet (set_invoked (cmd :: invoked w) w) w' ∧
    Paru.one_attempt self cmd callback w =
      (Ok (if (out_rc (sys w (length (invoked w)) cmd) =? 0)%Z then Paru.Returned
           else Paru.Failed
                  (CalledProcessError cmd (out_rc (sys w (length (invoked w)) cmd)))), w').
Proof.
  intros Hon. unfold Paru.one_attempt, try_except.
  destruct (Z.eqb_spec (Paru.paru_timeout self) 0) as [Ht|Ht].
  - rewrite bind_run.
    destruct (paru_target_call_run cmd callback w) as (w1 & Hq & ->).
    exists w1. split; [done|].
    by destruct (out_rc (sys w (length (invoked w)) cmd) =? 0)%Z.
  - destruct Hon as [?|Hslow]; [done|].
    rewrite bind_run.
    destruct (threaded_call_run cmd callback w) as (w1 & Hq & ->).
    exists w1. split; [done|]. cbn [fst snd]. rewrite Hslow.
    by destruct (out_rc (sys w (length (invoked w)) cmd) =? 0)%Z.
Qed.

Lemma one_attempt_slow self cmd callback w :
  Paru.paru_timeout self ≠ 0%Z →
  out_slow (sys w (length (invoked w)) cmd) = true →
  ∃ w', Paru.one_attempt self cmd callback w
          = (Ok (Paru.Failed (CalledProcessError cmd 124)), w')
        ∧ sys w' = sys w ∧ heap w' = heap w
        ∧ invoked w' = pkill_paru :: cmd :: invoked w.
Proof.
  intros Ht Hslow. unfold Paru.one_attempt, try_except.
  destruct (Z.eqb_spec (Paru.paru_timeout self) 0) as [?|_]; [done|].
  rewrite bind_run.
  destruct (threaded_call_run cmd callback w) as (w1 & (Hs & Hi & Hh) & ->).
  cbn [fst snd]. rewrite Hslow.
  rewrite bind_run. unfold warning at 1, modify at 1.
  rewrite bind_run.
  change ["sudo"; "-E"; "-u"; "nobody"; "pkill"; "-f"; "paru"] with pkill_paru.
  match goal with |- context [target_env_process_output pkill_paru None ?w2] =>
    destruct (paru_target_call_run pkill_paru false w2) as (w3 & (Hs3 & Hi3 & Hh3) & Hrun)
  end.
  cbv iota in Hrun. rewrite Hrun. simpl in Hs, Hi, Hh, Hs3, Hi3, Hh3.
  exists w3. split.
  { by destruct (out_rc _ =? 0)%Z. }
  rewrite Hs3, Hh3, Hi3, Hs, Hh, Hi. done.
Qed.

Lemma exhausted_run cmd e w :
  ∃ w', Paru.exhausted cmd (Some e) w = (Ok false, w')
        ∧ quiet w w'
        ∧ WarningExn "paru command failed (ignored): " e ∈ log w'.
Proof.
  unfold Paru.exhausted. unfold_M. simpl. eexists. split; [reflexivity|].
  split; [done|]. simpl. set_solver.
Qed.

Lemma run_paru_loop_spec self cmd callback (k : nat) :
  ∀ fuel attempts last_exc w,
    (∀ i, (i <= k)%nat → on_time self (sys w (length (invoked w) + i) cmd)) →
    (∀ i, (i < k)%nat → out_rc (sys w (length (invoked w) + i) cmd) ≠ 0%Z) →
    out_rc (sys w (length (invoked w) + k) cmd) = 0%Z →
    (attempts <= Paru.paru_num_retries self)%Z →
    (Z.to_nat (Paru.paru_num_retries self - attempts) < fuel)%nat →
    ∃ w',
      sys w' = sys w ∧ heap w' = heap w ∧
      if bool_decide (attempts + Z.of_nat k <= Paru.paru_num_retries self)%Z then
        Paru.run_paru_loop fuel self cmd callback attempts last_exc w = (Ok true, w') ∧
        invoked w' = replicate (S k) cmd ++ invoked w
      else
        Paru.run_paru_loop fuel self cmd callback attempts last_exc w = (Ok false, w') ∧
        invoked w' =
          replicate (Z.to_nat (Paru.paru_num_retries self - attempts + 1)) cmd ++ invoked w ∧
        ∃ rc, rc ≠ 0%Z ∧
          WarningExn "paru command failed (ignored): " (CalledProcessError cmd rc) ∈ log w'.
Proof.
  induction k as [|k IH]; intros fuel attempts last_exc w Hon Hfail Hok Hcount Hfuel.
  - destruct fuel as [|fuel]; [lia|]. simpl.
    assert ((attempts <=? Paru.paru_num_retries self)%Z = true) as -> by lia.
    rewrite bind_run.
    destruct (one_attempt_on_time self cmd callback w) as (w1 & (Hs & Hi & Hh) & ->).
    { specialize (Hon 0%nat ltac:(lia)). by rewrite Nat.add_0_r in Hon. }
    simpl in Hs, Hi, Hh.
    rewrite Nat.add_0_r in Hok. rewrite Hok. simpl.
    exists w1. split; [done|]. split; [done|].
    rewrite bool_decide_eq_true_2 by lia. by rewrite Hi.
  - destruct fuel as [|fuel]; [lia|]. simpl.
    assert ((attempts <=? Paru.paru_num_retries self)%Z = true) as -> by lia.
    rewrite bind_run.
    destruct (one_attempt_on_time self cmd callback w) as (w1 & (Hs & Hi & Hh) & ->).
    { specialize (Hon 0%nat ltac:(lia)). by rewrite Nat.add_0_r in Hon. }
    simpl in Hs, Hi, Hh.
    pose proof (Hfail 0%nat ltac:(lia)) as H0. rewrite Nat.add_0_r in H0.
    destruct (Z.eqb_spec (out_rc (sys w (length (invoked w)) cmd)) 0) as [?|_]; [done|].
    destruct (Z.leb_spec (attempts + 1) (Paru.paru_num_retries self)) as [Hle|Hgt].
    + destruct (IH fuel (attempts + 1)%Z
                  (Some (CalledProcessError cmd (out_rc (sys w (length (invoked w)) cmd)))) w1)
        as (w2 & Hs2 & Hh2 & Hres).
      * intros i Hi'. rewrite Hs, Hi. simpl. rewrite <- Nat.add_succ_r.
        apply Hon. lia.
      * intros i Hi'. rewrite Hs, Hi. simpl. rewrite <- Nat.add_succ_r.
        apply Hfail. lia.
      * rewrite Hs, Hi. simpl. by rewrite <- Nat.add_succ_r.
      * done.
      * lia.
      * exists w2. split; [congruence|]. split; [congruence|].
        replace (attempts + 1 + Z.of_nat k)%Z with (attempts + Z.of_nat (S k))%Z in Hres by lia.
        case_bool_decide.
        -- destruct Hres as [-> ->]. split; [done|]. rewrite Hi. simpl.
           by rewrite replicate_shift.
        -- destruct Hres as (-> & -> & Hlog). split; [done|]. split; [|done]. rewrite Hi.
           replace (Z.to_nat (Paru.paru_num_retries self - attempts + 1))
             with (S (Z.to_nat (Paru.paru_num_retries self - (attempts + 1) + 1))) by lia.
           simpl. by rewrite replicate_shift.
    + destruct (exhausted_run cmd
                  (CalledProcessError cmd (out_rc (sys w (length (invoked w)) cmd))) w1)
        as (w2 & -> & (Hs2 & Hi2 & Hh2) & Hlog).
      exists w2. split; [congruence|]. split; [congruence|].
      rewrite bool_decide_eq_false_2 by lia.
      split; [done|]. split; [|eauto]. rewrite Hi2, Hi.
      by replace (Z.to_nat (Paru.paru_num_retries self - attempts + 1)) with 1%nat by lia.
Qed.

(** [ParuManager.run_paru] with a retry count [r >= 0], on a command that is
    not cut off by the timeout, fails its first [k] invocations and succeeds
    at the next: when [r >= k] the call returns [True] after [k + 1]
    invocations; when [r < k] it returns [False] after [r + 1] invocations
    and logs the failure as a warning.  It does not raise. *)
Theorem run_paru_retry (self : Paru.ParuManager) (command : list string)
    (callback : bool) (w : world) (k : nat) :
  let r := Paru.paru_num_retries self in
  let n := length (invoked w) in
  (0 <= r)%Z →
  (∀ i, (i <= k)%nat → on_time self (sys w (n + i) command)) →
  (∀ i, (i < k)%nat → out_rc (sys w (n + i) command) ≠ 0%Z) →
  out_rc (sys w (n + k) command) = 0%Z →
  ∃ w',
    heap w' = heap w ∧
    if bool_decide (Z.of_nat k <= r)%Z then
      Paru.run_paru self command callback w = (Ok true, w') ∧
      invoked w' = replicate (k + 1) command ++ invoked w
    else
      Paru.run_paru self command callback w = (Ok false, w') ∧
      invoked w' = replicate (Z.to_nat (r + 1)) command ++ invoked w ∧
      ∃ rc, rc ≠ 0%Z ∧
        WarningExn "paru command failed (ignored): " (CalledProcessError command rc) ∈ log w'.
Proof.
  intros r n Hr Hon Hfail Hok. unfold Paru.run_paru, Paru._set_build_env.
  rewrite bind_run. unfold modify at 1.
  match goal with |- context [Paru.run_paru_loop _ _ _ _ _ _ ?w0] =>
    destruct (run_paru_loop_spec self command callback k
                (S (Z.to_nat (Paru.paru_num_retries self + 1))) 0%Z None w0)
      as (w' & Hs & Hh & Hres) end; try done; try (fold r; lia).
  exists w'. split; [done|]. simpl in Hres. fold r in Hres.
  replace (r - 0 + 1)%Z with (r + 1)%Z in Hres by lia.
  replace (k + 1)%nat with (S k) by lia.
  exact Hres.
Qed.

Lemma mjoin_replicate_shift {A} (j : nat) (l t : list A) :
  mjoin (replicate j l) ++ l ++ t = l ++ mjoin (replicate j l) ++ t.
Proof.
  induction j as [|j IH]; simpl; [done|].
  by rewrite <- !app_assoc, IH.
Qed.

Lemma run_paru_loop_slow self cmd callback (m : nat) :
  Paru.paru_timeout self ≠ 0%Z →
  ∀ fuel attempts last_exc w,
    (∀ i, out_slow (sys w (length (invoked w) + 2 * i) cmd) = true) →
    (attempts <= Paru.paru_num_retries self)%Z →
    Z.to_nat (Paru.paru_num_retries self - attempts) = m →
    (m < fuel)%nat →
    ∃ w',
      Paru.run_paru_loop fuel self cmd callback attempts last_exc w = (Ok false, w')
      ∧ heap w' = heap w
      ∧ invoked w' = mjoin (replicate (S m) [pkill_paru; cmd]) ++ invoked w
      ∧ WarningExn "paru command failed (ignored): " (CalledProcessError cmd 124) ∈ log w'.
Proof.
  intros Ht. induction m as [|m IH]; intros fuel attempts last_exc w Hslow Hcount Hm Hfuel.
  - destruct fuel as [|fuel]; [lia|]. simpl.
    assert ((attempts <=? Paru.paru_num_retries self)%Z = true) as -> by lia.
    rewrite bind_run.
    destruct (one_attempt_slow self cmd callback w Ht) as (w1 & -> & Hs & Hh & Hi).
    { specialize (Hslow 0%nat). by rewrite Nat.add_0_r in Hslow. }
    assert ((attempts + 1 <=? Paru.paru_num_retries self)%Z = false) as -> by lia.
    destruct (exhausted_run cmd (CalledProcessError cmd 124) w1)
      as (w2 & -> & (Hs2 & Hi2 & Hh2) & Hlog).
    exists w2. split; [done|]. split; [congruence|]. split; [|done].
    by rewrite Hi2, Hi.
  - destruct fuel as [|fuel]; [lia|]. simpl.
    assert ((attempts <=? Paru.paru_num_retries self)%Z = true) as -> by lia.
    rewrite bind_run.
    destruct (one_attempt_slow self cmd callback w Ht) as (w1 & -> & Hs & Hh & Hi).
    { specialize (Hslow 0%nat). by rewrite Nat.add_0_r in Hslow. }
    assert ((attempts + 1 <=? Paru.paru_num_retries self)%Z = true) as -> by lia.
    destruct (IH fuel (attempts + 1)%Z (Some (CalledProcessError cmd 124)) w1)
      as (w2 & -> & Hh2 & Hi2 & Hlog); [|lia..|].
    { intros i. rewrite Hs, Hi. simpl.
      replace (S (S (length (invoked w) + (i + (i + 0)))))
        with (length (invoked w) + 2 * S i)%nat by lia.
      apply Hslow. }
    exists w2. split; [done|]. split; [congruence|]. split; [|done].
    rewrite Hi2, Hi.
    exact (mjoin_replicate_shift (S m) [pkill_paru; cmd] (invoked w)).
Qed.

(** [ParuManager.run_paru] with a timeout, on a command that is still
    running each time the timeout expires: every one of the [r + 1] attempts
    is followed by one [pkill], the call returns [False], and the failure is
    logged with exit code 124. *)
Theorem run_paru_timeout (self : Paru.ParuManager) (command : list string)
    (callback : bool) (w : world) :
  let r := Paru.paru_num_retries self in
  let n := length (invoked w) in
  (0 <= r)%Z →
  Paru.paru_timeout self ≠ 0%Z →
  (∀ i, out_slow (sys w (n + 2 * i) command) = true) →
  ∃ w',
    Paru.run_paru self command callback w = (Ok false, w')
    ∧ heap w' = heap w
    ∧ invoked w' = mjoin (replicate (Z.to_nat (r + 1)) [pkill_paru; command]) ++ invoked w
    ∧ WarningExn "paru command failed (ignored): " (CalledProcessError command 124) ∈ log w'.
Proof.
  intros r n Hr Ht Hslow. unfold Paru.run_paru, Paru._set_build_env.
  rewrite bind_run. unfold modify at 1.
  match goal with |- context [Paru.run_paru_loop _ _ _ _ _ _ ?w0] =>
    destruct (run_paru_loop_slow self command callback (Z.to_nat r) Ht
                (S (Z.to_nat (Paru.paru_num_retries self + 1))) 0%Z None w0)
      as (w' & Hrun & Hh & Hi & Hlog) end; try done; try (fold r; lia).
  exists w'. split; [done|]. split; [done|]. split; [|done].
  rewrite Hi. simpl. by replace (Z.to_nat (r + 1)) with (S (Z.to_nat r)) by lia.
Qed.

(** *** Pre- and postconditions *)

Section hoare.
Context {A : Type}.
Implicit Types (pre : world → Prop) (post : A → world → Prop) (fail : exn → world → Prop).

Lemma hoare_ret pre post fail a : (∀ w, pre w → post a w) → hoare pre (mret a) post fail.
Proof. intros H w Hw. by apply H. Qed.

Lemma hoare_raise pre post fail e : (∀ w, pre w → fail e w) → hoare pre (raise e) post fail.
Proof. intros H w Hw. by apply H. Qed.

Lemma hoare_bind {C} pre (mid : C → world → Prop) post fail (m : M C) (k : C → M A) :
  hoare pre m mid fail → (∀ c, hoare (mid c) (k c) post fail) → hoare pre (m ≫= k) post fail.
Proof.
  intros Hm Hk w Hw. rewrite bind_run. specialize (Hm w Hw).
  destruct (m w) as [[c|e|] w1]; [|done..]. by apply Hk.
Qed.

Lemma hoare_conseq pre pre' post post' fail fail' (m : M A) :
  hoare pre m post fail →
  (∀ w, pre' w → pre w) → (∀ a w, post a w → post' a w) → (∀ e w, fail e w → fail' e w) →
  hoare pre' m post' fail'.
Proof.
  intros H Hpre Hpost Hfail w Hw. specialize (H w (Hpre w Hw)).
  destruct (m w) as [[a|e|] w1]; auto.
Qed.

Lemma hoare_try_except pre post (fail1 fail : exn → world → Prop) (m : M A) h :
  hoare pre m post fail1 →
  (∀ e, match h e with
        | Some k => hoare (fail1 e) k post fail
        | None => ∀ w, fail1 e w → fail e w
        end) →
  hoare pre (try_except m h) post fail.
Proof.
  intros Hm Hh w Hw. unfold try_except. specialize (Hm w Hw).
  destruct (m w) as [[a|e|] w1]; [done| |done].
  specialize (Hh e). destruct (h e) as [k|]; by apply Hh.
Qed.

Lemma hoare_run pre post (m : M A) w :
  hoare pre m post (λ _ _, False) → pre w → ∃ a w', m w = (Ok a, w') ∧ post a w'.
Proof.
  intros H Hw. specialize (H w Hw). destruct (m w) as [[a|e|] w1]; [eauto|done..].
Qed.
End hoare.

Lemma hoare_get pre (post : world → world → Prop) fail :
  (∀ w, pre w → post w w) → hoare pre get post fail.
Proof. intros H w Hw. by apply H. Qed.

Lemma hoare_modify pre (post : unit → world → Prop) fail g :
  (∀ w, pre w → post tt (g w)) → hoare pre (modify g) post fail.
Proof. intros H w Hw. by apply H. Qed.

Lemma hoare_spawn pre (post : outcome → world → Prop) fail cmd :
  (∀ w, pre w → post (sys w (length (invoked w)) cmd) (set_invoked (cmd :: invoked w) w)) →
  hoare pre (spawn cmd) post fail.
Proof. intros H w Hw. by apply H. Qed.

Lemma hoare_for_each {A} (inv : world → Prop) fail (l : list A) (body : A → M unit) :
  (∀ x, hoare inv (body x) (λ _, inv) fail) →
  hoare inv (for_each l body) (λ _, inv) fail.
Proof.
  intros Hb. induction l as [|x l IH]; simpl; [by apply hoare_ret|].
  eapply (hoare_bind _ (λ _, inv)); [apply Hb|]. intros _. exact IH.
Qed.

(** One syntax-directed step for an invariant that every step keeps. *)
Ltac hoare_step :=
  lazymatch goal with
  | |- hoare _ (mret _) _ _ => apply hoare_ret; intros ? ?
  | |- hoare _ (raise _) _ _ => apply hoare_raise; intros ? ?
  | |- hoare ?pre (_ ≫= _) _ _ => eapply (hoare_bind pre (λ _, pre)); [|intros ?]
  | |- hoare _ get _ _ => apply hoare_get; intros ? ?
  | |- hoare _ (modify _) _ _ => apply hoare_modify; intros ? ?
  | |- hoare _ (warning _) _ _ => apply hoare_modify; intros ? ?
  | |- hoare _ (debug _) _ _ => apply hoare_modify; intros ? ?
  | |- hoare _ (log_event _) _ _ => apply hoare_modify; intros ? ?
  | |- hoare _ (setprogress _) _ _ => apply hoare_modify; intros ? ?
  | |- hoare _ (spawn _) _ _ => apply hoare_spawn; intros ? ?
  | |- hoare _ (for_each _ _) _ _ => apply hoare_for_each; intros ?
  | |- hoare _ (if ?b then _ else _) _ _ => destruct b
  | |- hoare _ (match ?x with _ => _ end) _ _ => destruct x
  end.

Lemma hoare_steady {A B} (f : world → B) (x : B) (Q : A → Prop) (P : exn → Prop) (m : M A) :
  ends Q P m → preserves f m →
  hoare (λ w, f w = x) m (λ a w, Q a ∧ f w = x) (λ e w, P e ∧ f w = x).
Proof.
  intros He Hp w Hw. specialize (He w). specialize (Hp w).
  destruct (m w) as [[a|e|] w1]; simpl in *; [split; congruence..|done].
Qed.

(** A step that returns and keeps the observation the precondition fixes. *)
Lemma hoare_frame {A B} (f : world → B) (x : B) fail (m : M A) :
  ends anything nothing m → preserves f m →
  hoare (λ w, f w = x) m (λ _ w, f w = x) fail.
Proof.
  intros He Hp. eapply hoare_conseq; [by apply (hoare_steady f x anything nothing)|..].
  - done.
  - by intros a w [_ H].
  - by intros e w [[] _].
Qed.

Lemma hoare_of_ends {A} (Q : A → Prop) (P : exn → Prop) (m : M A) :
  ends Q P m → hoare (λ _, True) m (λ a _, Q a) (λ e _, P e).
Proof.
  intros He w _. specialize (He w). by destruct (m w) as [[a|e|] w1].
Qed.

Lemma ends_of_hoare {A} (Q : A → Prop) (P : exn → Prop) (m : M A) :
  hoare (λ _, True) m (λ a _, Q a) (λ e _, P e) → ends Q P m.
Proof.
  intros H w. specialize (H w I). by destruct (m w) as [[a|e|] w1].
Qed.

(** A fact about a value read earlier is a fact of the context. *)
Lemma hoare_assume {A} (P : Prop) pre (m : M A) post fail :
  (P → hoare pre m post fail) → hoare (λ w, P ∧ pre w) m post fail.
Proof. intros H w [HP Hw]. by apply H. Qed.

(** *** The pacstrap job *)

Lemma idle_refl w : idle w w.
Proof. split; [done|]. by exists 0%nat. Qed.

Lemma idle_push w0 w : idle w0 w → idle w0 (set_progress (0%Q :: progress w) w).
Proof. intros [Ho [n Hn]]. split; [done|]. exists (S n). simpl. by rewrite Hn. Qed.

Lemma hoare_pacstrap_line_cb w0 fail line :
  hoare (idle w0) (Pacstrap.line_cb line) (λ _, idle w0) fail.
Proof.
  unfold Pacstrap.line_cb.
  do 2 (hoare_step; [hoare_step; assumption|]).
  hoare_step. { intros w Hw. exact Hw. }
  repeat first [ assumption | by apply idle_push | (intros ? ?; assumption) | hoare_step ].
Qed.

Lemma hoare_run_in_host w0 cmd :
  hoare (idle w0) (Pacstrap.run_in_host cmd Pacstrap.line_cb)
    (λ _, idle w0) (λ e w, pacman_error e ∧ idle w0 w).
Proof.
  unfold Pacstrap.run_in_host.
  repeat first [ assumption | by split | apply hoare_pacstrap_line_cb | hoare_step ].
Qed.

Lemma hoare_host_capture w0 cmd :
  hoare (idle w0) (Pacstrap._host_capture_lines cmd)
    (λ _, idle w0) (λ e w, pacman_error e ∧ idle w0 w).
Proof.
  unfold Pacstrap._host_capture_lines.
  eapply (hoare_bind _ (λ _, idle w0)); [hoare_step; assumption|]. intros o.
  repeat first [ assumption | by split | hoare_step ].
Qed.

Lemma hoare_filter w0 fail key items pkgs groups :
  hoare (idle w0) (Pkgcheck.filter_operation_list key items pkgs groups)
    (λ _, idle w0) fail.
Proof.
  induction items as [|item rest IH]; simpl.
  - by hoare_step.
  - eapply (hoare_bind _ (λ _, idle w0)); [hoare_step; assumption|]. intros w.
    repeat first [ assumption | apply IH | hoare_step ].
Qed.

Lemma hoare_pacstrap_prepare w0 hst cfg :
  hoare (idle w0) (Pacstrap.prepare hst cfg)
    (λ r w, idle w0 w ∧ r ≠ inl JobNone) (λ _ _, False).
Proof.
  unfold Pacstrap.prepare.
  eapply (hoare_bind _ (λ _, idle w0)); [hoare_step; assumption|]. intros w.
  destruct (gs_rootMountPoint (gs w)) as [root|]; [|by hoare_step].
  destruct (negb (Py.truthy root)); [by hoare_step|].
  destruct (negb (Pacstrap.path_exists hst root)); [by hoare_step|].
  destruct (negb (Pacstrap.configuration_truthy cfg)); [by hoare_step|].
  destruct (Pacstrap.basePackages cfg) as [[base|]|]; [|by hoare_step..].
  eapply (hoare_bind _ (λ _, idle w0)).
  { unfold Pacstrap.augment. repeat first [ assumption | hoare_step ]. }
  intros base'.
  eapply (hoare_bind _ (λ _, idle w0)).
  { eapply (hoare_try_except _ _ (λ e w, pacman_error e ∧ idle w0 w)).
    - unfold Pacstrap._maybe_sync_db_host, Pacstrap._has_internet.
      destruct (negb _); [by hoare_step|].
      repeat first [ assumption | apply hoare_run_in_host | hoare_step ].
    - intros e. destruct e; by intros ? []. }
  intros _.
  eapply (hoare_try_except _ _ (λ e w, pacman_error e ∧ idle w0 w)).
  - unfold Pacstrap._build_repo_index_host.
    eapply (hoare_bind _ (λ _, idle w0)).
    { repeat first [ assumption | apply hoare_host_capture | hoare_step ]. }
    intros [pkgs groups].
    eapply (hoare_bind _ (λ _, idle w0)); [|intros; by hoare_step].
    eapply hoare_conseq; [apply (hoare_filter w0 (λ _ _, False))|auto..]. done.
  - intros e. destruct e; by intros ? [].
Qed.

Lemma hoare_finish w0 :
  hoare (idle w0) Pacstrap.finish (pacstrap_outcome w0) (λ _ _, False).
Proof.
  intros w [Ho [n Hn]]. unfold Pacstrap.finish. unfold_M. simpl.
  split; [done|]. exists n. by rewrite Hn.
Qed.

Lemma hoare_pacstrap_install w0 hst cfg root base :
  hoare (idle w0) (Pacstrap.install hst cfg root base) (pacstrap_outcome w0) (λ _ _, False).
Proof.
  unfold Pacstrap.install. destruct base as [|item base].
  { eapply (hoare_bind _ (λ _, idle w0)); [by hoare_step|]. intros _. apply hoare_finish. }
  destruct (all_str (item :: base)) as [names|]; [|by hoare_step].
  eapply (hoare_bind _ (λ r w, match r with
                               | Some result => pacstrap_outcome w0 result w
                               | None => idle w0 w
                               end)).
  - eapply (hoare_try_except _ _ (λ e w, pacman_error e ∧ idle w0 w)).
    + eapply (hoare_bind _ (λ _, idle w0)); [apply hoare_run_in_host|].
      intros _. by hoare_step.
    + intros e. hoare_step. by destruct H.
  - intros [result|]; [by hoare_step|].
    eapply (hoare_bind _ (λ _, idle w0)); [|intros _; apply hoare_finish].
    unfold Pacstrap.copy_files. repeat first [ assumption | hoare_step ].
Qed.

(** [run] of the pacstrap module always returns.  Before it returns [None]
    it marks the system online and pushes 1.0, having pushed nothing but 0
    before; when it returns an error pair the online mark is as it was and
    no progress value other than 0 has been pushed. *)
Theorem pacstrap_run_outcome (hst : Pacstrap.host) (cfg : Pacstrap.configuration)
    (w : world) :
  ∃ result w', Pacstrap.run hst cfg w = (Ok result, w') ∧ pacstrap_outcome w result w'.
Proof.
  apply (hoare_run (idle w)); [|apply idle_refl].
  unfold Pacstrap.run.
  eapply hoare_bind; [apply hoare_pacstrap_prepare|].
  intros [result|[root base]].
  - apply hoare_ret. intros w1 [Hidle Hr]. by destruct result.
  - eapply hoare_conseq; [apply hoare_pacstrap_install| | |].
    + by intros ? [? _].
    + auto.
    + auto.
Qed.

(** *** Commands leave the counters alone *)

Lemma preserves_core_spawn cmd : preserves core (spawn cmd).
Proof. done. Qed.

Lemma preserves_core_setprogress q : preserves core (setprogress q).
Proof. done. Qed.

Lemma preserves_core_truediv c t : preserves core (truediv c t).
Proof. intros w. unfold truediv. by destruct (t =? 0)%Z. Qed.

Ltac preserves_core :=
  repeat first
    [ apply preserves_core_truediv
    | apply preserves_core_setprogress
    | apply preserves_core_spawn
    | assumption
    | preserves_step ].

Lemma preserves_core_push_fraction : preserves core push_fraction.
Proof. unfold push_fraction. preserves_core. Qed.

Lemma preserves_core_target cmd cb :
  (∀ f line, cb = Some f → preserves core (f line)) →
  preserves core (target_env_process_output cmd cb).
Proof.
  intros Hcb. unfold target_env_process_output.
  apply preserves_bind; [apply preserves_core_spawn|]. intros o.
  preserves_core. by apply Hcb.
Qed.

Lemma preserves_core_run_script script : preserves core (_run_script script).
Proof.
  unfold _run_script, check_target_env_call.
  destruct (Py.truthy script); [|apply preserves_ret].
  apply preserves_core_target. intros f line [=].
Qed.

Lemma preserves_core_paru_line_cb line : preserves core (Paru.line_cb line).
Proof. unfold Paru.line_cb. preserves_core. Qed.

Lemma preserves_core_paru_target cmd (callback : bool) :
  preserves core
    (target_env_process_output cmd (if callback then Some Paru.line_cb else None)).
Proof.
  apply preserves_core_target. intros f line Hf. destruct callback; [|done].
  injection Hf as <-. apply preserves_core_paru_line_cb.
Qed.

Lemma preserves_core_one_attempt self cmd callback :
  preserves core (Paru.one_attempt self cmd callback).
Proof.
  unfold Paru.one_attempt, Paru.threaded_call.
  apply preserves_try_except.
  - destruct (Paru.paru_timeout self =? 0)%Z.
    + apply preserves_bind; [apply preserves_core_paru_target|]. intros. apply preserves_ret.
    + apply preserves_bind.
      * apply preserves_bind; [apply preserves_core_spawn|]. intros o.
        apply preserves_bind; [|intros; apply preserves_ret].
        apply preserves_try_except.
        -- apply preserves_bind.
           ++ destruct callback; [|apply preserves_ret].
              apply preserves_for_each. intros. apply preserves_core_paru_line_cb.
           ++ intros. preserves_core.
        -- intros e k [= <-]. apply preserves_ret.
      * intros th. destruct (th.1 : bool).
        -- apply preserves_bind; [preserves_core|]. intros.
           apply preserves_bind; [|intros; apply preserves_ret].
           apply preserves_try_except.
           ++ apply preserves_core_target. intros f line [=].
           ++ intros e k [= <-]. apply preserves_ret.
        -- destruct th.2; apply preserves_ret.
  - intros e k He. destruct e; try done; injection He as <-; apply preserves_ret.
Qed.

Lemma preserves_core_run_paru self cmd callback :
  preserves core (Paru.run_paru self cmd callback).
Proof.
  unfold Paru.run_paru, Paru._set_build_env.
  apply preserves_bind; [preserves_core|]. intros _.
  generalize 0%Z (@None exn).
  induction (S (Z.to_nat (Paru.paru_num_retries self + 1))) as [|fuel IH];
    intros attempts last_exc; simpl.
  - apply preserves_out_of_fuel.
  - assert (Hex : ∀ l, preserves core (Paru.exhausted cmd l)).
    { intros l. unfold Paru.exhausted. preserves_core. }
    destruct (attempts <=? Paru.paru_num_retries self)%Z; [|apply Hex].
    apply preserves_bind; [apply preserves_core_one_attempt|]. intros a.
    destruct a as [|e]; [apply preserves_ret|].
    destruct (attempts + 1 <=? Paru.paru_num_retries self)%Z; [apply IH | apply Hex].
Qed.

Lemma preserves_core_paru_reset_progress : preserves core Paru.reset_progress.
Proof. unfold Paru.reset_progress. preserves_core. Qed.

Lemma preserves_core_paru_install self pkgs from_local :
  preserves core (Paru.install self pkgs from_local).
Proof.
  unfold Paru.install.
  repeat first [ apply preserves_core_paru_reset_progress | apply preserves_core_run_paru
               | preserves_step ].
Qed.

Lemma preserves_core_paru_remove self pkgs : preserves core (Paru.remove self pkgs).
Proof.
  unfold Paru.remove.
  repeat first [ apply preserves_core_paru_reset_progress | apply preserves_core_run_paru
               | preserves_step ].
Qed.

Lemma preserves_core_paru_install_package self p from_local :
  preserves core (Paru.install_package self p from_local).
Proof.
  unfold Paru.install_package, Paru.ignore_exception, Paru.package_item.
  apply preserves_try_except; [|intros e k [= <-]; preserves_core].
  destruct p as [s|a]; [apply preserves_core_paru_install|].
  repeat first [ apply preserves_core_run_script | apply preserves_core_paru_install
               | preserves_step ].
Qed.

Lemma preserves_core_paru_remove_package self p :
  preserves core (Paru.remove_package self p).
Proof.
  unfold Paru.remove_package, Paru.ignore_exception, Paru.package_item.
  apply preserves_try_except; [|intros e k [= <-]; preserves_core].
  destruct p as [s|a]; [apply preserves_core_paru_remove|].
  repeat first [ apply preserves_core_run_script | apply preserves_core_paru_remove
               | preserves_step ].
Qed.

(** A computation that returns and keeps an observation. *)
Lemma returns_steady {A B} (f : world → B) (Q : A → Prop) (m : M A) :
  ends Q nothing m → preserves f m →
  ∀ w, ∃ a w', m w = (Ok a, w') ∧ Q a ∧ f w' = f w.
Proof.
  intros He Hp w. specialize (He w). specialize (Hp w).
  destruct (m w) as [[a|e|] w1]; simpl in *; [eauto|done..].
Qed.

(** *** The resolver keeps the same entries when it is run again *)

Lemma same_presence_refl h : same_presence h h.
Proof. done. Qed.

Lemma same_presence_trans h1 h2 h3 :
  same_presence h1 h2 → same_presence h2 h3 → same_presence h1 h3.
Proof. intros H12 H23 a. etrans; [apply H12 | apply H23]. Qed.

Lemma drift_refl locale h : drift locale h h.
Proof. unfold drift. by destruct (String.eqb locale "en"). Qed.

Lemma drift_trans locale h1 h2 h3 :
  drift locale h1 h2 → drift locale h2 h3 → drift locale h1 h3.
Proof.
  unfold drift. destruct (String.eqb locale "en"); [congruence|].
  apply same_presence_trans.
Qed.

Lemma heap_evolves_presence h h' : heap_evolves h h' → same_presence h h'.
Proof.
  intros Hev a. specialize (Hev a). destruct (h !! a) as [d|]; simpl.
  - destruct Hev as (d' & -> & _ & _ & Hp). simpl.
    destruct (package d) as [n|]; [destruct Hp as (n' & -> & _); by split|].
    by rewrite Hp.
  - by rewrite Hev.
Qed.

Lemma loop_drift locale plist h :
  locale ≠ "" → drift locale h (subst_locale_loop locale h plist).1.
Proof.
  intros HL. unfold drift. destruct (String.eqb_spec locale "en") as [->|_].
  - apply loop_en.
  - by apply heap_evolves_presence, subst_locale_loop_evolves.
Qed.

Lemma same_presence_alter h h' a n n' :
  is_Some (h !! a ≫= package) →
  same_presence h h' →
  same_presence (alter (set_package n) a h) (alter (set_package n') a h').
Proof.
  intros Ha H b. destruct (decide (a = b)) as [<-|Hab].
  - rewrite !lookup_alter_eq. pose proof (proj1 (H a) Ha) as Ha'.
    destruct (h !! a) as [d|]; [|by destruct Ha].
    destruct (h' !! a) as [d'|]; [|by destruct Ha'].
    simpl. split; eauto.
  - rewrite !lookup_alter_ne by done. apply H.
Qed.

Lemma kept_count_presence locale plist :
  String.eqb locale "en" = false →
  ∀ h h', same_presence h h' → kept_count locale h plist = kept_count locale h' plist.
Proof.
  intros HL. unfold kept_count.
  induction plist as [|item rest IH]; intros h h' Hp; [done|]. simpl.
  assert (Hitem : is_Some (packagename_of h item) ↔ is_Some (packagename_of h' item)).
  { destruct item as [s|a]; simpl; [by split; eauto | apply Hp]. }
  assert (Hres : ∀ n, resolve_name locale n = Some (Py.safe_substitute locale n)).
  { intros n. unfold resolve_name. by rewrite HL. }
  destruct (packagename_of h item) as [n|] eqn:Hn,
           (packagename_of h' item) as [n'|] eqn:Hn'; simpl.
  - rewrite !Hres. destruct item as [s|a].
    + specialize (IH h h' Hp).
      destruct (subst_locale_loop locale h rest), (subst_locale_loop locale h' rest).
      simpl in *. lia.
    + assert (Hp' : same_presence
                        (alter (set_package (Py.safe_substitute locale n)) a h)
                        (alter (set_package (Py.safe_substitute locale n')) a h')).
      { apply same_presence_alter; [|done]. simpl in Hn. by rewrite Hn. }
      specialize (IH _ _ Hp').
      destruct (subst_locale_loop locale _ rest), (subst_locale_loop locale _ rest).
      simpl in *. lia.
  - destruct Hitem as [Hi _]. by destruct Hi.
  - destruct Hitem as [_ Hi]. by destruct Hi.
  - by apply IH.
Qed.

Lemma kept_count_drift locale plist h h' :
  drift locale h h' → kept_count locale h plist = kept_count locale h' plist.
Proof.
  unfold drift. destruct (String.eqb locale "en") eqn:HL; [by intros ->|].
  by apply kept_count_presence.
Qed.

Lemma operation_count_drift locale op h h' :
  drift locale h h' → operation_count locale h op = operation_count locale h' op.
Proof.
  intros Hd. unfold operation_count. induction op as [|kv op IH]; simpl; [done|].
  by rewrite IH, (kept_count_drift locale _ h h').
Qed.

Lemma operations_count_drift locale ops h h' :
  drift locale h h' → operations_count locale h ops = operations_count locale h' ops.
Proof.
  intros Hd. unfold operations_count. induction ops as [|op ops IH]; simpl; [done|].
  by rewrite IH, (operation_count_drift locale _ h h').
Qed.

Lemma hoare_counted_frame {A} g h0 t c fail (m : M A) :
  ends anything nothing m → preserves core m →
  hoare (counted g h0 t c) m (λ _, counted g h0 t c) fail.
Proof.
  intros He Hp w (Hg & Hd & Ht & Hc).
  destruct (returns_steady core anything m He Hp w) as (a & w' & -> & _ & Hcore).
  unfold core in Hcore. injection Hcore as Hg' Hh' Ht' Hc'.
  unfold counted. by rewrite Hg', Hh', Ht', Hc'.
Qed.

Lemma hoare_counted_modify g h0 t c fail (f : world → world) :
  (∀ w, core (f w) = core w) →
  hoare (counted g h0 t c) (modify f) (λ _, counted g h0 t c) fail.
Proof.
  intros Hf. apply hoare_counted_frame; [by apply ends_modify|].
  by apply preserves_modify.
Qed.

Lemma hoare_counted_subst_locale g h0 t c fail v :
  hoare (counted g h0 t c) (subst_locale v)
    (λ l w, counted g h0 t c w
            ∧ Z.of_nat (length l) = kept_count (ambient_locale g) h0 (py_iter v)) fail.
Proof.
  intros w (Hg & Hd & Ht & Hc). rewrite subst_locale_run. subst g.
  split.
  - split; [done|]. split; [|done]. simpl.
    eapply drift_trans; [exact Hd|]. apply loop_drift, ambient_locale_nonempty.
  - symmetry. by apply kept_count_drift.
Qed.

Lemma counted_total g h0 t t' c w : t = t' → counted g h0 t c w → counted g h0 t' c w.
Proof. by intros ->. Qed.

Lemma counted_completed g h0 t c c' w : c = c' → counted g h0 t c w → counted g h0 t c' w.
Proof. by intros ->. Qed.

Lemma hoare_count_operation g h0 c fail op :
  ∀ t, hoare (counted g h0 t c) (Paru.count_operation op)
         (λ _, counted g h0 (t + operation_count (ambient_locale g) h0 op) c) fail.
Proof.
  unfold Paru.count_operation.
  induction op as [|[key value] op IH]; intros t; simpl.
  - apply hoare_ret. intros w Hw. by rewrite Z.add_0_r.
  - eapply (hoare_bind _
              (λ _, counted g h0 (t + kept_count (ambient_locale g) h0 (py_iter value)) c)).
    + eapply hoare_bind; [apply hoare_counted_subst_locale|]. intros l.
      apply hoare_modify. intros w [(Hg & Hd & Ht & Hc) Hl].
      split; [done|]. split; [done|]. split; [|done]. simpl. by rewrite Ht, Hl.
    + intros ?. eapply hoare_conseq;
        [apply (IH (t + kept_count (ambient_locale g) h0 (py_iter value))%Z)|auto..].
      intros ? w. apply counted_total. lia.
Qed.

Lemma hoare_count_operations g h0 c fail ops :
  ∀ t, hoare (counted g h0 t c) (for_each ops Paru.count_operation)
         (λ _, counted g h0 (t + operations_count (ambient_locale g) h0 ops) c) fail.
Proof.
  induction ops as [|op ops IH]; intros t; simpl.
  - apply hoare_ret. intros w Hw. by rewrite Z.add_0_r.
  - eapply (hoare_bind _
              (λ _, counted g h0 (t + operation_count (ambient_locale g) h0 op) c)).
    + apply hoare_count_operation.
    + intros ?. eapply hoare_conseq;
        [apply (IH (t + operation_count (ambient_locale g) h0 op)%Z)|auto..].
      intros ? w. apply counted_total. lia.
Qed.

(** The dispatcher of one key, for a manager whose methods keep the
    counters: the key's resolved entries are added to [completed_packages]. *)
Lemma hoare_run_operation_key (pkgman : PackageManager) fail g h0 t c key value :
  (∀ l b, hoare (counted g h0 t c) (operation_install l b) (λ _, counted g h0 t c) fail) →
  (∀ l, hoare (counted g h0 t c) (operation_try_install l) (λ _, counted g h0 t c) fail) →
  (∀ l, hoare (counted g h0 t c) (operation_remove l) (λ _, counted g h0 t c) fail) →
  (∀ l, hoare (counted g h0 t c) (operation_try_remove l) (λ _, counted g h0 t c) fail) →
  hoare (counted g h0 t c) (run_operation_key pkgman key value)
    (λ _, counted g h0 t (c + kept_count (ambient_locale g) h0 (py_iter value))) fail.
Proof.
  intros Hi Hti Hr Htr. unfold run_operation_key.
  eapply hoare_bind; [apply hoare_counted_subst_locale|]. intros l.
  set (I := counted g h0 t c) in *.
  set (J := λ (_ : unit) w, I w ∧ Z.of_nat (length l)
                                  = kept_count (ambient_locale g) h0 (py_iter value)).
  assert (Hkeep : ∀ m : M unit, hoare I m (λ _, I) fail → hoare (J tt) m J fail).
  { intros m Hm w [Hw Hl]. specialize (Hm w Hw).
    destruct (m w) as [[[]|e|] w1]; [by split|done..]. }
  assert (Hmode : ∀ m, hoare I (_change_mode m) (λ _, I) fail).
  { intros m. apply hoare_counted_frame; [apply ends_change_mode|].
    unfold _change_mode.
    apply preserves_bind; [by apply preserves_modify|].
    intros. apply preserves_core_push_fraction. }
  eapply (hoare_bind _ J).
  { apply Hkeep. by apply hoare_counted_modify. }
  intros [].
  eapply (hoare_bind _ J).
  { apply Hkeep.
    destruct (String.eqb key "install").
    { eapply (hoare_bind _ (λ _, I)); [apply Hmode|intros ?; apply Hi]. }
    destruct (String.eqb key "try_install").
    { eapply (hoare_bind _ (λ _, I)); [apply Hmode|intros ?; apply Hti]. }
    destruct (String.eqb key "remove").
    { eapply (hoare_bind _ (λ _, I)); [apply Hmode|intros ?; apply Hr]. }
    destruct (String.eqb key "try_remove").
    { eapply (hoare_bind _ (λ _, I)); [apply Hmode|intros ?; apply Htr]. }
    destruct (String.eqb key "localInstall").
    { eapply (hoare_bind _ (λ _, I)); [apply Hmode|intros ?; apply Hi]. }
    destruct (String.eqb key "source"); by apply hoare_counted_modify. }
  intros [].
  eapply (hoare_bind _ (λ _, counted g h0 t
                               (c + kept_count (ambient_locale g) h0 (py_iter value)))).
  { apply hoare_modify. intros w [(Hg & Hd & Ht & Hc) Hl].
    split; [done|]. split; [done|]. split; [done|]. simpl. by rewrite Hc, Hl. }
  intros ?. apply hoare_counted_frame; [apply ends_push_fraction|].
  apply preserves_core_push_fraction.
Qed.

Lemma hoare_run_operations (pkgman : PackageManager) fail g h0 t entry :
  (∀ c l b, hoare (counted g h0 t c) (operation_install l b) (λ _, counted g h0 t c) fail) →
  (∀ c l, hoare (counted g h0 t c) (operation_try_install l) (λ _, counted g h0 t c) fail) →
  (∀ c l, hoare (counted g h0 t c) (operation_remove l) (λ _, counted g h0 t c) fail) →
  (∀ c l, hoare (counted g h0 t c) (operation_try_remove l) (λ _, counted g h0 t c) fail) →
  ∀ c, hoare (counted g h0 t c) (run_operations pkgman entry)
         (λ _, counted g h0 t (c + operation_count (ambient_locale g) h0 entry)) fail.
Proof.
  intros Hi Hti Hr Htr c. unfold run_operations.
  eapply (hoare_bind _ (λ _, counted g h0 t
                               (c + operation_count (ambient_locale g) h0 entry))).
  - revert c. induction entry as [|[key value] entry IH]; intros c; simpl.
    + apply hoare_ret. intros w Hw. by rewrite Z.add_0_r.
    + eapply (hoare_bind _
                (λ _, counted g h0 t (c + kept_count (ambient_locale g) h0 (py_iter value)))).
      * by apply hoare_run_operation_key.
      * intros ?. eapply hoare_conseq;
          [apply (IH (c + kept_count (ambient_locale g) h0 (py_iter value))%Z)|auto..].
        intros ? w. apply counted_completed. lia.
  - intros ?.
    eapply (hoare_bind _ (λ _, counted g h0 t
                                 (c + operation_count (ambient_locale g) h0 entry))).
    + by apply hoare_counted_modify.
    + intros ?. apply hoare_counted_frame; [apply ends_change_mode|].
      unfold _change_mode.
      apply preserves_bind; [by apply preserves_modify|].
      intros. apply preserves_core_push_fraction.
Qed.

Lemma hoare_paru_run_entries self g h0 t operations :
  ∀ c, hoare (counted g h0 t c) (Paru.run_entries self operations)
         (λ _, counted g h0 t (c + operations_count (ambient_locale g) h0 operations))
         (λ _ _, False).
Proof.
  unfold Paru.run_entries.
  induction operations as [|entry operations IH]; intros c; simpl.
  - apply hoare_ret. intros w Hw. by rewrite Z.add_0_r.
  - eapply (hoare_bind _
              (λ _, counted g h0 t (c + operation_count (ambient_locale g) h0 entry))).
    + eapply (hoare_bind _ (λ _, counted g h0 t c)); [by apply hoare_counted_modify|].
      intros ?.
      eapply (hoare_bind _ (λ _, counted g h0 t c)); [by apply hoare_counted_modify|].
      intros ?. unfold Paru.ignore_exception.
      eapply (hoare_try_except _ _ (λ _ _, False)); [|intros e; by intros ? []].
      apply hoare_run_operations.
      * intros c' l b. apply hoare_for_each. intros p. apply hoare_counted_frame;
          [apply ends_paru_install_package | apply preserves_core_paru_install_package].
      * intros c' l. apply hoare_for_each. intros p. apply hoare_counted_frame;
          [apply ends_paru_install_package | apply preserves_core_paru_install_package].
      * intros c' l. apply hoare_for_each. intros p. apply hoare_counted_frame;
          [apply ends_paru_remove_package | apply preserves_core_paru_remove_package].
      * intros c' l. apply hoare_for_each. intros p. apply hoare_counted_frame;
          [apply ends_paru_remove_package | apply preserves_core_paru_remove_package].
    + intros ?. eapply hoare_conseq;
        [apply (IH (c + operation_count (ambient_locale g) h0 entry)%Z)|auto..].
      intros ? w. apply counted_completed. lia.
Qed.

Lemma hoare_paru_count cfg pkgman :
  hoare (λ _, True)
    (w ← get;
     let operations := Paru.filter_sources w (configured_operations w (Paru.cfg_operations cfg)) in
     modify (set_mode_packages None);;
     modify (set_total_packages 0);;
     modify (set_completed_packages 0);;
     modify (set_group_packages 0);;
     modify (set_custom_status_message None);;
     for_each operations Paru.count_operation;;
     mret (inr (pkgman, operations) : job_result + Paru.ParuManager * list operation))
    (λ r w, ∃ ops g h0, r = inr (pkgman, ops)
                        ∧ counted g h0 (operations_count (ambient_locale g) h0 ops) 0 w)
    (λ _ _, False).
Proof.
  intros w _. rewrite bind_run. unfold get at 1. cbv zeta. rewrite !modify_then.
  set (ops := Paru.filter_sources w _).
  set (w1 := set_custom_status_message _ _).
  rewrite bind_run.
  pose proof (hoare_count_operations (gs w) (heap w) 0 (λ _ _, False) ops 0 w1) as H.
  destruct (for_each ops Paru.count_operation w1) as [[[]|e|] w2].
  - simpl. exists ops, (gs w), (heap w). split; [done|]. apply H.
    split; [done|]. split; [apply drift_refl|done].
  - apply H. split; [done|]. split; [apply drift_refl|done].
  - apply H. split; [done|]. split; [apply drift_refl|done].
Qed.

Lemma hoare_paru_prepare cfg w :
  default "paru" (Paru.cfg_backend cfg) = "paru" →
  default false (Paru.cfg_skip_if_no_internet cfg) && negb (gs_hasInternet (gs w)) = false →
  hoare (λ w0, w0 = w) (Paru.prepare cfg)
    (λ r w1, ∃ pkgman ops g h0,
       r = inr (pkgman, ops)
       ∧ counted g h0 (operations_count (ambient_locale g) h0 ops) 0 w1)
    (λ _ _, False).
Proof.
  intros Hb Hskip. unfold Paru.prepare. rewrite Hb. cbn [String.eqb Ascii.eqb Bool.eqb negb].
  eapply (hoare_bind _ (λ wv w1, wv = w ∧ True)).
  { apply hoare_get. by intros ? ->. }
  intros w0. apply hoare_assume. intros ->.
  rewrite Hskip. clear Hskip.
  eapply (hoare_bind _ (λ _ _, True)).
  { apply (hoare_of_ends anything nothing), ends_paru_init. }
  intros pkgman.
  eapply (hoare_bind _ (λ _ _, True)).
  { apply (hoare_of_ends anything nothing).
    destruct (_ && _); [apply ends_paru_update_db | by apply ends_ret]. }
  intros ?.
  eapply (hoare_bind _ (λ _ _, True)).
  { apply (hoare_of_ends anything nothing).
    destruct (_ && _); [apply ends_paru_update_system | by apply ends_ret]. }
  intros ?.
  eapply hoare_conseq; [apply (hoare_paru_count cfg pkgman)|auto..].
  intros r w1 (ops & g & h0 & -> & Hc). eauto 10.
Qed.

Lemma hoare_paru_dispatch pkgman g h0 operations :
  hoare (counted g h0 (operations_count (ambient_locale g) h0 operations) 0)
    (Paru.dispatch pkgman operations)
    (λ r w, r = JobNone ∧ completed_packages w = total_packages w)
    (λ _ _, False).
Proof.
  unfold Paru.dispatch.
  set (t := operations_count (ambient_locale g) h0 operations).
  eapply (hoare_bind _ (λ wv w, wv = w ∧ counted g h0 t 0 w)).
  { apply hoare_get. by intros w Hw. }
  intros w0.
  destruct (Z.eqb_spec (total_packages w0) 0) as [Hz|Hnz].
  - apply hoare_ret. intros w [-> (_ & _ & Ht & Hc)]. split; [done|]. congruence.
  - eapply (hoare_bind _ (λ _, counted g h0 t t)).
    + eapply hoare_conseq; [apply (hoare_paru_run_entries pkgman g h0 t operations 0)|..].
      * by intros w [_ Hw].
      * intros ? w. apply counted_completed. unfold t. lia.
      * auto.
    + intros ?.
      eapply (hoare_bind _ (λ _, counted g h0 t t)); [by apply hoare_counted_modify|].
      intros ?.
      eapply (hoare_bind _ (λ _, counted g h0 t t)); [by apply hoare_counted_modify|].
      intros ?. apply hoare_ret. intros w (_ & _ & Ht & Hc). split; [done|]. congruence.
Qed.

(** With the paru backend, and unless the job is skipped for lack of
    internet, [run] ends with [completed_packages] equal to
    [total_packages], whatever the commands do. *)
Theorem paru_completed_reaches_total (cfg : Paru.configuration) (w : world) :
  default "paru" (Paru.cfg_backend cfg) = "paru" →
  default false (Paru.cfg_skip_if_no_internet cfg) && negb (gs_hasInternet (gs w)) = false →
  ∃ w', Paru.run cfg w = (Ok JobNone, w')
        ∧ completed_packages w' = total_packages w'.
Proof.
  intros Hb Hskip.
  destruct (hoare_run (λ w0, w0 = w) (λ r w', r = JobNone
                                              ∧ completed_packages w' = total_packages w')
              (Paru.run cfg) w) as (r & w' & Hrun & -> & Heq); [|done|by exists w'].
  unfold Paru.run.
  eapply hoare_bind; [by apply hoare_paru_prepare|].
  intros r. apply hoare_conseq with
    (pre := λ w1, ∃ pkgman ops g h0, r = inr (pkgman, ops)
                    ∧ counted g h0 (operations_count (ambient_locale g) h0 ops) 0 w1)
    (post := λ r w', r = JobNone ∧ completed_packages w' = total_packages w')
    (fail := λ _ _, False); [|auto..].
  intros w1 (pkgman & ops & g & h0 & -> & Hc).
  by apply (hoare_paru_dispatch pkgman g h0 ops).
Qed.

(** *** The pacman manager keeps the counters and raises nothing but a
    failed command *)

Lemma preserves_core_pacman_line_cb line : preserves core (Pacman.line_cb line).
Proof. unfold Pacman.line_cb. preserves_core. Qed.

Lemma preserves_core_pacman_target cmd (callback : bool) :
  preserves core
    (target_env_process_output cmd (if callback then Some Pacman.line_cb else None)).
Proof.
  apply preserves_core_target. intros f line Hf. destruct callback; [|done].
  injection Hf as <-. apply preserves_core_pacman_line_cb.
Qed.

Lemma preserves_core_run_pacman self cmd callback :
  preserves core (Pacman.run_pacman self cmd callback).
Proof.
  unfold Pacman.run_pacman. generalize 0%Z.
  induction (S (Z.to_nat (Pacman.pacman_num_retries self + 1))) as [|fuel IH];
    intros count; simpl.
  - apply preserves_out_of_fuel.
  - destruct (count <=? Pacman.pacman_num_retries self)%Z; [|apply preserves_ret].
    apply preserves_try_except; [apply preserves_core_pacman_target|].
    intros e k He. destruct e; try done. injection He as <-.
    destruct (count + 1 <=? Pacman.pacman_num_retries self)%Z;
      [apply IH | apply preserves_raise].
Qed.

Lemma preserves_core_pacman_reset_progress : preserves core Pacman.reset_progress.
Proof. unfold Pacman.reset_progress. preserves_core. Qed.

Lemma preserves_core_pacman_install self pkgs from_local :
  preserves core (Pacman.install self pkgs from_local).
Proof.
  unfold Pacman.install.
  apply preserves_bind; [apply preserves_core_pacman_reset_progress|]. intros.
  apply preserves_core_run_pacman.
Qed.

Lemma preserves_core_pacman_remove self pkgs : preserves core (Pacman.remove self pkgs).
Proof.
  unfold Pacman.remove.
  apply preserves_bind; [apply preserves_core_pacman_reset_progress|]. intros.
  apply preserves_core_run_pacman.
Qed.

Lemma preserves_core_heap {A} (m : M A) : preserves core m → preserves heap m.
Proof. intros H w. specialize (H w). unfold core in H. by injection H. Qed.

Lemma ends_pacman_reset_progress P : ends anything P Pacman.reset_progress.
Proof.
  intros w. unfold Pacman.reset_progress. rewrite bind_run. unfold modify at 1.
  rewrite bind_run. unfold get at 1. cbn [total_packages set_in_package_changes].
  destruct (Z.ltb_spec 0 (total_packages w)) as [Hpos|_]; [|done].
  rewrite bind_run. unfold truediv. cbn [total_packages set_in_package_changes].
  destruct (Z.eqb_spec (total_packages w) 0) as [Hz|_]; [lia|]. done.
Qed.

Lemma ends_pacman_install self pkgs from_local :
  ends anything called_process_error (Pacman.install self pkgs from_local).
Proof.
  unfold Pacman.install.
  apply ends_then; [apply ends_pacman_reset_progress | apply ends_run_pacman].
Qed.

Lemma ends_pacman_remove self pkgs :
  ends anything called_process_error (Pacman.remove self pkgs).
Proof.
  unfold Pacman.remove.
  apply ends_then; [apply ends_pacman_reset_progress | apply ends_run_pacman].
Qed.

(** With the heap fixed at [h], a step that raises nothing but a failed
    command and keeps the counters. *)
Lemma hoare_heap_step {A} h (m : M A) :
  ends anything called_process_error m → preserves core m →
  hoare (λ w, heap w = h) m (λ _ w, heap w = h)
    (λ e w, called_process_error e ∧ heap w = h).
Proof.
  intros He Hp.
  eapply hoare_conseq;
    [apply (hoare_steady heap h anything called_process_error m He),
       preserves_core_heap, Hp|..]; [done| |done].
  by intros a w [_ H].
Qed.

Lemma hoare_for_each_Forall {A} (R : A → Prop) inv fail (l : list A) (body : A → M unit) :
  Forall R l →
  (∀ x, R x → hoare inv (body x) (λ _, inv) fail) →
  hoare inv (for_each l body) (λ _, inv) fail.
Proof.
  intros Hl Hb. induction Hl as [|x l Hx _ IH]; simpl; [by apply hoare_ret|].
  eapply (hoare_bind _ (λ _, inv)); [by apply Hb|]. intros ?. exact IH.
Qed.

Lemma named_package_item h a :
  named false h (EDict a) → ∃ n, Pacman.package_item (deref h a) = mret n.
Proof.
  intros (n & Hn & _). exists n. unfold Pacman.package_item, deref. simpl in Hn.
  destruct (h !! a) as [d|]; [|done]. simpl in *. by rewrite Hn.
Qed.

Lemma hoare_pacman_install_package self h p from_local :
  named false h p →
  hoare (λ w, heap w = h) (Pacman.install_package self p from_local)
    (λ _ w, heap w = h) (λ e w, called_process_error e ∧ heap w = h).
Proof.
  intros Hp. unfold Pacman.install_package. destruct p as [s|a].
  { apply hoare_heap_step;
      [apply ends_pacman_install | apply preserves_core_pacman_install]. }
  destruct (named_package_item h a Hp) as (n & Hn).
  eapply (hoare_bind _ (λ _ w, heap w = h)); [by apply hoare_get|]. intros w0.
  eapply (hoare_bind _ (λ _ w, heap w = h)).
  { apply hoare_heap_step; [apply ends_run_script | apply preserves_core_run_script]. }
  intros ?.
  eapply (hoare_bind _ (λ wv w, heap wv = h ∧ heap w = h));
    [apply hoare_get; intros ? ?; by split|].
  intros w1. apply hoare_assume. intros ->. rewrite Hn.
  eapply (hoare_bind _ (λ _ w, heap w = h)); [by apply hoare_ret|]. intros n'.
  eapply (hoare_bind _ (λ _ w, heap w = h)).
  { apply hoare_heap_step;
      [apply ends_pacman_install | apply preserves_core_pacman_install]. }
  intros ?.
  eapply (hoare_bind _ (λ _ w, heap w = h)); [by apply hoare_get|]. intros w2.
  apply hoare_heap_step; [apply ends_run_script | apply preserves_core_run_script].
Qed.

Lemma hoare_pacman_remove_package self h p :
  named false h p →
  hoare (λ w, heap w = h) (Pacman.remove_package self p)
    (λ _ w, heap w = h) (λ e w, called_process_error e ∧ heap w = h).
Proof.
  intros Hp. unfold Pacman.remove_package. destruct p as [s|a].
  { apply hoare_heap_step;
      [apply ends_pacman_remove | apply preserves_core_pacman_remove]. }
  destruct (named_package_item h a Hp) as (n & Hn).
  eapply (hoare_bind _ (λ _ w, heap w = h)); [by apply hoare_get|]. intros w0.
  eapply (hoare_bind _ (λ _ w, heap w = h)).
  { apply hoare_heap_step; [apply ends_run_script | apply preserves_core_run_script]. }
  intros ?.
  eapply (hoare_bind _ (λ wv w, heap wv = h ∧ heap w = h));
    [apply hoare_get; intros ? ?; by split|].
  intros w1. apply hoare_assume. intros ->. rewrite Hn.
  eapply (hoare_bind _ (λ _ w, heap w = h)); [by apply hoare_ret|]. intros n'.
  eapply (hoare_bind _ (λ _ w, heap w = h)).
  { apply hoare_heap_step;
      [apply ends_pacman_remove | apply preserves_core_pacman_remove]. }
  intros ?.
  eapply (hoare_bind _ (λ _ w, heap w = h)); [by apply hoare_get|]. intros w2.
  apply hoare_heap_step; [apply ends_run_script | apply preserves_core_run_script].
Qed.

Lemma preserves_core_change_mode m : preserves core (_change_mode m).
Proof.
  unfold _change_mode.
  apply preserves_bind; [by apply preserves_modify|].
  intros. apply preserves_core_push_fraction.
Qed.

Lemma hoare_at_heap {A} (R : gmap nat pkgdict → Prop) (m : M A) post fail :
  (∀ h, R h → hoare (λ w, heap w = h) m post fail) →
  hoare (λ w, R (heap w)) m post fail.
Proof. intros H w Hw. by apply (H (heap w)). Qed.

Section pacman_operations.
Variables (self : Pacman.PacmanManager) (h : gmap nat pkgdict) (l : list entry).
Hypothesis l_named : Forall (named false h) l.

Lemma hoare_pacman_operation_install from_local :
  hoare (λ w, heap w = h) (Pacman.pacman_operation_install self l from_local)
    (λ _ w, heap w = h) (λ e w, called_process_error e ∧ heap w = h).
Proof.
  unfold Pacman.pacman_operation_install. destruct (all_str l) as [names|].
  - apply hoare_heap_step;
      [apply ends_pacman_install | apply preserves_core_pacman_install].
  - apply (hoare_for_each_Forall (named false h)); [done|].
    intros p Hp. by apply hoare_pacman_install_package.
Qed.

Lemma hoare_pacman_operation_remove :
  hoare (λ w, heap w = h) (Pacman.pacman_operation_remove self l)
    (λ _ w, heap w = h) (λ e w, called_process_error e ∧ heap w = h).
Proof.
  unfold Pacman.pacman_operation_remove. destruct (all_str l) as [names|].
  - apply hoare_heap_step;
      [apply ends_pacman_remove | apply preserves_core_pacman_remove].
  - apply (hoare_for_each_Forall (named false h)); [done|].
    intros p Hp. by apply hoare_pacman_remove_package.
Qed.

Lemma hoare_pacman_operation_try_install :
  hoare (λ w, heap w = h) (Pacman.pacman_operation_try_install self l)
    (λ _ w, heap w = h) (λ e w, called_process_error e ∧ heap w = h).
Proof.
  unfold Pacman.pacman_operation_try_install.
  apply (hoare_for_each_Forall (named false h)); [done|].
  intros p Hp. eapply hoare_try_except; [by apply hoare_pacman_install_package|].
  intros e. destruct e; simpl; by intros ? [].
Qed.

Lemma hoare_pacman_operation_try_remove :
  hoare (λ w, heap w = h) (Pacman.pacman_operation_try_remove self l)
    (λ _ w, heap w = h) (λ e w, called_process_error e ∧ heap w = h).
Proof.
  unfold Pacman.pacman_operation_try_remove.
  apply (hoare_for_each_Forall (named false h)); [done|].
  intros p Hp. eapply hoare_try_except; [by apply hoare_pacman_remove_package|].
  intros e. destruct e; simpl; by intros ? [].
Qed.
End pacman_operations.

Lemma hoare_pacman_run_operation_key self key value :
  hoare (λ _, True) (run_operation_key (Pacman.manager self) key value)
    (λ _ _, True) (λ e _, called_process_error e).
Proof.
  unfold run_operation_key.
  eapply (hoare_bind _ (λ l w, Forall (named false (heap w)) l)).
  { intros w _. rewrite subst_locale_run. simpl.
    apply subst_locale_loop_named, ambient_locale_nonempty. }
  intros l. apply (hoare_at_heap (λ h, Forall (named false h) l)). intros h Hl.
  eapply hoare_conseq with (pre := λ w, heap w = h)
                           (post := λ _ w, heap w = h)
                           (fail := λ e w, called_process_error e ∧ heap w = h);
    [|done|done|by intros e w [? _]].
  assert (Hmode : ∀ m, hoare (λ w, heap w = h) (_change_mode m) (λ _ w, heap w = h)
                         (λ e w, called_process_error e ∧ heap w = h)).
  { intros m. apply hoare_heap_step;
      [apply ends_change_mode | apply preserves_core_change_mode]. }
  eapply (hoare_bind _ (λ _ w, heap w = h)); [by apply hoare_modify|]. intros ?.
  eapply (hoare_bind _ (λ _ w, heap w = h)).
  { cbn [operation_install operation_try_install operation_remove operation_try_remove
         Pacman.manager].
    destruct (String.eqb key "install").
    { eapply (hoare_bind _ (λ _ w, heap w = h)); [apply Hmode|intros ?].
      by apply hoare_pacman_operation_install. }
    destruct (String.eqb key "try_install").
    { eapply (hoare_bind _ (λ _ w, heap w = h)); [apply Hmode|intros ?].
      by apply hoare_pacman_operation_try_install. }
    destruct (String.eqb key "remove").
    { eapply (hoare_bind _ (λ _ w, heap w = h)); [apply Hmode|intros ?].
      by apply hoare_pacman_operation_remove. }
    destruct (String.eqb key "try_remove").
    { eapply (hoare_bind _ (λ _ w, heap w = h)); [apply Hmode|intros ?].
      by apply hoare_pacman_operation_try_remove. }
    destruct (String.eqb key "localInstall").
    { eapply (hoare_bind _ (λ _ w, heap w = h)); [apply Hmode|intros ?].
      by apply hoare_pacman_operation_install. }
    destruct (String.eqb key "source"); by apply hoare_modify. }
  intros ?.
  eapply (hoare_bind _ (λ _ w, heap w = h)); [by apply hoare_modify|]. intros ?.
  apply hoare_heap_step; [apply ends_push_fraction | apply preserves_core_push_fraction].
Qed.

Lemma ends_pacman_run_operations self entry :
  ends anything called_process_error (run_operations (Pacman.manager self) entry).
Proof.
  apply ends_of_hoare. unfold run_operations.
  eapply (hoare_bind _ (λ _ _, True)).
  - apply hoare_for_each. intros [key value].
    eapply hoare_conseq; [apply hoare_pacman_run_operation_key|done..].
  - intros ?. apply (hoare_of_ends anything called_process_error).
    apply ends_then; [by apply ends_modify | apply ends_change_mode].
Qed.

(** *** The job as a whole *)

Lemma ends_command_failed message e :
  called_process_error e →
  ends (λ r, ∃ result, r = Some result ∧ pacman_result result
                       ∧ result ≠ JobNone) nothing
    (Pacman.command_failed message e).
Proof.
  intros He. unfold Pacman.command_failed, log_failure.
  eapply (ends_bind anything); [repeat ends_step|]. intros ? _.
  apply ends_ret. eexists. split; [done|]. split; [|done]. right. split; [by left|].
  destruct e; try done. eauto.
Qed.

Lemma ends_pacman_run_entries self operations :
  ends (λ r, match r with Some result => pacman_result result | None => True end) nothing
    (Pacman.run_entries self operations).
Proof.
  induction operations as [|entry rest IH]; simpl; [by apply ends_ret|].
  apply ends_then; [by apply ends_modify|].
  apply ends_then; [by apply ends_modify|].
  eapply (ends_bind (λ r, match r with Some result => pacman_result result | None => True end)).
  - eapply (ends_try_except _ called_process_error).
    + apply ends_then; [apply ends_pacman_run_operations | by apply ends_ret].
    + intros e He. destruct e; try done. simpl.
      eapply ends_weaken; [by apply ends_command_failed| |done].
      by intros r (result & -> & Hr & _).
  - intros [result|] Hr; [by apply ends_ret | exact IH].
Qed.

Lemma ends_pacman_dispatch pkgman operations filtered_total :
  ends pacman_result nothing (Pacman.dispatch pkgman operations filtered_total).
Proof.
  unfold Pacman.dispatch.
  do 5 (apply ends_then; [by apply ends_modify|]).
  destruct (filtered_total =? 0)%Z; [by apply ends_ret|].
  eapply ends_bind; [apply ends_pacman_run_entries|].
  intros [result|] Hr; [by apply ends_ret|].
  apply ends_then; [by apply ends_modify|].
  apply ends_then; [by apply ends_modify|]. by apply ends_ret.
Qed.

Lemma ends_filter_operation_list P key items pkgs groups :
  ends anything P (Pkgcheck.filter_operation_list key items pkgs groups).
Proof.
  induction items as [|item rest IH]; simpl; [by apply ends_ret|].
  eapply (ends_bind anything); [by apply ends_get|]. intros w _.
  destruct (Pkgcheck.name_missing _).
  { apply ends_then; [by apply ends_modify | exact IH]. }
  destruct (bool_decide _).
  { eapply (ends_bind anything); [exact IH|]. intros. by apply ends_ret. }
  apply ends_then; [by apply ends_modify|].
  apply ends_then; [by apply ends_modify | exact IH].
Qed.

Lemma ends_preprocess_operations P operations pkgs groups :
  ends anything P (Pkgcheck.preprocess_operations operations subst_locale pkgs groups).
Proof.
  unfold Pkgcheck.preprocess_operations. generalize (@nil operation) 0%Z.
  induction operations as [|op rest IH]; intros new_ops total; simpl;
    [by apply ends_ret|].
  eapply (ends_bind anything); [|intros [new_op total'] _; apply IH].
  generalize (@nil (string * pyval)) total. clear.
  induction op as [|[key raw] op IH]; intros new_op total; simpl; [by apply ends_ret|].
  eapply (ends_bind anything); [apply ends_subst_locale|]. intros localized _.
  destruct (Pkgcheck.is_filter_key key).
  - eapply (ends_bind anything); [apply ends_filter_operation_list|]. intros. apply IH.
  - destruct (String.eqb key "localInstall"); apply IH.
Qed.

Lemma ends_capture_lines command :
  ends anything called_process_error (Pkgcheck._target_env_capture_lines command).
Proof.
  unfold Pkgcheck._target_env_capture_lines.
  eapply (ends_bind anything); [apply ends_spawn|]. intros o _.
  destruct (out_rc o =? 0)%Z; [by apply ends_ret | by apply ends_raise].
Qed.

Lemma ends_build_repo_index :
  ends anything called_process_error Pkgcheck.build_repo_index.
Proof.
  unfold Pkgcheck.build_repo_index.
  eapply (ends_bind anything); [apply ends_capture_lines|]. intros pkgs _.
  eapply (ends_bind anything); [apply ends_capture_lines|]. intros groups _.
  apply ends_then; [by apply ends_modify | by apply ends_ret].
Qed.

Lemma ends_unless_returned {X} (Q : job_result → Prop) step (k : M (job_result + X)) :
  ends (λ r, match r with Some result => Q result | None => True end) nothing step →
  ends (λ r, match r with inl result => Q result | inr _ => True end) nothing k →
  ends (λ r, match r with inl result => Q result | inr _ => True end) nothing
    (unless_returned step k).
Proof.
  intros Hs Hk. unfold unless_returned. eapply ends_bind; [exact Hs|].
  intros [result|] Hr; [by apply ends_ret | exact Hk].
Qed.

Lemma ends_pacman_update message (m : M unit) :
  ends anything called_process_error m →
  ends (λ r, match r with Some result => pacman_result result | None => True end) nothing
    (try_except (m;; mret None)
       (Pacman.only_called_process_error (Pacman.command_failed message))).
Proof.
  intros Hm. eapply (ends_try_except _ called_process_error).
  - apply ends_then; [exact Hm | by apply ends_ret].
  - intros e He. destruct e; try done. simpl.
    eapply ends_weaken; [by apply ends_command_failed| |done].
    by intros r (result & -> & Hr & _).
Qed.

Lemma ends_pacman_prepare cfg :
  ends (λ r, match r with inl result => pacman_result result | inr _ => True end) nothing
    (Pacman.prepare cfg).
Proof.
  unfold Pacman.prepare.
  destruct (negb _).
  { apply ends_ret. left. done. }
  eapply (ends_bind anything); [by apply ends_get|]. intros w _.
  destruct (_ && _).
  { apply ends_then; [by apply ends_modify | by apply ends_ret]. }
  eapply (ends_bind anything).
  { unfold Pacman.init. repeat ends_step. }
  intros pkgman _.
  apply ends_unless_returned.
  { destruct (_ && _); [|by apply ends_ret].
    apply ends_pacman_update, ends_run_pacman. }
  apply ends_unless_returned.
  { destruct (_ && _); [|by apply ends_ret].
    apply ends_pacman_update, ends_run_pacman. }
  eapply (ends_bind anything); [by apply ends_get|]. intros w1 _.
  eapply (ends_try_except _ called_process_error).
  - eapply (ends_bind anything); [apply ends_build_repo_index|].
    intros [pkgs groups] _.
    eapply (ends_bind anything); [apply ends_preprocess_operations|].
    intros [ops total] _. by apply ends_ret.
  - intros e He. destruct e; try done. simpl.
    eapply (ends_bind anything); [unfold log_failure; repeat ends_step|]. intros ? _.
    apply ends_ret. right. split; [by right|]. eauto.
Qed.

(** [run] of the pacman module always returns: no exception of a failed
    command, of a missing [package] key or of a division by zero leaves it.
    It returns [None], the error of a wrong backend, or one of the two
    errors that carry the [CalledProcessError] of the failed command. *)
Theorem pacman_run_returns (cfg : Pacman.configuration) (w : world) :
  ∃ result w', Pacman.run cfg w = (Ok result, w') ∧ pacman_result result.
Proof.
  apply ends_returns. unfold Pacman.run.
  eapply ends_bind; [apply ends_pacman_prepare|].
  intros [result|[[pkgman operations] filtered_total]] Hr.
  - by apply ends_ret.
  - apply ends_pacman_dispatch.
Qed.

(** *** Resolving a resolved list again *)

Lemma alter_set_package_same (h : gmap nat pkgdict) (a : nat) n :
  h !! a ≫= package = Some n → alter (set_package n) a h = h.
Proof.
  intros Hn. apply map_eq. intros b. destruct (decide (a = b)) as [<-|Hab].
  - rewrite lookup_alter_eq. destruct (h !! a) as [d|]; [|done].
    simpl in *. by rewrite set_package_same.
  - by rewrite lookup_alter_ne.
Qed.

(** A list whose names the resolver maps to themselves comes back as it
    is, and the heap with it. *)
Lemma loop_fixed locale plist h :
  Forall (λ item, ∃ n, packagename_of h item = Some n ∧ resolve_name locale n = Some n)
    plist →
  subst_locale_loop locale h plist = (h, plist).
Proof.
  induction 1 as [|item rest (n & Hn & Hres) _ IH]; [done|].
  cbn [subst_locale_loop]. rewrite Hn. cbn [mbind option_bind]. rewrite Hres.
  destruct item as [s|a].
  - rewrite IH. simpl in Hn. by injection Hn as <-.
  - rewrite alter_set_package_same by done. by rewrite IH.
Qed.

(** Resolving a resolved list again changes nothing: with the locale [en],
    or with a locale without [$] and names in which every [$] opens a
    [${LOCALE}] token, a second [subst_locale] on the result of the first
    returns the same list and leaves the package objects as the first left
    them. *)
Theorem subst_locale_idempotent (plist : pyval) (w : world) :
  let locale := ambient_locale (gs w) in
  locale = "en"
  ∨ (no_dollar locale
     ∧ Forall (λ item, ∀ n, packagename_of (heap w) item = Some n → is_template n)
         (py_iter plist)) →
  ∃ resolved w1,
    subst_locale plist w = (Ok resolved, w1)
    ∧ subst_locale (PList resolved) w1 = (Ok resolved, w1).
Proof.
  intros locale Hcase. rewrite subst_locale_run. fold locale.
  eexists _, _. split; [reflexivity|].
  rewrite subst_locale_run. cbn [gs heap set_heap py_iter]. fold locale.
  rewrite loop_fixed; [done|].
  destruct Hcase as [Hen|[Hplain Htemplates]].
  - rewrite Hen. destruct (loop_en (py_iter plist) (heap w)) as [-> Hall].
    eapply Forall_impl; [exact Hall|]. intros item [_ (n & Hn & Hc)].
    exists n. split; [done|]. unfold resolve_name. simpl. by rewrite Hc.
  - destruct (String.eqb_spec locale "en") as [Hen|Hne].
    + rewrite Hen. destruct (loop_en (py_iter plist) (heap w)) as [-> Hall].
      eapply Forall_impl; [exact Hall|]. intros item [_ (n & Hn & Hc)].
      exists n. split; [done|]. unfold resolve_name. simpl. by rewrite Hc.
    + assert (Hneb : String.eqb locale "en" = false) by by apply String.eqb_neq.
      eapply Forall_impl;
        [exact (loop_resolves_templates locale Hneb Hplain (py_iter plist) (heap w)
                  Htemplates)|].
      intros item (n & Hn & Hnd). exists n. split; [done|].
      unfold resolve_name. rewrite Hneb. simpl. f_equal. by apply sub_no_dollar.
Qed.

(** *** The packages added to the base packages *)



(** *** Every pass of the retry loop of the pacman manager *)

Lemma run_pacman_loop_attempts self cmd callback :
  ∀ fuel count w,
    (count <= Pacman.pacman_num_retries self)%Z →
    (Z.to_nat (Pacman.pacman_num_retries self - count) < fuel)%nat →
    ∃ res w' j,
      Pacman.run_pacman_loop fuel self cmd callback count w = (res, w')
      ∧ (1 <= j <= Z.to_nat (Pacman.pacman_num_retries self - count + 1))%nat
      ∧ invoked w' = replicate j cmd ++ invoked w
      ∧ heap w' = heap w ∧ sys w' = sys w
      ∧ (∀ i, (i < j - 1)%nat → out_rc (sys w (length (invoked w) + i) cmd) ≠ 0%Z)
      ∧ match res with
        | Ok _ => out_rc (sys w (length (invoked w) + (j - 1)) cmd) = 0%Z
        | Raise e =>
            e = CalledProcessError cmd (out_rc (sys w (length (invoked w) + (j - 1)) cmd))
            ∧ out_rc (sys w (length (invoked w) + (j - 1)) cmd) ≠ 0%Z
            ∧ j = Z.to_nat (Pacman.pacman_num_retries self - count + 1)
        | OutOfFuel => False
        end.
Proof.
  induction fuel as [|fuel IH]; intros count w Hcount Hfuel; [lia|]. simpl.
  assert ((count <=? Pacman.pacman_num_retries self)%Z = true) as -> by lia.
  unfold try_except.
  destruct (target_call_run cmd callback w) as (w1 & (Hs & Hi & Hh) & ->).
  simpl in Hs, Hi, Hh.
  destruct (Z.eqb_spec (out_rc (sys w (length (invoked w)) cmd)) 0) as [Hz|Hnz].
  - exists (Ok tt), w1, 1%nat. split; [done|]. split; [lia|].
    split; [by rewrite Hi|]. split; [done|]. split; [done|].
    split; [intros i; lia|]. simpl. by rewrite Nat.add_0_r.
  - destruct (Z.leb_spec (count + 1) (Pacman.pacman_num_retries self)) as [Hle|Hgt].
    + destruct (IH (count + 1)%Z w1 Hle ltac:(lia))
        as (res & w2 & j & -> & Hj & Hi2 & Hh2 & Hs2 & Hbefore & Hres).
      assert (Hshift : ∀ i, sys w1 (length (invoked w1) + i) cmd
                            = sys w (length (invoked w) + S i) cmd).
      { intros i. rewrite Hs, Hi. simpl. by rewrite Nat.add_succ_r. }
      exists res, w2, (S j). split; [done|]. split; [lia|].
      split. { rewrite Hi2, Hi. simpl. by rewrite replicate_shift. }
      split; [congruence|]. split; [congruence|].
      split.
      { intros i Hlt. destruct i as [|i]; [by rewrite Nat.add_0_r|].
        rewrite <- Hshift. apply Hbefore. lia. }
      replace (S j - 1)%nat with (S (j - 1)) by lia. rewrite <- Hshift.
      destruct res as [[]|e|]; [done| |done].
      destruct Hres as (-> & Hrc & ->). split; [done|]. split; [done|]. lia.
    + exists (Raise (CalledProcessError cmd (out_rc (sys w (length (invoked w)) cmd)))),
        w1, 1%nat.
      split; [done|]. split; [lia|]. split; [by rewrite Hi|]. split; [done|].
      split; [done|]. split; [intros i; lia|]. simpl. rewrite Nat.add_0_r.
      split; [done|]. split; [done|]. lia.
Qed.

Lemma run_pacman_attempts self cmd callback w :
  (0 <= Pacman.pacman_num_retries self)%Z →
  ∃ res w' j,
    Pacman.run_pacman self cmd callback w = (res, w')
    ∧ (1 <= j <= Z.to_nat (Pacman.pacman_num_retries self + 1))%nat
    ∧ invoked w' = replicate j cmd ++ invoked w
    ∧ heap w' = heap w ∧ sys w' = sys w
    ∧ (∀ i, (i < j - 1)%nat → out_rc (sys w (length (invoked w) + i) cmd) ≠ 0%Z)
    ∧ match res with
      | Ok _ => out_rc (sys w (length (invoked w) + (j - 1)) cmd) = 0%Z
      | Raise e =>
          e = CalledProcessError cmd (out_rc (sys w (length (invoked w) + (j - 1)) cmd))
          ∧ out_rc (sys w (length (invoked w) + (j - 1)) cmd) ≠ 0%Z
          ∧ j = Z.to_nat (Pacman.pacman_num_retries self + 1)
      | OutOfFuel => False
      end.
Proof.
  intros Hr. unfold Pacman.run_pacman.
  destruct (run_pacman_loop_attempts self cmd callback
              (S (Z.to_nat (Pacman.pacman_num_retries self + 1))) 0%Z w)
    as (res & w' & j & Hrun & Hj & Hrest); [lia..|].
  replace (Pacman.pacman_num_retries self - 0 + 1)%Z
    with (Pacman.pacman_num_retries self + 1)%Z in * by lia.
  exists res, w', j. done.
Qed.

Lemma pacman_reset_progress_run w :
  ∃ w', Pacman.reset_progress w = (Ok tt, w') ∧ quiet w w'.
Proof.
  unfold Pacman.reset_progress. rewrite bind_run. unfold modify at 1.
  rewrite bind_run. unfold get at 1. cbn [total_packages set_in_package_changes].
  destruct (Z.ltb_spec 0 (total_packages w)) as [Hpos|_].
  - rewrite bind_run. unfold truediv. cbn [total_packages set_in_package_changes].
    destruct (Z.eqb_spec (total_packages w) 0) as [Hz|_]; [lia|].
    eexists. split; [reflexivity|]. done.
  - eexists. split; [reflexivity|]. done.
Qed.

(** [operation_try_install] on a list of names, with a retry count
    [r >= 0]: it returns normally whatever the commands do, having run the
    install command of each package in turn, one package per command, each
    between once and [r + 1] times in a row, and nothing else. *)
Theorem try_install_attempts_every_package (self : Pacman.PacmanManager)
    (names : list string) (w : world) :
  let r := Pacman.pacman_num_retries self in
  (0 <= r)%Z →
  ∃ counts w',
    Pacman.pacman_operation_try_install self (EStr <$> names) w = (Ok tt, w')
    ∧ length counts = length names
    ∧ Forall (λ j, 1 <= j <= Z.to_nat (r + 1))%nat counts
    ∧ invoked w'
      = reverse (runs_in_order counts ((λ s, Pacman.install_cmd self [s] false) <$> names))
          ++ invoked w
    ∧ heap w' = heap w.
Proof.
  intros r Hr. unfold Pacman.pacman_operation_try_install. revert w.
  induction names as [|s names IH]; intros w.
  - exists [], w. done.
  - rewrite fmap_cons. cbn [for_each]. rewrite bind_run.
    unfold try_except at 1. cbn [Pacman.install_package]. unfold Pacman.install.
    rewrite bind_run.
    destruct (pacman_reset_progress_run w) as (w0 & -> & Hs0 & Hi0 & Hh0).
    destruct (run_pacman_attempts self (Pacman.install_cmd self [s] false) true w0 Hr)
      as (res & w1 & j & -> & Hj & Hi1 & Hh1 & Hs1 & _ & Hres).
    assert (Hnext : ∃ w2, (match res with
                           | Ok a => (Ok a, w1)
                           | Raise e =>
                               match Pacman.only_called_process_error
                                       (λ _, log_event (WarningEntry "Could not install package "
                                                          (EStr s))) e with
                               | Some k => k w1
                               | None => (Raise e, w1)
                               end
                           | OutOfFuel => (OutOfFuel, w1)
                           end) = (Ok tt, w2)
                          ∧ invoked w2 = invoked w1 ∧ heap w2 = heap w1).
    { destruct res as [[]|e|]; [by exists w1| |done].
      destruct Hres as (-> & _). simpl. eexists. split; [reflexivity|]. done. }
    destruct Hnext as (w2 & -> & Hi2 & Hh2).
    destruct (IH w2) as (counts & w' & -> & Hlen & Hall & Hinv & Hheap).
    exists (j :: counts), w'. split; [done|]. split; [simpl; by rewrite Hlen|].
    split; [by constructor|]. split; [|congruence].
    rewrite Hinv, Hi2, Hi1, Hi0. unfold runs_in_order. simpl.
    rewrite reverse_app, reverse_replicate, <- app_assoc. done.
Qed.

(** When the configuration asks for a database update, there is internet and
    [pacman -Sy] fails on each of its [r + 1] attempts, [run] returns the
    error pair titled Package Manager error for that command and its exit
    code, and no other command has been run. *)
Theorem update_db_failure_ends_run (cfg : Pacman.configuration) (w : world) :
  let r := default 0%Z
             (Pacman.num_retries
                (default (Pacman.PacmanSection None None None) (Pacman.cfg_pacman cfg))) in
  default "pacman" (Pacman.cfg_backend cfg) = "pacman" →
  Pacman.cfg_update_db cfg = Some true →
  gs_hasInternet (gs w) = true →
  (0 <= r)%Z →
  (∀ i, (i <= Z.to_nat r)%nat →
        out_rc (sys w (length (invoked w) + i) ["pacman"; "-Sy"]) ≠ 0%Z) →
  ∃ message rc w',
    Pacman.run cfg w
      = (Ok (JobError "Package Manager error" message
               (Some (CalledProcessError ["pacman"; "-Sy"] rc))), w')
    ∧ rc ≠ 0%Z
    ∧ invoked w' = replicate (Z.to_nat (r + 1)) ["pacman"; "-Sy"] ++ invoked w
    ∧ heap w' = heap w.
Proof.
  intros r Hb Hdb Hnet Hr Hfail.
  unfold Pacman.run, Pacman.prepare. rewrite Hb. cbn [String.eqb Ascii.eqb Bool.eqb negb].
  rewrite bind_run. rewrite (bind_run get). unfold get at 1.
  rewrite Hnet, Hdb. cbn [negb andb default]. rewrite andb_false_r.
  rewrite bind_run. unfold Pacman.init.
  rewrite !modify_then.
  set (pkgman := {| Pacman.pacman_num_retries := _ |}).
  change ((mret pkgman : M _) ?w0) with (Ok pkgman, w0). cbv beta iota.
  change (id true && true) with true. cbv iota.
  unfold unless_returned at 1. rewrite bind_run.
  unfold try_except at 1. rewrite bind_run. unfold Pacman.update_db.
  match goal with |- context [Pacman.run_pacman ?self ?cmd false ?w0] =>
    destruct (run_pacman_attempts self cmd false w0 Hr)
      as (res & w1 & j & -> & Hj & Hi1 & Hh1 & Hs1 & _ & Hres) end.
  change (Pacman.pacman_num_retries pkgman) with r in Hj, Hres.
  destruct res as [[]|e|]; [|clear Hfail|done].
  - exfalso. apply (Hfail (j - 1)%nat); [lia|]. exact Hres.
  - destruct Hres as (-> & Hrc & ->).
    cbn [Pacman.only_called_process_error]. unfold Pacman.command_failed, log_failure.
    unfold_M. simpl.
    eexists _, _, _. split; [reflexivity|]. split; [exact Hrc|].
    split; [exact Hi1 | exact Hh1].
Qed.

(** *** The pacstrap command *)

(** What the callback and the copying of files leave alone. *)
Lemma preserves_pacstrap_line_cb line :
  preserves (λ w, (invoked w, heap w, gs_online w)) (Pacstrap.line_cb line).
Proof.
  unfold Pacstrap.line_cb.
  repeat first [ preserves_step
               | (apply preserves_modify; intros; reflexivity)
               | (intros w; reflexivity) ].
Qed.

Lemma ends_pacstrap_line_cb P line : ends anything P (Pacstrap.line_cb line).
Proof.
  unfold Pacstrap.line_cb.
  repeat first [ ends_step | (intros w; exact I) ].
Qed.

Lemma all_str_strings names : all_str (EStr <$> names) = Some names.
Proof.
  induction names as [|s names IH]; [done|].
  rewrite fmap_cons. cbn [all_str]. by rewrite IH.
Qed.

Lemma run_in_host_run cmd w :
  ∃ w', Pacstrap.run_in_host cmd Pacstrap.line_cb w
          = (if (out_rc (sys w (length (invoked w)) cmd) =? 0)%Z then Ok tt
             else Raise (PacmanError cmd (out_rc (sys w (length (invoked w)) cmd))), w')
        ∧ invoked w' = cmd :: invoked w ∧ heap w' = heap w ∧ gs_online w' = gs_online w.
Proof.
  unfold Pacstrap.run_in_host, spawn. rewrite bind_run.
  set (o := sys w (length (invoked w)) cmd).
  set (w1 := set_invoked (cmd :: invoked w) w).
  rewrite bind_run.
  destruct (returns_steady (λ w, (invoked w, heap w, gs_online w)) anything
              (for_each (out_lines o)
                 (λ line, if Py.truthy (Py.strip line) then Pacstrap.line_cb line
                          else mret ())) ) with (w := w1)
    as ([] & w3 & -> & _ & Hsame).
  { apply ends_for_each. intros line.
    destruct (Py.truthy _); [apply ends_pacstrap_line_cb | by apply ends_ret]. }
  { apply preserves_for_each. intros line.
    destruct (Py.truthy _); [apply preserves_pacstrap_line_cb | apply preserves_ret]. }
  injection Hsame as Hi Hh Ho.
  exists w3. split; [by destruct (out_rc o =? 0)%Z|]. done.
Qed.

Lemma copy_files_run hst root_mount_point files w :
  ∃ w', Pacstrap.copy_files hst root_mount_point files w = (Ok tt, w')
        ∧ invoked w' = invoked w ∧ heap w' = heap w.
Proof.
  destruct (returns_steady (λ w, (invoked w, heap w)) anything
              (Pacstrap.copy_files hst root_mount_point files)) with (w := w)
    as ([] & w' & -> & _ & Hsame).
  - unfold Pacstrap.copy_files. repeat ends_step.
  - unfold Pacstrap.copy_files. preserves_auto.
  - injection Hsame as Hi Hh. by exists w'.
Qed.

(** With a non-empty list of names left after filtering, [run] starts
    [pacstrap] once, with the root mount point followed by the names in
    order.  If it exits with 0, [run] returns [None] with the system marked
    online and 1.0 pushed last; otherwise it returns the error pair titled
    Failed to run pacstrap and the system is not marked online. *)
Theorem pacstrap_command_line (hst : Pacstrap.host) (cfg : Pacstrap.configuration)
    (root_mount_point : string) (names : list string) (w : world) :
  names ≠ [] →
  let command := ["pacstrap"; root_mount_point] ++ names in
  let rc := out_rc (sys w (length (invoked w)) command) in
  ∃ result w',
    Pacstrap.install hst cfg root_mount_point (EStr <$> names) w = (Ok result, w')
    ∧ invoked w' = command :: invoked w
    ∧ heap w' = heap w
    ∧ if (rc =? 0)%Z
      then result = JobNone ∧ gs_online w' = true ∧ head (progress w') = Some 1%Q
      else result = JobError "Failed to run pacstrap" "" (Some (PacmanError command rc))
           ∧ gs_online w' = gs_online w.
Proof.
  intros Hne command rc. unfold Pacstrap.install.
  destruct names as [|s names]; [done|]. rewrite fmap_cons.
  rewrite <- (fmap_cons EStr), all_str_strings.
  rewrite bind_run. unfold try_except. rewrite bind_run.
  destruct (run_in_host_run (["pacstrap"; root_mount_point] ++ s :: names) w)
    as (w1 & -> & Hi & Hh & Ho).
  fold command. fold rc. destruct (rc =? 0)%Z.
  - cbv iota beta. change ((mret None : M _) w1) with (Ok (@None job_result), w1).
    cbv iota beta. rewrite bind_run.
    destruct (copy_files_run hst root_mount_point
                (default [] (Pacstrap.postInstallFiles cfg)) w1) as (w2 & -> & Hi2 & Hh2).
    unfold Pacstrap.finish. unfold_M. simpl.
    eexists _, _. split; [reflexivity|]. simpl.
    split; [by rewrite Hi2, Hi|]. split; [by rewrite Hh2, Hh|]. done.
  - cbv iota beta.
    eexists _, _. split; [reflexivity|]. done.
Qed.

(** *** Lists that preprocessing has resolved are counted in full *)

Lemma resolve_name_other locale n :
  String.eqb locale "en" = false → resolve_name locale n = Some (Py.safe_substitute locale n).
Proof. intros HL. unfold resolve_name. by rewrite HL. Qed.

Lemma stable_present locale h item :
  String.eqb locale "en" = false →
  stable locale h item ↔ is_Some (packagename_of h item).
Proof.
  intros HL. unfold stable. destruct (packagename_of h item) as [n|]; simpl.
  - rewrite resolve_name_other by done. split; eauto.
  - done.
Qed.

Lemma stable_drift locale h h' item :
  drift locale h h' → stable locale h item → stable locale h' item.
Proof.
  unfold drift. destruct (String.eqb locale "en") eqn:HL; [by intros ->|].
  intros Hp. rewrite !stable_present by done.
  destruct item as [s|a]; simpl; [done|]. apply Hp.
Qed.

Lemma loop_stable locale plist h :
  locale ≠ "" →
  Forall (stable locale (subst_locale_loop locale h plist).1)
    (subst_locale_loop locale h plist).2.
Proof.
  intros HL. destruct (String.eqb_spec locale "en") as [->|Hne].
  - destruct (loop_en plist h) as [-> Hall].
    eapply Forall_impl; [exact Hall|]. intros item [_ (n & Hn & Hc)].
    unfold stable. rewrite Hn. simpl. unfold resolve_name. simpl. by rewrite Hc.
  - eapply Forall_impl; [by apply subst_locale_loop_named|].
    intros item (n & Hn & _). apply stable_present; [by apply String.eqb_neq|].
    by rewrite Hn.
Qed.

Lemma stable_kept_count locale plist :
  locale ≠ "" →
  ∀ h, Forall (stable locale h) plist →
       kept_count locale h plist = Z.of_nat (length plist).
Proof.
  intros HL. unfold kept_count.
  induction plist as [|item rest IH]; intros h Hall; [done|].
  apply Forall_cons in Hall as [Hitem Hrest].
  pose proof (loop_drift locale [item] h HL) as Hd.
  cbn [subst_locale_loop] in *. unfold stable in Hitem.
  destruct (packagename_of h item ≫= resolve_name locale) as [n'|]; [|by destruct Hitem].
  destruct item as [s|a].
  - specialize (IH h Hrest). destruct (subst_locale_loop locale h rest). simpl in *. lia.
  - simpl in Hd.
    assert (Hrest' : Forall (stable locale (alter (set_package n') a h)) rest).
    { eapply Forall_impl; [exact Hrest|]. intros x. by apply stable_drift. }
    specialize (IH _ Hrest').
    destruct (subst_locale_loop locale _ rest). simpl in *. lia.
Qed.

Lemma op_stable_drift locale h h' op :
  drift locale h h' → op_stable locale h op → op_stable locale h' op.
Proof.
  intros Hd Hop key v Hin. destruct (Hop key v Hin) as (l & -> & Hl).
  exists l. split; [done|]. eapply Forall_impl; [exact Hl|].
  intros item. by apply stable_drift.
Qed.

Lemma op_stable_snoc locale h op key l :
  op_stable locale h op → Forall (stable locale h) l →
  op_stable locale h (op ++ [(key, PList l)]).
Proof.
  intros Hop Hl k v [Hin|Hin]%elem_of_app; [exact (Hop k v Hin)|].
  apply list_elem_of_singleton in Hin. injection Hin as -> ->. eauto.
Qed.

Lemma op_stable_count locale h op :
  locale ≠ "" → op_stable locale h op → operation_count locale h op = entry_count op.
Proof.
  intros HL. unfold operation_count, entry_count.
  induction op as [|[key v] op IH]; intros Hop; simpl; [done|].
  rewrite IH by (intros k' v' Hin; apply (Hop k' v'); by right).
  destruct (Hop key v) as (l & -> & Hl); [by left|].
  simpl. by rewrite stable_kept_count.
Qed.

Lemma ops_stable_count locale h ops :
  locale ≠ "" → Forall (op_stable locale h) ops →
  operations_count locale h ops = every_entry ops.
Proof.
  intros HL. unfold operations_count, every_entry.
  induction 1 as [|op ops Hop _ IH]; simpl; [done|].
  by rewrite IH, op_stable_count.
Qed.

Section stable.
Variables repo_pkgs repo_groups : gset string.

Lemma preprocess_items_stable (items : list (string * pyval)) :
  ∀ (new_op : operation) (total : Z) (w : world),
    NoDup items.*1 →
    (∀ k, k ∈ items.*1 → dict_get new_op k = None) →
    op_stable (ambient_locale (gs w)) (heap w) new_op →
    ∃ new_op' total' w',
      Pkgcheck.preprocess_items subst_locale repo_pkgs repo_groups items new_op total w
        = (Ok (new_op', total'), w')
      ∧ gs w' = gs w
      ∧ drift (ambient_locale (gs w)) (heap w) (heap w')
      ∧ op_stable (ambient_locale (gs w)) (heap w') new_op'.
Proof.
  induction items as [|[key raw] rest IH]; intros new_op total w Hnd Hfresh Hop; simpl.
  - exists new_op, total, w. repeat split; [apply drift_refl | done].
  - apply NoDup_cons in Hnd as [Hkey Hnd]. simpl in Hkey.
    rewrite bind_run, subst_locale_run.
    set (L := ambient_locale (gs w)) in *.
    pose proof (loop_drift L (py_iter raw) (heap w) (ambient_locale_nonempty _)) as Hd.
    pose proof (loop_stable L (py_iter raw) (heap w) (ambient_locale_nonempty _)) as Hst.
    destruct (subst_locale_loop L (heap w) (py_iter raw)) as [h1 localized].
    simpl in Hd, Hst. cbn [fst snd].
    assert (Hset : ∀ v, dict_set new_op key v = new_op ++ [(key, v)]).
    { intros v. apply dict_set_fresh, Hfresh. simpl. by left. }
    assert (Hfresh' : ∀ v k, k ∈ rest.*1 → dict_get (new_op ++ [(key, v)]) k = None).
    { intros v k Hk. rewrite dict_get_snoc, Hfresh by (simpl; by right).
      destruct (String.eqb_spec key k) as [->|]; done. }
    assert (Hstep : ∀ (w1 : world) l total1,
              gs w1 = gs w → heap w1 = h1 → Forall (stable L h1) l →
              ∃ new_op' total' w',
                Pkgcheck.preprocess_items subst_locale repo_pkgs repo_groups rest
                  (new_op ++ [(key, PList l)]) total1 w1 = (Ok (new_op', total'), w')
                ∧ gs w' = gs w ∧ drift L (heap w) (heap w') ∧ op_stable L (heap w') new_op').
    { intros w1 l total1 Hg Hh Hl.
      destruct (IH (new_op ++ [(key, PList l)]) total1 w1 Hnd (Hfresh' _))
        as (new_op' & total' & w' & Hrun & Hg' & Hd' & Hop').
      { rewrite Hg, Hh. fold L. apply op_stable_snoc; [by eapply op_stable_drift|done]. }
      rewrite Hg, Hh in Hd'. rewrite Hg in Hop'. fold L in Hd', Hop'.
      exists new_op', total', w'. split; [done|]. split; [congruence|].
      split; [by eapply drift_trans|done]. }
    destruct (Pkgcheck.is_filter_key key).
    + rewrite bind_run.
      destruct (filter_operation_list_run key localized repo_pkgs repo_groups
                  (set_heap h1 w)) as (w2 & -> & Hh2 & Hg2 & _).
      rewrite Hset. apply Hstep; [done|done|].
      apply Forall_forall. intros item Hin.
      apply list_elem_of_In, filter_In in Hin as [Hin _].
      rewrite Forall_forall in Hst. apply Hst. by apply list_elem_of_In.
    + destruct (String.eqb key "localInstall"); rewrite Hset; by apply Hstep.
Qed.

Lemma preprocess_loop_stable (operations : list operation) :
  ∀ (new_ops : list operation) (total : Z) (w : world),
    Forall dict_wf operations →
    Forall (op_stable (ambient_locale (gs w)) (heap w)) new_ops →
    ∃ new_ops' total' w',
      Pkgcheck.preprocess_loop subst_locale repo_pkgs repo_groups operations new_ops total w
        = (Ok (new_ops', total'), w')
      ∧ gs w' = gs w
      ∧ Forall (op_stable (ambient_locale (gs w)) (heap w')) new_ops'.
Proof.
  induction operations as [|op rest IH]; intros new_ops total w Hwf Hops; simpl.
  - by exists new_ops, total, w.
  - apply Forall_cons in Hwf as [Hop Hwf].
    rewrite bind_run.
    destruct (preprocess_items_stable op [] total w Hop)
      as (new_op & total1 & w1 & -> & Hg1 & Hd1 & Hst1).
    { done. }
    { intros key v Hin. by apply elem_of_nil in Hin. }
    destruct (IH (if Pkgcheck.any_nonempty_list new_op then new_ops ++ [new_op] else new_ops)
                total1 w1 Hwf)
      as (new_ops' & total' & w' & Hrun & Hg & Hst).
    { rewrite Hg1.
      assert (Hold : Forall (op_stable (ambient_locale (gs w)) (heap w1)) new_ops).
      { eapply Forall_impl; [exact Hops|]. intros o. by apply op_stable_drift. }
      destruct (Pkgcheck.any_nonempty_list new_op); [|done].
      apply Forall_app. split; [done|by constructor]. }
    rewrite Hg1 in Hst.
    exists new_ops', total', w'. split; [exact Hrun|]. split; [congruence|done].
Qed.
End stable.

(** *** The pacman job counts every key *)

Lemma preserves_core_pacman_install_package self p from_local :
  preserves core (Pacman.install_package self p from_local).
Proof.
  unfold Pacman.install_package, Pacman.package_item.
  destruct p as [s|a]; [apply preserves_core_pacman_install|].
  repeat first [ apply preserves_core_run_script | apply preserves_core_pacman_install
               | preserves_step ].
Qed.

Lemma preserves_core_pacman_remove_package self p :
  preserves core (Pacman.remove_package self p).
Proof.
  unfold Pacman.remove_package, Pacman.package_item.
  destruct p as [s|a]; [apply preserves_core_pacman_remove|].
  repeat first [ apply preserves_core_run_script | apply preserves_core_pacman_remove
               | preserves_step ].
Qed.

Lemma ends_any_pacman_install_package self p from_local :
  ends anything anything (Pacman.install_package self p from_local).
Proof.
  unfold Pacman.install_package, Pacman.package_item.
  destruct p as [s|a]; [eapply ends_any_exception, ends_pacman_install|].
  repeat first [ apply ends_run_script_any
               | (eapply ends_any_exception, ends_pacman_install)
               | ends_step ].
Qed.

Lemma ends_any_pacman_remove_package self p :
  ends anything anything (Pacman.remove_package self p).
Proof.
  unfold Pacman.remove_package, Pacman.package_item.
  destruct p as [s|a]; [eapply ends_any_exception, ends_pacman_remove|].
  repeat first [ apply ends_run_script_any
               | (eapply ends_any_exception, ends_pacman_remove)
               | ends_step ].
Qed.

(** A step that keeps the counters unless it raises. *)
Lemma hoare_counted_any {A} g h0 t c (m : M A) :
  ends anything anything m → preserves core m →
  hoare (counted g h0 t c) m (λ _, counted g h0 t c) (λ _ _, True).
Proof.
  intros He Hp w (Hg & Hd & Ht & Hc). specialize (He w). specialize (Hp w).
  destruct (m w) as [[a|e|] w1]; simpl in *; [|done..].
  unfold core in Hp. injection Hp as Hg' Hh' Ht' Hc'.
  unfold counted. by rewrite Hg', Hh', Ht', Hc'.
Qed.

Lemma hoare_pacman_run_operations self g h0 t c entry :
  hoare (counted g h0 t c) (run_operations (Pacman.manager self) entry)
    (λ _, counted g h0 t (c + operation_count (ambient_locale g) h0 entry))
    (λ _ _, True).
Proof.
  apply hoare_run_operations.
  - intros c' l b. apply hoare_counted_any.
    + unfold operation_install, Pacman.manager, Pacman.pacman_operation_install.
      destruct (all_str l); [eapply ends_any_exception, ends_pacman_install|].
      apply ends_for_each. intros p. apply ends_any_pacman_install_package.
    + unfold operation_install, Pacman.manager, Pacman.pacman_operation_install.
      destruct (all_str l); [apply preserves_core_pacman_install|].
      apply preserves_for_each. intros p. apply preserves_core_pacman_install_package.
  - intros c' l. apply hoare_counted_any.
    + unfold operation_try_install, Pacman.manager, Pacman.pacman_operation_try_install.
      apply ends_for_each. intros p.
      eapply (ends_try_except _ anything); [apply ends_any_pacman_install_package|].
      intros e _. destruct e; simpl; first [done | by apply ends_modify].
    + unfold operation_try_install, Pacman.manager, Pacman.pacman_operation_try_install.
      apply preserves_for_each. intros p.
      apply preserves_try_except; [apply preserves_core_pacman_install_package|].
      intros e k He. destruct e; try done. injection He as <-. by apply preserves_modify.
  - intros c' l. apply hoare_counted_any.
    + unfold operation_remove, Pacman.manager, Pacman.pacman_operation_remove.
      destruct (all_str l); [eapply ends_any_exception, ends_pacman_remove|].
      apply ends_for_each. intros p. apply ends_any_pacman_remove_package.
    + unfold operation_remove, Pacman.manager, Pacman.pacman_operation_remove.
      destruct (all_str l); [apply preserves_core_pacman_remove|].
      apply preserves_for_each. intros p. apply preserves_core_pacman_remove_package.
  - intros c' l. apply hoare_counted_any.
    + unfold operation_try_remove, Pacman.manager, Pacman.pacman_operation_try_remove.
      apply ends_for_each. intros p.
      eapply (ends_try_except _ anything); [apply ends_any_pacman_remove_package|].
      intros e _. destruct e; simpl; first [done | by apply ends_modify].
    + unfold operation_try_remove, Pacman.manager, Pacman.pacman_operation_try_remove.
      apply preserves_for_each. intros p.
      apply preserves_try_except; [apply preserves_core_pacman_remove_package|].
      intros e k He. destruct e; try done. injection He as <-. by apply preserves_modify.
Qed.

Lemma hoare_pacman_run_entries pkgman g h0 t operations :
  ∀ c, hoare (counted g h0 t c) (Pacman.run_entries pkgman operations)
         (λ r w, match r with
                 | Some result => result ≠ JobNone
                 | None => counted g h0 t
                             (c + operations_count (ambient_locale g) h0 operations) w
                 end)
         (λ _ _, True).
Proof.
  induction operations as [|entry operations IH]; intros c; simpl.
  - apply hoare_ret. intros w Hw. by rewrite Z.add_0_r.
  - eapply (hoare_bind _ (λ _, counted g h0 t c)); [by apply hoare_counted_modify|].
    intros ?.
    eapply (hoare_bind _ (λ _, counted g h0 t c)); [by apply hoare_counted_modify|].
    intros ?.
    eapply (hoare_bind _
              (λ r w, match r with
                      | Some result => result ≠ JobNone
                      | None => counted g h0 t
                                  (c + operation_count (ambient_locale g) h0 entry) w
                      end)).
    + eapply (hoare_try_except _ _ (λ _ _, True)).
      * eapply (hoare_bind _ (λ _, counted g h0 t
                                     (c + operation_count (ambient_locale g) h0 entry))).
        -- apply hoare_pacman_run_operations.
        -- intros ?. by apply hoare_ret.
      * intros e. destruct e; by simpl.
    + intros [result|].
      * apply hoare_ret. by intros w Hw.
      * eapply hoare_conseq;
          [apply (IH (c + operation_count (ambient_locale g) h0 entry)%Z)|auto..].
        intros [result|] w; [done|]. apply counted_completed. lia.
Qed.

Lemma hoare_pacman_dispatch pkgman operations filtered_total g h0 :
  hoare (λ w, gs w = g ∧ heap w = h0)
    (Pacman.dispatch pkgman operations filtered_total)
    (λ r w, r = JobNone →
            total_packages w = filtered_total
            ∧ (filtered_total ≠ 0%Z →
               completed_packages w = operations_count (ambient_locale g) h0 operations))
    (λ _ _, True).
Proof.
  unfold Pacman.dispatch.
  eapply (hoare_bind _ (λ _ w, gs w = g ∧ heap w = h0)); [by apply hoare_modify|].
  intros ?.
  eapply (hoare_bind _ (λ _ w, gs w = g ∧ heap w = h0
                               ∧ total_packages w = filtered_total)).
  { apply hoare_modify. by intros w [? ?]. }
  intros ?.
  eapply (hoare_bind _ (λ _, counted g h0 filtered_total 0)).
  { apply hoare_modify. intros w (Hg & Hh & Ht).
    split; [done|]. split; [|done]. simpl. rewrite Hh. apply drift_refl. }
  intros ?.
  eapply (hoare_bind _ (λ _, counted g h0 filtered_total 0));
    [by apply hoare_counted_modify|].
  intros ?.
  eapply (hoare_bind _ (λ _, counted g h0 filtered_total 0));
    [by apply hoare_counted_modify|].
  intros ?.
  destruct (Z.eqb_spec filtered_total 0) as [Hz|Hnz].
  { apply hoare_ret. intros w (_ & _ & Ht & _) _. by split. }
  eapply hoare_bind; [apply (hoare_pacman_run_entries pkgman g h0 filtered_total operations 0)|].
  intros [result|].
  - apply hoare_ret. by intros w Hw ->.
  - eapply (hoare_bind _ (λ _, counted g h0 filtered_total
                                 (0 + operations_count (ambient_locale g) h0 operations)));
      [by apply hoare_counted_modify|].
    intros ?.
    eapply (hoare_bind _ (λ _, counted g h0 filtered_total
                                 (0 + operations_count (ambient_locale g) h0 operations)));
      [by apply hoare_counted_modify|].
    intros ?. apply hoare_ret. intros w (_ & _ & Ht & Hc) _. split; [done|].
    intros _. by rewrite Hc.
Qed.

Lemma filter_sources_wf w operations :
  Forall dict_wf operations → Forall dict_wf (Pacman.filter_sources w operations).
Proof.
  induction 1 as [|op ops Hop _ IH]; simpl; [done|].
  destruct (_ || _); [done|]. by constructor.
Qed.

Lemma hoare_gs_any {A} g (m : M A) :
  ends anything anything m → preserves core m →
  hoare (λ w, gs w = g) m (λ _ w, gs w = g) (λ _ _, True).
Proof.
  intros He Hp w Hg. specialize (He w). specialize (Hp w).
  destruct (m w) as [[a|e|] w1]; simpl in *; [|done..].
  unfold core in Hp. injection Hp as Hg' _ _ _. congruence.
Qed.

Lemma preserves_core_capture_lines command :
  preserves core (Pkgcheck._target_env_capture_lines command).
Proof. unfold Pkgcheck._target_env_capture_lines. preserves_core. Qed.

Lemma preserves_core_pacman_update message (m : M unit) :
  preserves core m →
  preserves core
    (try_except (m;; mret None)
       (Pacman.only_called_process_error (Pacman.command_failed message))).
Proof.
  intros Hm. apply preserves_try_except.
  - apply preserves_bind; [exact Hm|]. intros. apply preserves_ret.
  - intros e k He. destruct e; try done. injection He as <-.
    unfold Pacman.command_failed, log_failure. preserves_core.
Qed.

Lemma ends_any_pacman_update message (m : M unit) :
  ends anything called_process_error m →
  ends anything anything
    (try_except (m;; mret None)
       (Pacman.only_called_process_error (Pacman.command_failed message))).
Proof.
  intros Hm. eapply ends_weaken; [by apply ends_pacman_update|done..].
Qed.

(** What the first part of [run] hands over: lists that are counted in
    full when they are resolved again, and their executable total. *)
Lemma hoare_pacman_prepare cfg g :
  Forall dict_wf (default [] (Pacman.cfg_operations cfg)
                    ++ default [] (gs_packageOperations g)) →
  hoare (λ w, gs w = g) (Pacman.prepare cfg)
    (λ r w, match r with
            | inl _ => True
            | inr (_, operations, total) =>
                gs w = g
                ∧ Forall (op_stable (ambient_locale g) (heap w)) operations
                ∧ total = total_executable operations
            end)
    (λ _ _, True).
Proof.
  intros Hwf. unfold Pacman.prepare.
  destruct (negb _); [by apply hoare_ret|].
  eapply (hoare_bind _ (λ _ w, gs w = g)); [by apply hoare_get|]. intros w0.
  destruct (_ && _).
  { eapply (hoare_bind _ (λ _ _, True)); [by apply hoare_modify|].
    intros ?. by apply hoare_ret. }
  eapply (hoare_bind _ (λ _ w, gs w = g)).
  { apply hoare_gs_any; unfold Pacman.init;
      [repeat ends_step | preserves_core]. }
  intros pkgman. unfold unless_returned.
  eapply (hoare_bind _ (λ _ w, gs w = g)).
  { destruct (_ && _); [|by apply hoare_ret].
    apply hoare_gs_any.
    - apply ends_any_pacman_update, ends_run_pacman.
    - apply preserves_core_pacman_update, preserves_core_run_pacman. }
  intros [result|]; [by apply hoare_ret|].
  eapply (hoare_bind _ (λ _ w, gs w = g)).
  { destruct (_ && _); [|by apply hoare_ret].
    apply hoare_gs_any.
    - apply ends_any_pacman_update, ends_run_pacman.
    - apply preserves_core_pacman_update, preserves_core_run_pacman. }
  intros [result|]; [by apply hoare_ret|].
  eapply (hoare_bind _ (λ wv w, gs wv = g ∧ gs w = g));
    [apply hoare_get; intros ? ?; by split|].
  intros w1. apply hoare_assume. intros Hg1.
  unfold configured_operations. rewrite Hg1.
  set (operations := Pacman.filter_sources w1 _).
  assert (Hwf' : Forall dict_wf operations) by by apply filter_sources_wf.
  eapply (hoare_try_except _ _ (λ _ _, True)).
  2: { intros e. destruct e; by simpl. }
  eapply (hoare_bind _ (λ _ w, gs w = g)).
  { apply hoare_gs_any.
    - eapply ends_any_exception, ends_build_repo_index.
    - unfold Pkgcheck.build_repo_index.
      repeat first [ apply preserves_core_capture_lines | preserves_step ]. }
  intros [repo_pkgs repo_groups].
  intros w2 Hg2. rewrite bind_run. unfold Pkgcheck.preprocess_operations.
  destruct (preprocess_loop_spec repo_pkgs repo_groups operations [] 0%Z w2 Hwf')
    as (new_ops & total & w3 & Hrun & _ & _ & _ & Htot); [done|].
  destruct (preprocess_loop_stable repo_pkgs repo_groups operations [] 0%Z w2 Hwf')
    as (new_ops' & total' & w3' & Hrun' & Hg3 & Hst); [done|].
  rewrite Hrun in Hrun'. injection Hrun' as <- <- <-.
  rewrite Hrun. simpl. rewrite Hg2 in Hst, Hg3.
  split; [done|]. split; [done|]. simpl in Htot. lia.
Qed.

Lemma executable_le_entry_count op : (executable_count op <= entry_count op)%Z.
Proof.
  unfold executable_count, entry_count.
  induction op as [|kv op IH]; simpl; [done|].
  destruct (is_executable_key kv.1); lia.
Qed.

Lemma total_executable_le_every_entry ops : (total_executable ops <= every_entry ops)%Z.
Proof.
  unfold total_executable, every_entry.
  induction ops as [|op ops IH]; simpl; [done|].
  pose proof (executable_le_entry_count op). lia.
Qed.

(** When [run] of the pacman module has preprocessed its operations and
    returns [None], [total_packages] is the number of entries under the
    executable keys of the preprocessed operations and, unless that total is
    zero, [completed_packages] is the number of entries under all their
    keys: what is stored under [source] or an unknown key is counted as
    completed though it is not part of the total. *)
Theorem pacman_counts_every_key (cfg : Pacman.configuration) (w : world)
    (pkgman : Pacman.PacmanManager) (operations : list operation) (total : Z)
    (w1 w' : world) :
  Forall dict_wf (configured_operations w (Pacman.cfg_operations cfg)) →
  Pacman.prepare cfg w = (Ok (inr (pkgman, operations, total)), w1) →
  Pacman.run cfg w = (Ok JobNone, w') →
  total = total_executable operations
  ∧ total_packages w' = total
  ∧ (total <= every_entry operations)%Z
  ∧ (total ≠ 0%Z → completed_packages w' = every_entry operations).
Proof.
  intros Hwf Hprep Hrun.
  pose proof (hoare_pacman_prepare cfg (gs w) Hwf w eq_refl) as Hp.
  rewrite Hprep in Hp. destruct Hp as (Hg & Hst & Htot).
  unfold Pacman.run in Hrun. rewrite bind_run, Hprep in Hrun.
  pose proof (hoare_pacman_dispatch pkgman operations total (gs w1) (heap w1) w1
                (conj eq_refl eq_refl)) as Hd.
  rewrite Hrun in Hd. destruct (Hd eq_refl) as [Ht Hc].
  split; [done|]. split; [done|].
  split; [rewrite Htot; apply total_executable_le_every_entry|].
  intros Hnz. rewrite (Hc Hnz). rewrite Hg.
  apply ops_stable_count; [apply ambient_locale_nonempty|done].
Qed.

(** *** Progress during one transaction *)

Lemma hoare_reporting_line_cb q p0 fail line :
  hoare (reporting q p0) (Pacman.line_cb line) (λ _, reporting q p0) fail.
Proof.
  unfold Pacman.line_cb.
  eapply (hoare_bind _ (λ _, reporting q p0)); [|intros ?; by apply hoare_modify].
  destruct (Py.startswith line ":: "); [by apply hoare_modify|].
  eapply (hoare_bind _ (λ wv w, wv = w ∧ reporting q p0 w)); [by apply hoare_get|].
  intros w0. destruct (_ && _); [|by apply hoare_ret; intros ? [_ ?]].
  eapply (hoare_bind _ (λ _ w, progress_fraction w0 = q ∧ reporting q p0 w)).
  { apply hoare_modify. intros w [-> Hw]. split; [apply Hw|exact Hw]. }
  intros ?. apply hoare_modify. intros w [Hq [Hf [n Hn]]].
  split; [done|]. exists (S n). simpl. by rewrite Hq, Hn.
Qed.

Lemma hoare_reporting_target q p0 cmd (callback : bool) :
  hoare (reporting q p0)
    (target_env_process_output cmd (if callback then Some Pacman.line_cb else None))
    (λ _, reporting q p0) (λ _, reporting q p0).
Proof.
  unfold target_env_process_output.
  eapply (hoare_bind _ (λ _, reporting q p0)); [by apply hoare_spawn|]. intros o.
  eapply (hoare_bind _ (λ _, reporting q p0)).
  - destruct callback; [|by apply hoare_ret].
    apply hoare_for_each. intros line. apply hoare_reporting_line_cb.
  - intros ?. destruct (out_rc o =? 0)%Z; [by apply hoare_ret | by apply hoare_raise].
Qed.

Lemma hoare_reporting_run_pacman_loop q p0 self cmd callback :
  ∀ fuel count,
    (Z.to_nat (Pacman.pacman_num_retries self + 1 - count) < fuel)%nat →
    hoare (reporting q p0) (Pacman.run_pacman_loop fuel self cmd callback count)
      (λ _, reporting q p0) (λ _, reporting q p0).
Proof.
  induction fuel as [|fuel IH]; intros count Hfuel; [lia|]. simpl.
  destruct (Z.leb_spec count (Pacman.pacman_num_retries self)) as [Hle|_];
    [|by apply hoare_ret].
  eapply hoare_try_except; [apply hoare_reporting_target|].
  intros e. destruct e; simpl; try done.
  destruct (Z.leb_spec (count + 1) (Pacman.pacman_num_retries self)) as [Hle'|_].
  - apply IH. lia.
  - by apply hoare_raise.
Qed.

Lemma reset_progress_baseline w :
  ∃ w', Pacman.reset_progress w = (Ok tt, w')
        ∧ progress_fraction w' = baseline w ∧ progress w' = progress w.
Proof.
  unfold Pacman.reset_progress, baseline. rewrite bind_run. unfold modify at 1.
  rewrite bind_run. unfold get at 1. cbn [total_packages set_in_package_changes].
  destruct (Z.ltb_spec 0 (total_packages w)) as [Hpos|_].
  - rewrite bind_run. unfold truediv.
    cbn [total_packages completed_packages set_in_package_changes].
    destruct (Z.eqb_spec (total_packages w) 0) as [Hz|_]; [lia|].
    eexists. split; [reflexivity|]. done.
  - eexists. split; [reflexivity|]. done.
Qed.

(** [PacmanManager.install] returns or raises, and every progress value it
    pushes is the fraction [reset_progress] stored at its start, completed
    over total, or 0 without a total: progress does not advance within one
    transaction. *)
Theorem install_reports_baseline (self : Pacman.PacmanManager) (pkgs : list string)
    (from_local : bool) (w : world) :
  ∃ res w' n,
    Pacman.install self pkgs from_local w = (res, w')
    ∧ res ≠ OutOfFuel
    ∧ progress w' = replicate n (baseline w) ++ progress w.
Proof.
  unfold Pacman.install. rewrite bind_run.
  destruct (reset_progress_baseline w) as (w0 & -> & Hq & Hp).
  pose proof (hoare_reporting_run_pacman_loop (baseline w) (progress w) self
                (Pacman.install_cmd self pkgs from_local) true
                (S (Z.to_nat (Pacman.pacman_num_retries self + 1))) 0%Z ltac:(lia) w0) as H.
  unfold Pacman.run_pacman.
  destruct (Pacman.run_pacman_loop _ _ _ _ _ w0) as [[[]|e|] w1].
  - destruct H as [_ [n Hn]]; [split; [done|]; by exists 0%nat|]. by exists (Ok tt), w1, n.
  - destruct H as [_ [n Hn]]; [split; [done|]; by exists 0%nat|]. by exists (Raise e), w1, n.
  - destruct H. split; [done|]. by exists 0%nat.
Qed.

(** ** The output of the resolver, local lists and source filters *)

(** *** Lists under [localInstall] *)

Lemma kept_by_resolver_drift locale h h' item :
  drift locale h h' → kept_by_resolver locale h' item = kept_by_resolver locale h item.
Proof.
  unfold drift, kept_by_resolver.
  destruct (String.eqb locale "en"); [by intros ->|].
  intros Hp. destruct item as [s|a]; simpl; [done|]. specialize (Hp a).
  destruct (h !! a ≫= package) as [n|], (h' !! a ≫= package) as [n'|]; simpl; try done.
  - destruct Hp as [H _]. by destruct H as [? [=]].
  - destruct Hp as [_ H]. by destruct H as [? [=]].
Qed.

Lemma filter_kept_drift locale h h' l :
  drift locale h h' →
  List.filter (kept_by_resolver locale h') l = List.filter (kept_by_resolver locale h) l.
Proof.
  intros Hd. induction l as [|item l IH]; [done|]. simpl.
  by rewrite IH, (kept_by_resolver_drift locale h h').
Qed.

Lemma loop_resolved_only locale plist :
  locale ≠ "" →
  ∀ h, (subst_locale_loop locale h plist).2
       = resolved locale <$> List.filter (kept_by_resolver locale h) plist.
Proof.
  intros HL. induction plist as [|item rest IH]; intros h; [done|].
  pose proof (loop_drift locale [item] h HL) as Hd.
  cbn [subst_locale_loop List.filter] in *. unfold kept_by_resolver at 1.
  destruct (packagename_of h item) as [name|] eqn:Hname; cbn [mbind option_bind] in *;
    [|by apply IH].
  unfold resolve_name in *.
  destruct item as [s|a].
  - simpl in Hname. injection Hname as <-.
    destruct (String.eqb locale "en") eqn:E; cbn [negb andb] in *.
    + destruct (Py.contains "LOCALE" s); cbn [negb]; [by apply IH|].
      specialize (IH h). destruct (subst_locale_loop locale h rest).
      simpl in *. by rewrite E, IH.
    + specialize (IH h). destruct (subst_locale_loop locale h rest).
      simpl in *. by rewrite E, IH.
  - destruct (String.eqb locale "en") eqn:E; cbn [negb andb] in *.
    + destruct (Py.contains "LOCALE" name); cbn [negb]; [by apply IH|].
      cbn [fst] in Hd.
      specialize (IH (alter (set_package name) a h)).
      destruct (subst_locale_loop locale _ rest). simpl in *.
      by rewrite IH, (filter_kept_drift locale h _ rest Hd).
    + cbn [fst] in Hd.
      specialize (IH (alter (set_package (Py.safe_substitute locale name)) a h)).
      destruct (subst_locale_loop locale _ rest). simpl in *.
      by rewrite IH, (filter_kept_drift locale h _ rest Hd).
Qed.

Lemma empty_names_stay_refl h : empty_names_stay h h.
Proof. by intros a. Qed.

Lemma empty_names_stay_trans h1 h2 h3 :
  empty_names_stay h1 h2 → empty_names_stay h2 h3 → empty_names_stay h1 h3.
Proof. intros H12 H23 a Ha. by apply H23, H12. Qed.

Lemma loop_empty_names_stay locale plist h :
  empty_names_stay h (subst_locale_loop locale h plist).1.
Proof.
  intros a Ha. destruct (String.eqb locale "en") eqn:HL.
  - apply String.eqb_eq in HL as ->. by rewrite (proj1 (loop_en plist h)).
  - by apply loop_keeps_resolved.
Qed.

(** Claim C6, amended.  [subst_locale] returns, in order, the entries that
    the resolver keeps, a string entry as its resolved name, a structured
    entry as the same object.  For a locale other than [en]: when the locale
    shares no text with the token and no name of the input has a token
    behind a [$], every entry in the output has a name without the token
    [${LOCALE}]; and an entry whose name is a template, every [$] of which
    opens a token, is in the output under the name with every token
    replaced by the locale (for a structured entry, when the locale has no
    [$]).  For the locale [en]: the heap is unchanged and an entry whose
    name contains [LOCALE] is not in the output. *)
Theorem subst_locale_placeholder (plist : pyval) (w : world) :
  ∃ ret w',
    subst_locale plist w = (Ok ret, w')
    ∧ ret = resolved (ambient_locale (gs w))
              <$> List.filter (kept_by_resolver (ambient_locale (gs w)) (heap w))
                    (py_iter plist)
    ∧ (ambient_locale (gs w) ≠ "en" →
       (clear_of_token (ambient_locale (gs w)) →
        Forall (λ item, ∀ n, packagename_of (heap w) item = Some n →
                             Py.contains "$${LOCALE}" n = false) (py_iter plist) →
        Forall (λ item, ∃ n, packagename_of (heap w') item = Some n
                             ∧ Py.contains "${LOCALE}" n = false) ret)
       ∧ (∀ item ps,
            item ∈ py_iter plist → Forall plain ps →
            packagename_of (heap w) item = Some (template ps) →
            match item with
            | EStr _ => EStr (instance (ambient_locale (gs w)) ps) ∈ ret
            | EDict _ =>
                no_dollar (ambient_locale (gs w)) →
                item ∈ ret
                ∧ packagename_of (heap w') item
                  = Some (instance (ambient_locale (gs w)) ps)
            end))
    ∧ (ambient_locale (gs w) = "en" →
       heap w' = heap w
       ∧ ∀ item n, item ∈ py_iter plist → packagename_of (heap w) item = Some n →
           Py.contains "LOCALE" n = true → item ∉ ret).
Proof.
  rewrite subst_locale_run. eexists _, _. split; [reflexivity|].
  split; [apply loop_resolved_only, ambient_locale_nonempty|]. split.
  - intros Hne. apply String.eqb_neq in Hne. split.
    + intros HL Hall. simpl.
      apply (loop_resolves_class (ambient_locale (gs w)) Hne
               (λ n, Py.contains "$${LOCALE}" n = false)
               (λ n, Py.contains "${LOCALE}" n = false)); [| |done].
      * intros n Hn. by apply safe_substitute_no_token.
      * intros n Hn. by apply contains_longer.
    + intros item ps Hin Hps Hn. destruct item as [s|a]; simpl in *.
      * injection Hn as ->.
        pose proof (loop_string_resolved (ambient_locale (gs w)) Hne (py_iter plist)
                      (heap w) _ Hin) as H.
        unfold Py.safe_substitute in H. by rewrite sub_template in H.
      * intros HL. by apply loop_dict_template.
  - intros ->. simpl. destruct (loop_en (py_iter plist) (heap w)) as [Hh Hret].
    split; [done|]. intros item n Hin Hn Hc Hout.
    rewrite Forall_forall in Hret. destruct (Hret item Hout) as (_ & n' & Hn' & Hc').
    congruence.
Qed.

Lemma any_nonempty_local (op : operation) k l :
  (k, PList l) ∈ op → l ≠ [] → Pkgcheck.any_nonempty_list op = true.
Proof.
  intros Hin Hl. unfold Pkgcheck.any_nonempty_list. apply existsb_exists.
  exists (k, PList l). split; [by apply list_elem_of_In|]. by destruct l.
Qed.

Lemma executable_count_nonneg op : (0 <= executable_count op)%Z.
Proof.
  unfold executable_count. induction op as [|kv op IH]; simpl; [done|].
  destruct (is_executable_key kv.1); lia.
Qed.

Lemma total_executable_nonneg ops : (0 <= total_executable ops)%Z.
Proof.
  unfold total_executable. induction ops as [|op ops IH]; simpl; [done|].
  pose proof (executable_count_nonneg op). lia.
Qed.

Lemma executable_count_entry (op : operation) k v :
  (k, v) ∈ op → is_executable_key k = true →
  (Z.of_nat (length (py_iter v)) <= executable_count op)%Z.
Proof.
  intros Hin Hk. induction op as [|kv op IH]; [by apply elem_of_nil in Hin|].
  change (executable_count (kv :: op))
    with ((if is_executable_key kv.1 then Z.of_nat (length (py_iter kv.2)) else 0)
          + executable_count op)%Z.
  pose proof (executable_count_nonneg op).
  apply elem_of_cons in Hin as [<-|Hin].
  - simpl. rewrite Hk. lia.
  - specialize (IH Hin). destruct (is_executable_key kv.1); lia.
Qed.

Lemma total_executable_entry (ops : list operation) op k v :
  op ∈ ops → (k, v) ∈ op → is_executable_key k = true →
  (Z.of_nat (length (py_iter v)) <= total_executable ops)%Z.
Proof.
  intros Hop Hin Hk. induction ops as [|o ops IH]; [by apply elem_of_nil in Hop|].
  change (total_executable (o :: ops)) with (executable_count o + total_executable ops)%Z.
  pose proof (executable_count_nonneg o). pose proof (total_executable_nonneg ops).
  apply elem_of_cons in Hop as [<-|Hop].
  - pose proof (executable_count_entry op k v Hin Hk). lia.
  - specialize (IH Hop). lia.
Qed.

(** An entry whose name is the empty string is in the list that is
    resolved only, as it is. *)
Lemma empty_name_resolved_only locale h v item :
  item ∈ py_iter v → packagename_of h item = Some "" →
  item ∈ resolved_only locale h v.
Proof.
  intros Hin Hn. unfold resolved_only.
  assert (Hres : resolved locale item = item).
  { destruct item as [s|a]; [|done]. simpl in Hn. injection Hn as ->. simpl.
    by destruct (String.eqb locale "en"). }
  rewrite <- Hres. apply list_elem_of_In, in_map, filter_In.
  split; [by apply list_elem_of_In|].
  unfold kept_by_resolver. rewrite Hn. simpl. by rewrite andb_false_r.
Qed.

Section local_install.
Variables repo_pkgs repo_groups : gset string.
Variable g : globalstorage.
Variable h0 : gmap nat pkgdict.

Lemma preprocess_items_local (items : list (string * pyval)) :
  ∀ (new_op : operation) (total : Z) (w : world),
    NoDup items.*1 →
    (∀ k, k ∈ items.*1 → dict_get new_op k = None) →
    gs w = g → drift (ambient_locale g) h0 (heap w) → empty_names_stay h0 (heap w) →
    ∃ added total' w',
      Pkgcheck.preprocess_items subst_locale repo_pkgs repo_groups items new_op total w
        = (Ok (new_op ++ added, total'), w')
      ∧ gs w' = g
      ∧ drift (ambient_locale g) h0 (heap w')
      ∧ empty_names_stay h0 (heap w')
      ∧ ∀ v, ("localInstall", v) ∈ items →
             ("localInstall", PList (resolved_only (ambient_locale g) h0 v)) ∈ added.
Proof.
  induction items as [|[key raw] rest IH]; intros new_op total w Hnd Hfresh Hg Hd He; simpl.
  - exists [], total, w. rewrite app_nil_r. repeat split; try done.
    intros v Hv. by apply elem_of_nil in Hv.
  - apply NoDup_cons in Hnd as [Hkey Hnd]. simpl in Hkey.
    rewrite bind_run, subst_locale_run. rewrite Hg.
    pose proof (loop_resolved_only (ambient_locale g) (py_iter raw)
                  (ambient_locale_nonempty g) (heap w)) as Hret.
    rewrite (filter_kept_drift _ h0 (heap w) _ Hd) in Hret.
    pose proof (loop_drift (ambient_locale g) (py_iter raw) (heap w)
                  (ambient_locale_nonempty g)) as Hd1.
    pose proof (loop_empty_names_stay (ambient_locale g) (py_iter raw) (heap w)) as He1.
    destruct (subst_locale_loop (ambient_locale g) (heap w) (py_iter raw))
      as [h1 localized]. cbn [fst snd] in *.
    assert (Hset : ∀ v, dict_set new_op key v = new_op ++ [(key, v)]).
    { intros v. apply dict_set_fresh, Hfresh. simpl. by left. }
    assert (Hfresh' : ∀ v k, k ∈ rest.*1 → dict_get (new_op ++ [(key, v)]) k = None).
    { intros v k Hk. rewrite dict_get_snoc, Hfresh by (simpl; by right).
      destruct (String.eqb_spec key k) as [->|]; done. }
    assert (Hstep : ∀ (w1 : world) l total1,
              gs w1 = g → heap w1 = h1 →
              (key = "localInstall" → l = localized) →
              ∃ added total' w',
                Pkgcheck.preprocess_items subst_locale repo_pkgs repo_groups rest
                  (new_op ++ [(key, PList l)]) total1 w1
                  = (Ok (new_op ++ added, total'), w')
                ∧ gs w' = g
                ∧ drift (ambient_locale g) h0 (heap w')
                ∧ empty_names_stay h0 (heap w')
                ∧ ∀ v, ("localInstall", v) ∈ (key, raw) :: rest →
                       ("localInstall", PList (resolved_only (ambient_locale g) h0 v))
                         ∈ added).
    { intros w1 l total1 Hg1 Hh1 Hl.
      destruct (IH (new_op ++ [(key, PList l)]) total1 w1 Hnd (Hfresh' _) Hg1)
        as (added & total' & w' & Hrun & Hg' & Hd' & He' & Hlocal).
      { rewrite Hh1. by eapply drift_trans. }
      { rewrite Hh1. by eapply empty_names_stay_trans. }
      exists ((key, PList l) :: added), total', w'.
      rewrite Hrun, <- app_assoc. split; [done|]. split; [done|].
      split; [done|]. split; [done|].
      intros v [[= <- <-]|Hv]%elem_of_cons.
      - rewrite Hl, Hret by done. by left.
      - right. by apply Hlocal. }
    destruct (Pkgcheck.is_filter_key key) eqn:Hfk.
    + rewrite bind_run.
      destruct (filter_operation_list_run key localized repo_pkgs repo_groups
                  (set_heap h1 w)) as (w2 & -> & Hh2 & Hg2 & _).
      rewrite Hset. apply Hstep; [by rewrite Hg2|done|].
      intros ->. done.
    + destruct (String.eqb_spec key "localInstall") as [->|Hne]; rewrite Hset;
        by apply Hstep.
Qed.

Lemma preprocess_loop_local (operations : list operation) :
  ∀ (new_ops : list operation) (total : Z) (w : world),
    Forall dict_wf operations →
    gs w = g → drift (ambient_locale g) h0 (heap w) → empty_names_stay h0 (heap w) →
    ∃ new_ops' total' w',
      Pkgcheck.preprocess_loop subst_locale repo_pkgs repo_groups operations new_ops total w
        = (Ok (new_ops', total'), w')
      ∧ empty_names_stay h0 (heap w')
      ∧ (∀ op, op ∈ new_ops → op ∈ new_ops')
      ∧ ∀ op v, op ∈ operations → ("localInstall", v) ∈ op →
          resolved_only (ambient_locale g) h0 v ≠ [] →
          ∃ new_op, new_op ∈ new_ops'
                    ∧ ("localInstall", PList (resolved_only (ambient_locale g) h0 v))
                        ∈ new_op.
Proof.
  induction operations as [|op rest IH]; intros new_ops total w Hwf Hg Hd He; simpl.
  - exists new_ops, total, w. repeat split; try done.
    intros op v Hop. by apply elem_of_nil in Hop.
  - apply Forall_cons in Hwf as [Hop Hwf].
    rewrite bind_run.
    destruct (preprocess_items_local op [] total w Hop)
      as (new_op & total1 & w1 & -> & Hg1 & Hd1 & He1 & Hlocal1); [done..|]. simpl.
    destruct (IH (if Pkgcheck.any_nonempty_list new_op then new_ops ++ [new_op] else new_ops)
                total1 w1 Hwf Hg1 Hd1 He1)
      as (new_ops' & total' & w' & Hrun & He' & Hmono & Hlocal).
    exists new_ops', total', w'. split; [exact Hrun|]. split; [done|]. split.
    { intros o Ho. apply Hmono. destruct (Pkgcheck.any_nonempty_list new_op); [|done].
      apply elem_of_app. by left. }
    intros o v [->|Ho]%elem_of_cons Hv Hne.
    + exists new_op. split; [|by apply Hlocal1].
      apply Hmono. rewrite (any_nonempty_local new_op _ _ (Hlocal1 v Hv) Hne).
      apply elem_of_app. right. by apply list_elem_of_singleton.
    + by apply (Hlocal o v).
Qed.
End local_install.

(** Claim C8, amended.  In the operations that preprocessing returns, every
    entry of every list has a package name (an entry without one is dropped
    everywhere), and under the four filtered keys [install], [try_install],
    [remove] and [try_remove] that name is not empty; the total counts the
    entries of the returned lists only.  A list under [localInstall] is
    locale-resolved only: unless it comes out empty, it is returned with
    every entry the resolver keeps; so an entry of it whose name is the
    empty string is in the returned list, still with the empty name, and
    the total counts it. *)
Theorem preprocess_drops_unnamed (operations : list operation)
    (repo_pkgs repo_groups : gset string) (w : world) :
  Forall dict_wf operations →
  ∃ new_ops total w',
    Pkgcheck.preprocess_operations operations subst_locale repo_pkgs repo_groups w
      = (Ok (new_ops, total), w')
    ∧ total = total_executable new_ops
    ∧ (∀ op key v item,
         op ∈ new_ops → (key, v) ∈ op → item ∈ py_iter v →
         ∃ name, packagename_of (heap w') item = Some name
                 ∧ (Pkgcheck.is_filter_key key = true → name ≠ ""))
    ∧ (∀ op v,
         op ∈ operations → ("localInstall", v) ∈ op →
         resolved_only (ambient_locale (gs w)) (heap w) v ≠ [] →
         ∃ new_op, new_op ∈ new_ops
                   ∧ ("localInstall",
                      PList (resolved_only (ambient_locale (gs w)) (heap w) v)) ∈ new_op)
    ∧ (∀ op v item,
         op ∈ operations → ("localInstall", v) ∈ op → item ∈ py_iter v →
         packagename_of (heap w) item = Some "" →
         (∃ new_op l, new_op ∈ new_ops ∧ ("localInstall", PList l) ∈ new_op ∧ item ∈ l)
         ∧ packagename_of (heap w') item = Some ""
         ∧ (0 < total)%Z).
Proof.
  intros Hwf. unfold Pkgcheck.preprocess_operations.
  destruct (preprocess_loop_spec repo_pkgs repo_groups operations [] 0%Z w Hwf)
    as (new_ops & total & w' & Hrun & _ & _ & Hnamed & Htot); [done|].
  destruct (preprocess_loop_local repo_pkgs repo_groups (gs w) (heap w) operations [] 0%Z w
              Hwf eq_refl (drift_refl _ _) (empty_names_stay_refl _))
    as (new_ops' & total' & w'' & Hrun' & Hempty & _ & Hlocal).
  rewrite Hrun in Hrun'. injection Hrun' as <- <- <-.
  assert (Htotal : total = total_executable new_ops) by (simpl in Htot; lia).
  exists new_ops, total, w'. split; [exact Hrun|]. split; [exact Htotal|].
  split; [|split; [exact Hlocal|]].
  - intros op key v item Hop Hkv Hitem.
    rewrite Forall_forall in Hnamed.
    destruct (Hnamed op Hop key v Hkv) as (l & -> & Hl).
    rewrite Forall_forall in Hl. exact (Hl item Hitem).
  - intros op v item Hop Hv Hitem Hname.
    pose proof (empty_name_resolved_only (ambient_locale (gs w)) (heap w) v item
                  Hitem Hname) as Hin.
    destruct (Hlocal op v Hop Hv) as (new_op & Hnew & Hlist).
    { intros Hnil. rewrite Hnil in Hin. by apply elem_of_nil in Hin. }
    split; [by eauto|]. split.
    + destruct item as [s|a]; [done|]. by apply Hempty.
    + pose proof (total_executable_entry new_ops new_op "localInstall" _ Hnew Hlist
                    eq_refl) as Hle.
      simpl in Hle. rewrite Htotal.
      destruct (resolved_only (ambient_locale (gs w)) (heap w) v);
        [by apply elem_of_nil in Hin|]. simpl in Hle. lia.
Qed.

(** *** The source filters *)

Lemma pacman_filter_sources_filter w operations :
  Pacman.filter_sources w operations = List.filter (for_pacman w) operations.
Proof.
  induction operations as [|entry rest IH]; [done|]. simpl.
  unfold for_pacman, lowered_source, source_tag. rewrite IH.
  by destruct (_ || _).
Qed.

Lemma paru_filter_sources_filter w operations :
  Paru.filter_sources w operations = List.filter (for_paru w) operations.
Proof.
  induction operations as [|entry rest IH]; [done|]. simpl.
  unfold for_paru, lowered_source, source_tag. rewrite IH.
  by destruct (Py.contains "paru" _).
Qed.

Lemma preserves_core_pacman_init cfg : preserves core (Pacman.init cfg).
Proof. unfold Pacman.init. preserves_core. Qed.

Lemma preserves_core_ignore_cpe message (m : M unit) :
  preserves core m → preserves core (Paru.ignore_called_process_error message m).
Proof.
  intros Hm. unfold Paru.ignore_called_process_error.
  apply preserves_try_except; [done|].
  intros e k He. destruct e; try done. injection He as <-. preserves_core.
Qed.

Lemma preserves_core_paru_init cfg : preserves core (Paru.init cfg).
Proof.
  unfold Paru.init.
  repeat first [ apply preserves_core_ignore_cpe; apply preserves_core_target;
                 intros f line [=]
               | preserves_step ].
Qed.

Lemma preserves_core_paru_update_db self : preserves core (Paru.update_db self).
Proof.
  unfold Paru.update_db. apply preserves_bind; [apply preserves_core_run_paru|].
  intros. apply preserves_ret.
Qed.

Lemma preserves_core_paru_update_system self : preserves core (Paru.update_system self).
Proof.
  unfold Paru.update_system. apply preserves_bind; [apply preserves_core_run_paru|].
  intros. apply preserves_ret.
Qed.

Lemma core_gs_heap w w' : core w' = core w → gs w' = gs w ∧ heap w' = heap w.
Proof. unfold core. by intros [= -> -> _ _]. Qed.

(** A step that is taken only when it is asked for. *)
Lemma preserves_core_when (b : bool) (m : M unit) :
  preserves core m → preserves core (if b then m else mret tt).
Proof. intros Hm. destruct b; [done|apply preserves_ret]. Qed.

Lemma ends_when P (b : bool) (m : M unit) :
  ends anything P m → ends anything P (if b then m else mret tt).
Proof. intros Hm. destruct b; [done|by apply ends_ret]. Qed.

(** The first part of [run] of the pacman module, once the backend and the
    internet test are passed and the two updates have gone through. *)
Lemma pacman_prepare_kept (cfg : Pacman.configuration) (w : world) pkgman wa wb w1
    repo_pkgs repo_groups w2 operations total w3 :
  default "pacman" (Pacman.cfg_backend cfg) = "pacman" →
  default false (Pacman.cfg_skip_if_no_internet cfg) && negb (gs_hasInternet (gs w)) = false →
  Pacman.init cfg w = (Ok pkgman, wa) →
  (if default false (Pacman.cfg_update_db cfg) && gs_hasInternet (gs w)
   then Pacman.update_db pkgman else mret tt) wa = (Ok tt, wb) →
  (if default false (Pacman.cfg_update_system cfg) && gs_hasInternet (gs w)
   then Pacman.update_system pkgman else mret tt) wb = (Ok tt, w1) →
  Pkgcheck.build_repo_index w1 = (Ok (repo_pkgs, repo_groups), w2) →
  Pkgcheck.preprocess_operations
    (List.filter (for_pacman w1) (configured_operations w1 (Pacman.cfg_operations cfg)))
    subst_locale repo_pkgs repo_groups w2 = (Ok (operations, total), w3) →
  Pacman.prepare cfg w = (Ok (inr (pkgman, operations, total)), w3).
Proof.
  intros Hb Hskip Hinit Hdb Hsys Hidx Hpre.
  unfold Pacman.prepare. rewrite Hb. cbn [String.eqb Ascii.eqb Bool.eqb negb].
  rewrite bind_run. unfold get at 1. rewrite Hskip.
  rewrite bind_run, Hinit.
  unfold unless_returned at 1. rewrite bind_run.
  assert (Hdb' : (if default false (Pacman.cfg_update_db cfg) && gs_hasInternet (gs w)
                  then try_except (Pacman.update_db pkgman;; mret None)
                         (Pacman.only_called_process_error
                            (Pacman.command_failed ("The package manager could not make changes to the installed system." ++ nl ++ "Command: <pre>{!s}</pre>" ++ nl ++ "Exit code: {!s}" ++ nl)))
                  else mret None) wa = (Ok None, wb)).
  { revert Hdb.
    destruct (default false (Pacman.cfg_update_db cfg) && gs_hasInternet (gs w));
      intros Hdb.
    - unfold try_except. by rewrite bind_run, Hdb.
    - by injection Hdb as <-. }
  rewrite Hdb'. clear Hdb'.
  unfold unless_returned at 1. rewrite bind_run.
  assert (Hsys' : (if default false (Pacman.cfg_update_system cfg) && gs_hasInternet (gs w)
                   then try_except (Pacman.update_system pkgman;; mret None)
                          (Pacman.only_called_process_error
                             (Pacman.command_failed "The package manager could not update the system. The command <pre>{!s}</pre> returned error code {!s}."))
                   else mret None) wb = (Ok None, w1)).
  { revert Hsys.
    destruct (default false (Pacman.cfg_update_system cfg) && gs_hasInternet (gs w));
      intros Hsys.
    - unfold try_except. by rewrite bind_run, Hsys.
    - by injection Hsys as <-. }
  rewrite Hsys'. clear Hsys'.
  rewrite bind_run. unfold get at 1. cbv zeta.
  rewrite pacman_filter_sources_filter.
  unfold try_except. rewrite bind_run, Hidx. rewrite bind_run, Hpre. done.
Qed.

(** The first part of [run] of the paru module, once the backend and the
    internet test are passed: it always gets to the filter, and what it
    hands over is its manager and the operations for paru. *)
Lemma paru_prepare_kept (cfg : Paru.configuration) (w : world) :
  default "paru" (Paru.cfg_backend cfg) = "paru" →
  default false (Paru.cfg_skip_if_no_internet cfg) && negb (gs_hasInternet (gs w)) = false →
  ∃ pkgman wa wb w1 w2,
    Paru.init cfg w = (Ok pkgman, wa)
    ∧ (if default false (Paru.cfg_update_db cfg) && gs_hasInternet (gs w)
       then Paru.update_db pkgman else mret tt) wa = (Ok tt, wb)
    ∧ (if default false (Paru.cfg_update_system cfg) && gs_hasInternet (gs w)
       then Paru.update_system pkgman else mret tt) wb = (Ok tt, w1)
    ∧ core w1 = core w
    ∧ for_each (List.filter (for_paru w1)
                  (configured_operations w1 (Paru.cfg_operations cfg)))
        Paru.count_operation (paru_reset w1) = (Ok tt, w2)
    ∧ Paru.prepare cfg w
      = (Ok (inr (pkgman,
                  List.filter (for_paru w1)
                    (configured_operations w1 (Paru.cfg_operations cfg)))), w2).
Proof.
  intros Hb Hskip.
  destruct (returns_steady core anything (Paru.init cfg)
              (ends_paru_init nothing cfg) (preserves_core_paru_init cfg) w)
    as (pkgman & wa & Hinit & _ & Ha).
  destruct (returns_steady core anything _
              (ends_when nothing
                 (default false (Paru.cfg_update_db cfg) && gs_hasInternet (gs w))
                 _ (ends_paru_update_db nothing pkgman))
              (preserves_core_when _ _ (preserves_core_paru_update_db pkgman)) wa)
    as ([] & wb & Hdb & _ & Hbc).
  destruct (returns_steady core anything _
              (ends_when nothing
                 (default false (Paru.cfg_update_system cfg) && gs_hasInternet (gs w))
                 _ (ends_paru_update_system nothing pkgman))
              (preserves_core_when _ _ (preserves_core_paru_update_system pkgman)) wb)
    as ([] & w1 & Hsys & _ & H1).
  destruct (ends_returns anything _
              (ends_for_each nothing
                 (List.filter (for_paru w1)
                    (configured_operations w1 (Paru.cfg_operations cfg)))
                 Paru.count_operation (ends_count_operation nothing))
              (paru_reset w1)) as ([] & w2 & Hcount & _).
  exists pkgman, wa, wb, w1, w2. split; [exact Hinit|]. split; [exact Hdb|].
  split; [exact Hsys|]. split; [congruence|]. split; [exact Hcount|].
  unfold Paru.prepare. rewrite Hb. cbn [String.eqb Ascii.eqb Bool.eqb negb].
  rewrite bind_run. unfold get at 1. rewrite Hskip.
  rewrite bind_run, Hinit. rewrite bind_run, Hdb. rewrite bind_run, Hsys.
  rewrite bind_run. unfold get at 1. cbv zeta. rewrite !modify_then.
  rewrite paru_filter_sources_filter.
  change (set_custom_status_message None _) with (paru_reset w1).
  rewrite bind_run, Hcount. done.
Qed.

(** Claim C10.  In [run] of the pacman module, once the backend and the
    internet test are passed and the updates have gone through, the list
    that is preprocessed is the list of the configured operations without
    those whose source tag, in lower case, contains [paru] or [flatpak], in
    their order, and what is dispatched is what preprocessing makes of it.
    In [run] of the paru module the list that is counted and dispatched is
    the list of the configured operations whose source tag, in lower case,
    contains [paru].  Neither update touches global storage or the package
    objects.  An operation without a source tag is for pacman and not for
    paru, and no operation is for both. *)
Theorem source_partition :
  (∀ (cfg : Pacman.configuration) (w : world) pkgman wa wb w1
     repo_pkgs repo_groups w2 operations total w3,
     default "pacman" (Pacman.cfg_backend cfg) = "pacman" →
     default false (Pacman.cfg_skip_if_no_internet cfg) && negb (gs_hasInternet (gs w))
       = false →
     Pacman.init cfg w = (Ok pkgman, wa) →
     (if default false (Pacman.cfg_update_db cfg) && gs_hasInternet (gs w)
      then Pacman.update_db pkgman else mret tt) wa = (Ok tt, wb) →
     (if default false (Pacman.cfg_update_system cfg) && gs_hasInternet (gs w)
      then Pacman.update_system pkgman else mret tt) wb = (Ok tt, w1) →
     Pkgcheck.build_repo_index w1 = (Ok (repo_pkgs, repo_groups), w2) →
     Pkgcheck.preprocess_operations
       (List.filter (for_pacman w1) (configured_operations w1 (Pacman.cfg_operations cfg)))
       subst_locale repo_pkgs repo_groups w2 = (Ok (operations, total), w3) →
     gs w1 = gs w ∧ heap w1 = heap w
     ∧ Pacman.run cfg w = Pacman.dispatch pkgman operations total w3)
  ∧ (∀ (cfg : Paru.configuration) (w : world),
       default "paru" (Paru.cfg_backend cfg) = "paru" →
       default false (Paru.cfg_skip_if_no_internet cfg) && negb (gs_hasInternet (gs w))
         = false →
       ∃ pkgman wa wb w1 w2,
         Paru.init cfg w = (Ok pkgman, wa)
         ∧ (if default false (Paru.cfg_update_db cfg) && gs_hasInternet (gs w)
            then Paru.update_db pkgman else mret tt) wa = (Ok tt, wb)
         ∧ (if default false (Paru.cfg_update_system cfg) && gs_hasInternet (gs w)
            then Paru.update_system pkgman else mret tt) wb = (Ok tt, w1)
         ∧ gs w1 = gs w ∧ heap w1 = heap w
         ∧ for_each (List.filter (for_paru w1)
                       (configured_operations w1 (Paru.cfg_operations cfg)))
             Paru.count_operation (paru_reset w1) = (Ok tt, w2)
         ∧ Paru.run cfg w
           = Paru.dispatch pkgman
               (List.filter (for_paru w1)
                  (configured_operations w1 (Paru.cfg_operations cfg))) w2)
  ∧ (∀ (w : world) (entry : operation),
       dict_get entry "source" = None →
       for_pacman w entry = true ∧ for_paru w entry = false)
  ∧ (∀ (w : world) (entry : operation),
       for_paru w entry = true → for_pacman w entry = false).
Proof.
  split; [|split; [|split]].
  - intros cfg w pkgman wa wb w1 repo_pkgs repo_groups w2 operations total w3
      Hb Hskip Hinit Hdb Hsys Hidx Hpre.
    assert (Hcore : core w1 = core w).
    { pose proof (preserves_core_pacman_init cfg w) as Ha. rewrite Hinit in Ha.
      pose proof (preserves_core_when
                    (default false (Pacman.cfg_update_db cfg) && gs_hasInternet (gs w))
                    _ (preserves_core_run_pacman pkgman ["pacman"; "-Sy"] false) wa) as Hbc.
      fold (Pacman.update_db pkgman) in Hbc. rewrite Hdb in Hbc.
      pose proof (preserves_core_when
                    (default false (Pacman.cfg_update_system cfg) && gs_hasInternet (gs w))
                    _ (preserves_core_run_pacman pkgman (Pacman.update_system_cmd pkgman)
                         false) wb) as H1.
      fold (Pacman.update_system pkgman) in H1. rewrite Hsys in H1.
      simpl in *. congruence. }
    apply core_gs_heap in Hcore as [Hg Hh]. split; [done|]. split; [done|].
    unfold Pacman.run. rewrite bind_run.
    by rewrite (pacman_prepare_kept cfg w pkgman wa wb w1 repo_pkgs repo_groups w2
                  operations total w3).
  - intros cfg w Hb Hskip.
    destruct (paru_prepare_kept cfg w Hb Hskip)
      as (pkgman & wa & wb & w1 & w2 & Hinit & Hdb & Hsys & Hcore & Hcount & Hprep).
    apply core_gs_heap in Hcore as [Hg Hh].
    exists pkgman, wa, wb, w1, w2. repeat (split; [done|]).
    unfold Paru.run. by rewrite bind_run, Hprep.
  - intros w entry Hnone. unfold for_pacman, for_paru, lowered_source.
    by rewrite Hnone.
  - intros w entry. unfold for_pacman, for_paru. by intros ->.
Qed.

(** ** Examples: the claims at concrete inputs *)

(** Claim C1 as stated fails: from the same state, dispatching an operation
    with the unknown key [bogus] and two entries leaves 2 completed, an
    operation without the key leaves 0. *)
Lemma unknown_key_counterexample :
  ("bogus" ∉ recognized_keys)
  ∧ completed_packages
      (run_operations (Paru.manager default_paru_manager)
         [("bogus", PList [EStr "a"; EStr "b"])]
         (example_world (repo_system []) None ∅)).2 = 2%Z
  ∧ completed_packages
      (run_operations (Paru.manager default_paru_manager) []
         (example_world (repo_system []) None ∅)).2 = 0%Z.
Proof.
  split; [|split; vm_compute; reflexivity].
  unfold recognized_keys. intros H.
  repeat (apply elem_of_cons in H as [H|H]; [discriminate H|]).
  by apply elem_of_nil in H.
Qed.

(** Claim C1, amended, at the key [bogus], with the manager of the paru
    module and with the manager of the pacman module. *)
Lemma unknown_key_counted_witness :
  ("bogus" ∉ recognized_keys)
  ∧ (∃ w', run_operation_key (Paru.manager default_paru_manager) "bogus"
             (PList [EStr "a"; EStr "b"]) (example_world (repo_system []) None ∅)
           = (Ok tt, w')
           ∧ log w' = [Warning "Unknown package-operation key bogus"]
           ∧ completed_packages w' = 2%Z)
  ∧ (∃ w', run_operation_key (Pacman.manager plain_manager) "bogus"
             (PList [EStr "a"; EStr "b"]) (example_world (repo_system []) None ∅)
           = (Ok tt, w')
           ∧ log w' = [Warning "Unknown package-operation key bogus"]
           ∧ invoked w' = []
           ∧ completed_packages w' = 2%Z).
Proof.
  assert (Hkey : "bogus" ∉ recognized_keys).
  { unfold recognized_keys. intros H.
    repeat (apply elem_of_cons in H as [H|H]; [discriminate H|]).
    by apply elem_of_nil in H. }
  split; [exact Hkey|]. split.
  - destruct (unknown_key_counted (Paru.manager default_paru_manager) "bogus"
                (PList [EStr "a"; EStr "b"]) (example_world (repo_system []) None ∅) Hkey)
      as (w' & Hrun & _ & Hlog & _ & _ & _ & _ & Hc & _).
    exists w'. split; [exact Hrun|]. split; [exact Hlog | exact Hc].
  - destruct (unknown_key_counted (Pacman.manager plain_manager) "bogus"
                (PList [EStr "a"; EStr "b"]) (example_world (repo_system []) None ∅) Hkey)
      as (w' & Hrun & _ & Hlog & Hinv & _ & _ & _ & Hc & _).
    exists w'. split; [exact Hrun|]. split; [exact Hlog|]. split; [exact Hinv | exact Hc].
Defined.

(** Claim C2, at the failing input: the pacman module run on
    [[{"install": ["a"], "source": "x"}]] with [a] in the repository ends
    with a total of 1 and 2 completed, having pushed the fraction 2. *)
Lemma pacman_completed_exceeds_total :
  (Pacman.run (pacman_operations install_a_from_x)
     (example_world (repo_system ["a"]) None ∅)).1 = Ok JobNone
  ∧ total_packages
      (Pacman.run (pacman_operations install_a_from_x)
         (example_world (repo_system ["a"]) None ∅)).2 = 1%Z
  ∧ completed_packages
      (Pacman.run (pacman_operations install_a_from_x)
         (example_world (repo_system ["a"]) None ∅)).2 = 2%Z
  ∧ progress
      (Pacman.run (pacman_operations install_a_from_x)
         (example_world (repo_system ["a"]) None ∅)).2 = [1%Q; 2%Q; 2%Q; 1%Q; 0%Q].
Proof. vm_compute. done. Qed.

(** Claim C3 as stated fails: on [[{"try_remove": ["x"]}]], with every
    command failing, the paru module returns [None] and pushes no progress
    value at all. *)
Lemma paru_no_progress_counterexample :
  (Paru.run (paru_operations try_remove_x) (example_world failing_system None ∅)).1
    = Ok JobNone
  ∧ progress
      (Paru.run (paru_operations try_remove_x) (example_world failing_system None ∅)).2
    = [].
Proof. vm_compute. done. Qed.

(** Claim C3, amended, at the same operation tagged [paru]. *)
Lemma paru_run_never_fails_witness :
  default "paru" (Paru.cfg_backend (paru_operations try_remove_x_paru)) = "paru"
  ∧ ∃ w', Paru.run (paru_operations try_remove_x_paru)
            (example_world failing_system None ∅) = (Ok JobNone, w')
          ∧ head (progress w') = Some 1%Q.
Proof.
  split; [reflexivity|].
  destruct (paru_run_never_fails (paru_operations try_remove_x_paru)
              (example_world failing_system None ∅) eq_refl) as (w' & Hrun & Hprog).
  exists w'. split; [exact Hrun|].
  assert (Hprep : Paru.prepare (paru_operations try_remove_x_paru)
                    (example_world failing_system None ∅)
                  = (Ok (inr (default_paru_manager, try_remove_x_paru)),
                     (Paru.prepare (paru_operations try_remove_x_paru)
                        (example_world failing_system None ∅)).2)).
  { vm_compute. reflexivity. }
  specialize (Hprog _ _ _ Hprep).
  assert (Htotal : (total_packages
                      (Paru.prepare (paru_operations try_remove_x_paru)
                         (example_world failing_system None ∅)).2 =? 0)%Z = false).
  { vm_compute. reflexivity. }
  rewrite Htotal in Hprog. exact Hprog.
Defined.

(** Claim C4 at two retries and a command that fails once. *)
Lemma run_pacman_retry_witness :
  (0 <= Pacman.pacman_num_retries retrying_manager)%Z
  ∧ ∃ w', Pacman.run_pacman retrying_manager ["pacman"; "-Sy"] true
            (example_world (flaky_system 1) None ∅) = (Ok tt, w')
          ∧ invoked w' = [["pacman"; "-Sy"]; ["pacman"; "-Sy"]].
Proof.
  split; [simpl; lia|].
  destruct (run_pacman_retry retrying_manager ["pacman"; "-Sy"] true
              (example_world (flaky_system 1) None ∅) 1) as (w' & Hok & _).
  - simpl. lia.
  - intros i Hi. assert (i = 0)%nat as -> by lia. simpl. lia.
  - reflexivity.
  - exists w'. apply Hok. simpl. lia.
Defined.

Lemma install_a_from_x_wf : Forall dict_wf install_a_from_x.
Proof.
  repeat constructor.
  - intros H. repeat (apply elem_of_cons in H as [H|H]; [discriminate H|]).
    by apply elem_of_nil in H.
  - intros H. by apply elem_of_nil in H.
Qed.

(** Claim C5 at [[{"install": ["a"], "source": "x"}]]. *)
Lemma preprocess_total_count_witness :
  Forall dict_wf install_a_from_x
  ∧ ∃ new_ops total w',
      Pkgcheck.preprocess_operations install_a_from_x subst_locale {["a"]} ∅
        (example_world (repo_system ["a"]) None ∅) = (Ok (new_ops, total), w')
      ∧ total = total_executable new_ops
      ∧ total = total_executable (without_source <$> new_ops).
Proof.
  split; [exact install_a_from_x_wf|].
  exact (preprocess_total_count install_a_from_x {["a"]} ∅
           (example_world (repo_system ["a"]) None ∅) install_a_from_x_wf).
Defined.

(** Claim C8 as stated fails: the entry with the empty name stays in the
    [localInstall] list and is counted. *)
Lemma empty_name_counterexample :
  (Pkgcheck.preprocess_operations local_install_empty subst_locale ∅ ∅
     (example_world (repo_system []) None ∅)).1
  = Ok ([[("localInstall", PList [EStr ""])]], 1%Z).
Proof. vm_compute. reflexivity. Qed.

(** Claim C8, amended, at [[{"install": ["a"], "source": "x"}]] and at
    [[{"localInstall": [""]}]]. *)
Lemma preprocess_drops_unnamed_witness :
  Forall dict_wf install_a_from_x
  ∧ (∃ new_ops total w',
      Pkgcheck.preprocess_operations install_a_from_x subst_locale {["a"]} ∅
        (example_world (repo_system ["a"]) None ∅) = (Ok (new_ops, total), w')
      ∧ total = total_executable new_ops
      ∧ ∀ op key v item,
          op ∈ new_ops → (key, v) ∈ op → item ∈ py_iter v →
          ∃ name, packagename_of (heap w') item = Some name
                  ∧ (Pkgcheck.is_filter_key key = true → name ≠ ""))
  ∧ Forall dict_wf local_install_empty
  ∧ (∃ new_ops total w',
      Pkgcheck.preprocess_operations local_install_empty subst_locale ∅ ∅
        (example_world (repo_system []) None ∅) = (Ok (new_ops, total), w')
      ∧ (∃ new_op l, new_op ∈ new_ops ∧ ("localInstall", PList l) ∈ new_op ∧ EStr "" ∈ l)
      ∧ (0 < total)%Z).
Proof.
  split; [exact install_a_from_x_wf|]. split.
  { destruct (preprocess_drops_unnamed install_a_from_x {["a"]} ∅
                (example_world (repo_system ["a"]) None ∅) install_a_from_x_wf)
      as (new_ops & total & w' & Hrun & Htot & Hnamed & _).
    by exists new_ops, total, w'. }
  assert (Hwf : Forall dict_wf local_install_empty).
  { repeat constructor. by intros ?%elem_of_nil. }
  split; [exact Hwf|].
  destruct (preprocess_drops_unnamed local_install_empty ∅ ∅
              (example_world (repo_system []) None ∅) Hwf)
    as (new_ops & total & w' & Hrun & _ & _ & _ & Hempty).
  destruct (Hempty [("localInstall", PList [EStr ""])] (PList [EStr ""]) (EStr ""))
    as (Hin & _ & Hpos).
  - by apply list_elem_of_singleton.
  - by apply list_elem_of_singleton.
  - by apply list_elem_of_singleton.
  - reflexivity.
  - by exists new_ops, total, w'.
Defined.

(** Claim C6 as stated fails: with the locale [fr], the name [$${LOCALE}]
    contains the token and resolves to [${LOCALE}]; with the locale [C],
    the name [${LO${LOCALE}ALE}] contains the token and resolves to
    [${LOCALE}]; with the locale [$], so does the name
    [${LOCALE}{LOCALE}]. *)
Lemma placeholder_counterexample :
  ambient_locale (gs (example_world (repo_system []) (Some "fr") ∅)) = "fr"
  ∧ Py.contains "${LOCALE}" "$${LOCALE}" = true
  ∧ (subst_locale (PList [EStr "$${LOCALE}"])
       (example_world (repo_system []) (Some "fr") ∅)).1 = Ok [EStr "${LOCALE}"]
  ∧ Py.contains "${LOCALE}" "${LOCALE}" = true
  ∧ ambient_locale (gs (example_world (repo_system []) (Some "C") ∅)) = "C"
  ∧ Py.contains "${LOCALE}" "${LO${LOCALE}ALE}" = true
  ∧ (subst_locale (PList [EStr "${LO${LOCALE}ALE}"])
       (example_world (repo_system []) (Some "C") ∅)).1 = Ok [EStr "${LOCALE}"]
  ∧ ambient_locale (gs (example_world (repo_system []) (Some "$") ∅)) = "$"
  ∧ Py.contains "${LOCALE}" "${LOCALE}{LOCALE}" = true
  ∧ (subst_locale (PList [EStr "${LOCALE}{LOCALE}"])
       (example_world (repo_system []) (Some "$") ∅)).1 = Ok [EStr "${LOCALE}"].
Proof. vm_compute. done. Qed.

(** Claim C6, amended, at the names [pkg-$LOCALE], [a$1-${LOCALE}] and
    [lang-${LOCALE}-pack] and at a structured entry named [lang-${LOCALE}],
    with the locale [fr]. *)
Lemma subst_locale_placeholder_witness :
  clear_of_token "fr"
  ∧ ∃ w',
      subst_locale mixed_names (example_world (repo_system []) (Some "fr") one_template_dict)
        = (Ok [EStr "pkg-fr"; EStr "a$1-fr"; EStr "lang-fr-pack"; EDict 0], w')
      ∧ Forall (λ item, ∃ n, packagename_of (heap w') item = Some n
                             ∧ Py.contains "${LOCALE}" n = false)
          [EStr "pkg-fr"; EStr "a$1-fr"; EStr "lang-fr-pack"; EDict 0]
      ∧ packagename_of (heap w') (EDict 0) = Some "lang-fr".
Proof.
  assert (Hclear : clear_of_token "fr") by (by apply plain_locale_clear).
  split; [exact Hclear|].
  destruct (subst_locale_placeholder mixed_names
              (example_world (repo_system []) (Some "fr") one_template_dict))
    as (ret & w' & Hrun & _ & Hother & _).
  assert (Hret : ret = [EStr "pkg-fr"; EStr "a$1-fr"; EStr "lang-fr-pack"; EDict 0]).
  { pose proof (f_equal fst Hrun) as H. vm_compute in H. by injection H as <-. }
  subst ret. exists w'. split; [exact Hrun|].
  destruct Hother as [Hnone Hrepl]; [discriminate|]. split.
  - apply Hnone; [exact Hclear|].
    repeat constructor; by intros n [= <-].
  - apply (Hrepl (EDict 0) [Lit "l"; Lit "a"; Lit "n"; Lit "g"; Lit "-"; Tok]);
      [|repeat constructor; by intros [=]|reflexivity|reflexivity].
    unfold mixed_names. cbn [py_iter].
    do 3 (apply elem_of_cons; right). apply elem_of_cons. by left.
Defined.

(** Claim C7 as stated fails: with the locale [fr], the structured entry
    named [lang-${LOCALE}] is named [lang-fr] after the call. *)
Lemma purity_counterexample :
  heap (example_world (repo_system []) (Some "fr") one_template_dict) !! 0%nat
    = Some (PkgDict (Some "lang-${LOCALE}") None None)
  ∧ heap (subst_locale (PList [EDict 0])
            (example_world (repo_system []) (Some "fr") one_template_dict)).2 !! 0%nat
    = Some (PkgDict (Some "lang-fr") None None).
Proof. vm_compute. done. Qed.

(** Claim C9 at [[{"install": ["b"]}]] with only [a] in the repository. *)
Lemma zero_total_returns_at_once_witness :
  Pacman.prepare (pacman_operations install_missing)
    (example_world (repo_system ["a"]) None ∅)
  = (Ok (inr (plain_manager, [], 0%Z)),
     (Pacman.prepare (pacman_operations install_missing)
        (example_world (repo_system ["a"]) None ∅)).2)
  ∧ ∃ w', Pacman.run (pacman_operations install_missing)
            (example_world (repo_system ["a"]) None ∅) = (Ok JobNone, w')
          ∧ progress w' = [] ∧ divisions w' = [].
Proof.
  assert (Hprep : Pacman.prepare (pacman_operations install_missing)
                    (example_world (repo_system ["a"]) None ∅)
                  = (Ok (inr (plain_manager, [], 0%Z)),
                     (Pacman.prepare (pacman_operations install_missing)
                        (example_world (repo_system ["a"]) None ∅)).2)).
  { vm_compute. reflexivity. }
  split; [exact Hprep|].
  destruct (proj1 zero_total_returns_at_once _ _ _ _ _ Hprep)
    as (w' & Hrun & _ & Hprog & _ & Hdiv).
  exists w'. split; [exact Hrun|]. split.
  - rewrite Hprog. vm_compute. reflexivity.
  - rewrite Hdiv. reflexivity.
Defined.

(** Claim C10 at three operations tagged [Paru], not at all and [flatpak]:
    the pacman module preprocesses and dispatches the second one, the paru
    module counts and dispatches the first one. *)
Lemma source_partition_witness :
  Pacman.run (pacman_operations tagged_operations)
    (example_world (repo_system ["a"; "b"; "c"]) None ∅)
  = Pacman.dispatch plain_manager [[("install", PList [EStr "b"])]] 1
      (Pacman.prepare (pacman_operations tagged_operations)
         (example_world (repo_system ["a"; "b"; "c"]) None ∅)).2
  ∧ ∃ pkgman w2,
      Paru.run (paru_operations tagged_operations)
        (example_world (repo_system ["a"; "b"; "c"]) None ∅)
      = Paru.dispatch pkgman [[("install", PList [EStr "a"]); ("source", PStr "Paru")]] w2.
Proof.
  destruct source_partition as (Hpacman & Hparu & _). split.
  - apply (Hpacman (pacman_operations tagged_operations)
             (example_world (repo_system ["a"; "b"; "c"]) None ∅) plain_manager
             (Pacman.init (pacman_operations tagged_operations)
                (example_world (repo_system ["a"; "b"; "c"]) None ∅)).2
             (Pacman.init (pacman_operations tagged_operations)
                (example_world (repo_system ["a"; "b"; "c"]) None ∅)).2
             (Pacman.init (pacman_operations tagged_operations)
                (example_world (repo_system ["a"; "b"; "c"]) None ∅)).2
             (list_to_set ["a"; "b"; "c"]) ∅
             (Pkgcheck.build_repo_index
                (Pacman.init (pacman_operations tagged_operations)
                   (example_world (repo_system ["a"; "b"; "c"]) None ∅)).2).2);
      vm_compute; reflexivity.
  - destruct (Hparu (paru_operations tagged_operations)
                (example_world (repo_system ["a"; "b"; "c"]) None ∅) eq_refl eq_refl)
      as (pkgman & wa & wb & w1 & w2 & _ & _ & _ & Hg & Hh & Hcount & Hrun).
    assert (Hkept : List.filter (for_paru w1)
                      (configured_operations w1
                         (Paru.cfg_operations (paru_operations tagged_operations)))
                    = [[("install", PList [EStr "a"]); ("source", PStr "Paru")]]).
    { unfold configured_operations. rewrite Hg. reflexivity. }
    rewrite Hkept in Hrun. by exists pkgman, w2.
Defined.

(** ** Examples: the further properties at concrete inputs *)

Lemma preprocess_keeps_shape_witness :
  ∃ shaped new_total w',
    Pkgcheck.preprocess_operations install_a_from_x subst_locale {["a"]} ∅
        (example_world (repo_system ["a"]) (Some "fr") ∅)
      = (Ok (List.filter Pkgcheck.any_nonempty_list shaped, new_total), w')
    ∧ Forall2 (operation_shape "fr") install_a_from_x shaped.
Proof.
  apply (preprocess_keeps_shape install_a_from_x {["a"]} ∅
           (example_world (repo_system ["a"]) (Some "fr") ∅)).
  apply install_a_from_x_wf.
Defined.

Lemma build_repo_index_round_trip_witness :
  ∃ w', Pkgcheck.build_repo_index (example_world (repo_system ["a"; "b"]) None ∅)
          = (Ok ({["a"; "b"]}, ∅), w')
        ∧ invoked w' = [["pacman"; "-Sgq"]; ["pacman"; "-Slq"]].
Proof.
  destruct (build_repo_index_round_trip ["a"; "b"] []
              (example_world (repo_system ["a"; "b"]) None ∅)) as [_ H].
  destruct H as (w' & Hrun & Hinv & _); try done.
  - repeat constructor.
  - exists w'. split; [|done]. rewrite Hrun. do 2 f_equal.
Defined.

Lemma run_paru_retry_witness :
  ∃ w', Paru.run_paru default_paru_manager ["paru"] true
          (example_world (flaky_system 1) None ∅) = (Ok false, w')
        ∧ invoked w' = [["paru"]].
Proof.
  destruct (run_paru_retry default_paru_manager ["paru"] true
              (example_world (flaky_system 1) None ∅) 1) as (w' & _ & H); try done.
  - intros i _. by left.
  - intros i Hi. assert (i = 0%nat) as -> by lia. done.
  - simpl in H. destruct H as (Hrun & Hinv & _). by exists w'.
Defined.

Lemma run_paru_timeout_witness :
  ∃ w', Paru.run_paru impatient_paru_manager ["paru"] false
          (example_world hanging_system None ∅) = (Ok false, w')
        ∧ invoked w' = [pkill_paru; ["paru"]; pkill_paru; ["paru"]].
Proof.
  destruct (run_paru_timeout impatient_paru_manager ["paru"] false
              (example_world hanging_system None ∅)) as (w' & Hrun & _ & Hinv & _);
    try done.
  by exists w'.
Defined.

Lemma paru_completed_reaches_total_witness :
  ∃ w', Paru.run (paru_operations try_remove_x_paru) (example_world failing_system None ∅)
          = (Ok JobNone, w')
        ∧ completed_packages w' = total_packages w'.
Proof.
  apply (paru_completed_reaches_total (paru_operations try_remove_x_paru)
           (example_world failing_system None ∅)); reflexivity.
Defined.

Lemma subst_locale_idempotent_witness :
  ∃ resolved w1,
    subst_locale (PList [EStr (template lang_pack); EDict 0])
        (example_world failing_system (Some "fr") one_template_dict)
      = (Ok resolved, w1)
    ∧ subst_locale (PList resolved) w1 = (Ok resolved, w1).
Proof.
  apply (subst_locale_idempotent (PList [EStr (template lang_pack); EDict 0])
           (example_world failing_system (Some "fr") one_template_dict)).
  right. split; [reflexivity|].
  repeat constructor.
  - intros n [= <-]. exists lang_pack. split; [|done].
    repeat constructor; by intros [=].
  - intros n Hn. assert (n = "lang-${LOCALE}") as ->.
    { by vm_compute in Hn; injection Hn as <-. }
    exists [Lit "l"; Lit "a"; Lit "n"; Lit "g"; Lit "-"; Tok]. split; [|done].
    repeat constructor; by intros [=].
Defined.

Lemma try_install_attempts_every_package_witness :
  ∃ counts w',
    Pacman.pacman_operation_try_install retrying_manager (EStr <$> ["a"; "b"])
        (example_world failing_system None ∅) = (Ok tt, w')
    ∧ length counts = 2%nat
    ∧ invoked w'
      = reverse (runs_in_order counts
                   ((λ s, Pacman.install_cmd retrying_manager [s] false) <$> ["a"; "b"])).
Proof.
  destruct (try_install_attempts_every_package retrying_manager ["a"; "b"]
              (example_world failing_system None ∅))
    as (counts & w' & Hrun & Hlen & _ & Hinv & _); [done|].
  exists counts, w'. split; [done|]. split; [done|]. by rewrite Hinv, app_nil_r.
Defined.

Lemma update_db_failure_ends_run_witness :
  ∃ message rc w',
    Pacman.run update_db_only (example_world failing_system None ∅)
      = (Ok (JobError "Package Manager error" message
               (Some (CalledProcessError ["pacman"; "-Sy"] rc))), w')
    ∧ invoked w' = [["pacman"; "-Sy"]].
Proof.
  destruct (update_db_failure_ends_run update_db_only
              (example_world failing_system None ∅))
    as (message & rc & w' & Hrun & _ & Hinv & _); try done.
  by exists message, rc, w'.
Defined.

Lemma pacstrap_command_line_witness :
  ∃ w', Pacstrap.install (Pacstrap.Host (λ _, true) (λ _, None) (λ _, true))
          (Pacstrap.Configuration None None None) "/mnt" [EStr "base"; EStr "linux"]
          (example_world failing_system None ∅)
        = (Ok (JobError "Failed to run pacstrap" ""
                 (Some (PacmanError ["pacstrap"; "/mnt"; "base"; "linux"] 1))), w')
      ∧ invoked w' = [["pacstrap"; "/mnt"; "base"; "linux"]].
Proof.
  destruct (pacstrap_command_line (Pacstrap.Host (λ _, true) (λ _, None) (λ _, true))
              (Pacstrap.Configuration None None None) "/mnt" ["base"; "linux"]
              (example_world failing_system None ∅))
    as (result & w' & Hrun & Hinv & _ & Hres); [done|].
  simpl in Hres. destruct Hres as [-> _]. by exists w'.
Defined.

Lemma pacman_counts_every_key_witness :
  total_packages
    (Pacman.run (pacman_operations install_a_from_x)
       (example_world (repo_system ["a"]) None ∅)).2 = 1%Z
  ∧ completed_packages
      (Pacman.run (pacman_operations install_a_from_x)
         (example_world (repo_system ["a"]) None ∅)).2 = 2%Z.
Proof.
  destruct (pacman_counts_every_key (pacman_operations install_a_from_x)
              (example_world (repo_system ["a"]) None ∅)
              plain_manager
              [[("install", PList [EStr "a"]); ("source", PList [EStr "x"])]] 1%Z
              (Pacman.prepare (pacman_operations install_a_from_x)
                 (example_world (repo_system ["a"]) None ∅)).2
              (Pacman.run (pacman_operations install_a_from_x)
                 (example_world (repo_system ["a"]) None ∅)).2)
    as (_ & Ht & _ & Hc).
  - apply install_a_from_x_wf.
  - vm_compute. reflexivity.
  - vm_compute. reflexivity.
  - split; [exact Ht|]. rewrite Hc by done. reflexivity.
Defined.
